(** * Lumoria light-intensity classification: a shallow embedding

    The JavaScript sources embedded here are

    - the enhanced light-intensity calculator
      ([getShadowCount], [getLightIntensity], [calculateLightIntensity],
      [defaultLumoriaPlanets], [getLightIcon], [displaySummary]);
    - [Solutions/JavaScript/Lumoria/scientific-shadow.js]
      ([calculateAngularSize], [calculateShadowInteraction],
      [getScientificShadowAnalysis], [getScientificLightIntensity],
      [calculateScientificLightIntensity]);
    - [Solutions/JavaScript/Lumoria/lumoria-light-intensity.js]
      ([calculateLightIntensities], the count-all-closer variant, and
      [calculateShadows]);
    - the custom star system module ([validatePlanet],
      [validateStarSystem]);
    - the clock synchronization of Tempora ([parseTimeToMinutes],
      [calculateMinuteDifference]).

    Conventions of the embedding.

    - A number of a body is a rational [Q]: a finite number, read by its
      value.  The classifiers only compare the numbers of the bodies, and
      comparisons are exact.  Where the source computes with them
      ([size * 1.1] and [size * 0.9], the angular sizes, the fields of
      [shadowing]) the embedding computes exactly and the source rounds
      to binary64; the theorems say of such a value only what does not
      depend on the rounding, and no theorem says on which side of a
      threshold a caster within a rounding step of it falls.  Two numbers
      are the same number when they are [Qeq]; all comparisons below
      respect [Qeq].
    - The validation takes values of any type, [NaN] and the infinities
      among them, and is embedded over the primitives it calls on strings
      and numbers: [trim], [toLowerCase], the comparison of a string with
      a number, and the subtraction [d - dist].
    - A thrown [TypeError] is the [None] of an [option]; a function that
      cannot throw returns its value directly.
    - Array indices are [nat]; [arr.slice(0, i)] is [firstn i arr],
      [arr[i]] is [nth_error arr i] ([None] standing for [undefined]).
    - The four categorical labels are the strings of the source. *)

From Stdlib Require Import List String Ascii Bool Arith Lia.
From Stdlib Require Import ZArith QArith Qminmax Qabs Lqa.
From Stdlib Require Import Permutation Sorted DecimalString.

Import ListNotations.
Open Scope string_scope.
Open Scope list_scope.
Open Scope Q_scope.

Set Implicit Arguments.

(** ** JavaScript numbers and exceptions *)

Module Js.

(** [a > b], [a < b], [a >= b] and [a <= b] on numbers. *)
Definition gt (a b : Q) : bool := negb (Qle_bool a b).
Definition lt (a b : Q) : bool := negb (Qle_bool b a).
Definition ge (a b : Q) : bool := Qle_bool b a.
Definition le (a b : Q) : bool := Qle_bool a b.

(** The error monad of code that may throw. *)
Definition bind {A B} (m : option A) (k : A -> option B) : option B :=
  match m with
  | Some a => k a
  | None => None
  end.

(** [arr.map((x, i) => f(x, i))] for a callback that may throw: the
    callback runs on the elements in index order, and the first
    exception aborts the whole call.  [i] is the index of the head. *)
Fixpoint mapFrom {A B} (f : A -> nat -> option B) (i : nat) (arr : list A)
  : option (list B) :=
  match arr with
  | [] => Some []
  | x :: rest =>
      bind (f x i) (fun y =>
      bind (mapFrom f (S i) rest) (fun ys => Some (y :: ys)))
  end.

Definition map {A B} (f : A -> nat -> option B) (arr : list A) :=
  mapFrom f 0 arr.

End Js.

Notation "x <- m ;; k" := (Js.bind m (fun x => k))
  (at level 61, m at next level, right associativity).
Notation "' pat <- m ;; k" := (Js.bind m (fun x => let 'pat := x in k))
  (at level 61, pat pattern, m at next level, right associativity).

(** ** Bodies and the sort by distance *)

Record Planet := mkPlanet {
  name : string;
  distance : Q;
  size : Q
}.

(** [[...planets].sort((a, b) => a.distance - b.distance)].

    [Array.prototype.sort] is a stable sort, and on finite numbers the
    comparator is a consistent total preorder, so the result is the one
    stable arrangement by ascending distance, whatever algorithm the
    engine runs.  It is computed here by a stable insertion: an element
    goes in front of the first element that is not strictly closer than
    it, so that it stays in front of the later elements at its own
    distance. *)
Fixpoint insertByDistance (a : Planet) (sorted : list Planet) : list Planet :=
  match sorted with
  | [] => [a]
  | b :: rest =>
      if Js.le (distance a) (distance b)
      then a :: b :: rest
      else b :: insertByDistance a rest
  end.

Definition sortByDistance (planets : list Planet) : list Planet :=
  fold_right insertByDistance [] planets.

(** Non-strict ascending order on distance. *)
Definition closerOrTied (a b : Planet) : Prop := distance a <= distance b.

(** ** The enhanced light-intensity calculator *)

Module Lumoria.

Definition defaultLumoriaPlanets : list Planet :=
  [ mkPlanet "Mercuria" 0.4 4879;
    mkPlanet "Earthia" 1 12742;
    mkPlanet "Venusia" 0.7 12104;
    mkPlanet "Marsia" 1.5 6779 ].

(** [getShadowCount(planets, currentIndex)].  The filter callback reads
    [planets[currentIndex].size]; on an index past the end that is a
    property of [undefined] and throws, but only if the callback runs at
    all, that is if the slice is not empty. *)
Definition getShadowCount (planets : list Planet) (currentIndex : nat)
  : option nat :=
  if (currentIndex =? 0)%nat then Some 0%nat
  else
    match firstn currentIndex planets with
    | [] => Some 0%nat
    | front =>
        match nth_error planets currentIndex with
        | None => None
        | Some current =>
            Some (List.length
                    (filter (fun planet => Js.gt (size planet) (size current))
                            front))
        end
    end.

(** [getLightIntensity(planetIndex, shadowCount, planets, currentIndex)];
    the last two arguments are unused in the source. *)
Definition getLightIntensity (planetIndex shadowCount : nat)
    (planets : list Planet) (currentIndex : nat) : string :=
  if (planetIndex =? 0)%nat then "Full"
  else if (shadowCount =? 1)%nat then "None"
  else if (1 <? shadowCount)%nat then "None (Multiple Shadows)"
  else "Partial".

Record Result := mkResult {
  res_name : string;
  res_light : string;
  res_distance : Q;
  res_size : Q;
  res_shadowCount : nat;
  res_largerPlanetsInFront : nat;
  res_smallerPlanetsInFront : nat
}.

Definition calculateLightIntensity (planets : list Planet)
  : option (list Result) :=
  let sortedPlanets := sortByDistance planets in
  Js.map
    (fun planet i =>
       shadowCount <- getShadowCount sortedPlanets i ;;
       let lightIntensity :=
         getLightIntensity i shadowCount sortedPlanets i in
       let planetsInFront := firstn i sortedPlanets in
       let largerPlanetsInFront :=
         List.length (filter (fun p => Js.gt (size p) (size planet))
                        planetsInFront) in
       let smallerPlanetsInFront :=
         List.length (filter (fun p => Js.le (size p) (size planet))
                        planetsInFront) in
       Some {| res_name := name planet;
               res_light := lightIntensity;
               res_distance := distance planet;
               res_size := size planet;
               res_shadowCount := shadowCount;
               res_largerPlanetsInFront := largerPlanetsInFront;
               res_smallerPlanetsInFront := smallerPlanetsInFront |})
    sortedPlanets.

End Lumoria.

(** ** scientific-shadow.js *)

Module ScientificShadow.

(** [calculateAngularSize(planetSize, distance)], in arcseconds, in
    exact arithmetic: the source rounds each operation to binary64, and
    at distance zero it divides by zero ([Infinity] or [NaN]), where [Q]
    division gives 0.  No property below reads this value. *)
Definition calculateAngularSize (planetSize distance : Q) : Q :=
  let AU_TO_KM := 149597870.7 in
  let distanceKm := distance * AU_TO_KM in
  let angularSizeRadians := planetSize / distanceKm in
  let angularSizeArcseconds := angularSizeRadians * 206265 in
  angularSizeArcseconds.

Record ShadowInfo := mkShadowInfo {
  hasShadow : bool;
  type : string;
  intensity : Q
}.

(** [calculateShadowInteraction(shadowCaster, shadowReceiver)].  The two
    angular sizes are computed and never read.  The products
    [size * 1.1] and [size * 0.9] are exact here; the source rounds them
    to binary64, so that it can put a caster whose size is within a
    rounding step of a product on the other side of it (for the receiver
    size 6779 it computes 7456.900000000001 for [6779 * 1.1]).  The
    properties below hold on either side: that a strictly larger caster is
    never below the second product holds of the rounded products too. *)
Definition calculateShadowInteraction (shadowCaster shadowReceiver : Planet)
  : ShadowInfo :=
  if Js.ge (distance shadowCaster) (distance shadowReceiver)
  then mkShadowInfo false "none" 0
  else
    let casterAngularSize :=
      calculateAngularSize (size shadowCaster) (distance shadowCaster) in
    let receiverAngularSize :=
      calculateAngularSize (size shadowReceiver) (distance shadowReceiver) in
    if Js.gt (size shadowCaster) (size shadowReceiver * 1.1)
    then mkShadowInfo true "complete" 1
    else if Js.gt (size shadowCaster) (size shadowReceiver * 0.9)
    then mkShadowInfo true "partial" 0.6
    else mkShadowInfo true "minimal" 0.3.

Record ShadowDetail := mkShadowDetail {
  caster : string;
  detail_type : string;
  detail_intensity : Q
}.

Record ShadowAnalysis := mkShadowAnalysis {
  shadowCount : nat;
  totalShadowIntensity : Q;
  shadowDetails : list ShadowDetail;
  lightIntensity : Q
}.

(** The state of the [forEach] loop: the [shadowDetails] array and the
    running [totalShadowIntensity]. *)
Definition LoopState : Type := (list ShadowDetail * Q)%type.

(** One iteration of the [forEach] over [largerPlanetsInFront]. *)
Definition analyzeCaster (currentPlanet : Planet) (st : LoopState)
    (shadowCaster : Planet) : LoopState :=
  let shadowInfo := calculateShadowInteraction shadowCaster currentPlanet in
  if hasShadow shadowInfo
  then (fst st ++ [ {| caster := name shadowCaster;
                       detail_type := type shadowInfo;
                       detail_intensity := intensity shadowInfo |} ],
        snd st + intensity shadowInfo)
  else st.

(** The tail of [getScientificShadowAnalysis], from the loop on. *)
Definition analysisFrom (largerPlanetsInFront : list Planet)
    (st : LoopState) : ShadowAnalysis :=
  let totalShadowIntensity := snd st in
  let effectiveShadowIntensity := Qmin totalShadowIntensity 1 in
  let lightIntensity := Qmax 0 (1 - effectiveShadowIntensity) in
  {| shadowCount := List.length largerPlanetsInFront;
     totalShadowIntensity := effectiveShadowIntensity;
     shadowDetails := fst st;
     lightIntensity := lightIntensity |}.

(** [getScientificShadowAnalysis(planets, currentIndex)].  With an index
    past the end [currentPlanet] is [undefined]: the filter callback then
    throws on its first call; over an empty slice it is never called, no
    planet is analyzed and the function returns normally. *)
Definition getScientificShadowAnalysis (planets : list Planet)
    (currentIndex : nat) : option ShadowAnalysis :=
  if (currentIndex =? 0)%nat
  then Some {| shadowCount := 0;
               totalShadowIntensity := 0;
               shadowDetails := [];
               lightIntensity := 1 |}
  else
    match nth_error planets currentIndex with
    | Some currentPlanet =>
        let largerPlanetsInFront :=
          filter (fun planet => Js.gt (size planet) (size currentPlanet))
                 (firstn currentIndex planets) in
        Some (analysisFrom largerPlanetsInFront
                (fold_left (analyzeCaster currentPlanet)
                           largerPlanetsInFront ([], 0)))
    | None =>
        match firstn currentIndex planets with
        | [] => Some (analysisFrom [] ([], 0))
        | _ :: _ => None
        end
    end.

Definition getScientificLightIntensity (shadowAnalysis : ShadowAnalysis)
    (planetIndex : nat) : string :=
  if (planetIndex =? 0)%nat then "Full"
  else
    let shadowCount := shadowCount shadowAnalysis in
    if (shadowCount =? 1)%nat then "None"
    else if (1 <? shadowCount)%nat then "None (Multiple Shadows)"
    else "Partial".

Record Result := mkResult {
  res_name : string;
  res_distance : Q;
  res_size : Q;
  res_light : string;
  res_scientificLightIntensity : Q;
  res_shadowCount : nat;
  res_totalShadowIntensity : Q;
  res_shadowDetails : list ShadowDetail;
  res_angularSize : Q
}.

Definition calculateScientificLightIntensity (planets : list Planet)
  : option (list Result) :=
  let sortedPlanets := sortByDistance planets in
  Js.map
    (fun planet i =>
       shadowAnalysis <- getScientificShadowAnalysis sortedPlanets i ;;
       let light := getScientificLightIntensity shadowAnalysis i in
       Some {| res_name := name planet;
               res_distance := distance planet;
               res_size := size planet;
               res_light := light;
               res_scientificLightIntensity := lightIntensity shadowAnalysis;
               res_shadowCount := shadowCount shadowAnalysis;
               res_totalShadowIntensity :=
                 totalShadowIntensity shadowAnalysis;
               res_shadowDetails := shadowDetails shadowAnalysis;
               res_angularSize :=
                 calculateAngularSize (size planet) (distance planet) |})
    sortedPlanets.

End ScientificShadow.

(** ** Solutions/JavaScript/Lumoria/lumoria-light-intensity.js

    The count-all-closer variant.  Its bodies carry a [diameter], and it
    expects its argument already sorted. *)

Module CountAllCloser.

Record Body := mkBody {
  name : string;
  distance : Q;
  diameter : Q
}.

Module ShadowType.
Definition FULL := "Full".
Definition PARTIAL := "Partial".
Definition NONE := "None".
Definition MULTI := "None (Multiple Shadows)".
End ShadowType.

Record Result := mkResult {
  body : Body;
  shadow : string;
  closerCount : nat;
  largerCloserCount : nat;
  smallerCloserCount : nat
}.

Definition calculateLightIntensities (sortedPlanets : list Body)
  : list Result :=
  List.map
    (fun '(idx, planet) =>
       let closer := firstn idx sortedPlanets in
       let largerCloser :=
         filter (fun p => Js.gt (diameter p) (diameter planet)) closer in
       let smallerCloser :=
         filter (fun p => Js.lt (diameter p) (diameter planet)) closer in
       let shadow :=
         if (1 <? List.length closer)%nat then ShadowType.MULTI
         else if (0 <? List.length largerCloser)%nat then ShadowType.FULL
         else if (0 <? List.length smallerCloser)%nat
              then ShadowType.PARTIAL
         else ShadowType.NONE in
       {| body := planet;
          shadow := shadow;
          closerCount := List.length closer;
          largerCloserCount := List.length largerCloser;
          smallerCloserCount := List.length smallerCloser |})
    (combine (seq 0 (List.length sortedPlanets)) sortedPlanets).

End CountAllCloser.

(** ** The custom star system module: validation

    Validation receives objects of any shape (they come from
    [JSON.parse], from [parseFloat] or from a caller), so their properties
    are dynamically typed values.  The value model covers the primitives;
    [JsNumber] is a finite number, and [NaN] and the two infinities are
    values of their own.

    A string is a sequence of characters.  The methods [trim] and
    [toLowerCase] and the subtraction of two numbers are primitives of
    the language that the validation calls; it is embedded over them, and
    nothing is assumed of them but what a theorem states.  [JsString]
    below holds what the two methods do on a string of ASCII characters,
    to run the validation on such strings. *)

Inductive JsValue :=
| JsUndefined
| JsNull
| JsBoolean (b : bool)
| JsNumber (n : Q)
| JsNaN
| JsInfinity (negative : bool)
| JsString (s : string).

Module JsString.

(** White space and line terminators that [trim] strips, among the
    ASCII characters. *)
Definition isWhiteSpace (c : ascii) : bool :=
  let n := nat_of_ascii c in
  ((9 <=? n) && (n <=? 13) || (n =? 32))%nat.

Fixpoint trimStart (s : string) : string :=
  match s with
  | String c rest => if isWhiteSpace c then trimStart rest else s
  | EmptyString => EmptyString
  end.

(** [trimEnd]: a character is dropped when it is white space and
    everything after it was dropped too. *)
Fixpoint trimEnd (s : string) : string :=
  match s with
  | String c rest =>
      match trimEnd rest with
      | EmptyString => if isWhiteSpace c then EmptyString
                       else String c EmptyString
      | kept => String c kept
      end
  | EmptyString => EmptyString
  end.

(** [s.trim()] for a string of ASCII characters. *)
Definition trim (s : string) : string := trimEnd (trimStart s).

Definition lowerChar (c : ascii) : ascii :=
  let n := nat_of_ascii c in
  if ((65 <=? n) && (n <=? 90))%nat then ascii_of_nat (n + 32) else c.

(** [s.toLowerCase()] for a string of ASCII characters. *)
Fixpoint toLowerCase (s : string) : string :=
  match s with
  | String c rest => String (lowerChar c) (toLowerCase rest)
  | EmptyString => EmptyString
  end.

(** [arr.join(sep)] on an array of strings. *)
Definition join (sep : string) (arr : list string) : string :=
  String.concat sep arr.

(** [`${n}`] for an array index. *)
Definition ofNat (n : nat) : string :=
  NilEmpty.string_of_uint (Nat.to_uint n).

End JsString.

Module JsArray.

(** [arr.filter((x, i) => pred(x, i))], [i] the index of the head. *)
Fixpoint filterFrom {A} (pred : A -> nat -> bool) (i : nat) (arr : list A)
  : list A :=
  match arr with
  | [] => []
  | x :: rest =>
      if pred x i then x :: filterFrom pred (S i) rest
      else filterFrom pred (S i) rest
  end.

Definition filter {A} (pred : A -> nat -> bool) (arr : list A) : list A :=
  filterFrom pred 0 arr.

(** [arr.find((x, i) => pred(x, i))]; [None] is [undefined]. *)
Fixpoint findFrom {A} (pred : A -> nat -> bool) (i : nat) (arr : list A)
  : option A :=
  match arr with
  | [] => None
  | x :: rest => if pred x i then Some x else findFrom pred (S i) rest
  end.

Definition find {A} (pred : A -> nat -> bool) (arr : list A) : option A :=
  findFrom pred 0 arr.

(** [arr.indexOf(s)] on an array of strings; [None] is [-1]. *)
Fixpoint indexOfFrom (s : string) (i : nat) (arr : list string)
  : option nat :=
  match arr with
  | [] => None
  | x :: rest => if String.eqb x s then Some i else indexOfFrom s (S i) rest
  end.

Definition indexOf (s : string) (arr : list string) : option nat :=
  indexOfFrom s 0 arr.

(** [[...new Set(arr)]]: the distinct strings, each at its first
    occurrence.  [seen] holds the strings already kept. *)
Fixpoint distinctFrom (seen : list string) (arr : list string)
  : list string :=
  match arr with
  | [] => []
  | x :: rest =>
      if existsb (String.eqb x) seen then distinctFrom seen rest
      else x :: distinctFrom (x :: seen) rest
  end.

Definition distinct (arr : list string) : list string :=
  distinctFrom [] arr.

End JsArray.

Module CustomStarSystem.

Record RawPlanet := mkRawPlanet {
  rawName : JsValue;
  rawDistance : JsValue;
  rawSize : JsValue
}.

Record RawSystem := mkRawSystem {
  sysName : JsValue;
  sysDescription : JsValue;
  (** [None] when [system.planets] is not an array. *)
  sysPlanets : option (list RawPlanet)
}.

(** Truthiness of a value. *)
Definition truthy (v : JsValue) : bool :=
  match v with
  | JsUndefined | JsNull | JsNaN => false
  | JsBoolean b => b
  | JsNumber n => negb (Qeq_bool n 0)
  | JsInfinity _ => true
  | JsString s => negb (String.eqb s "")
  end.

(** [typeof v !== 'number' || v <= 0]; every comparison with [NaN] is
    false. *)
Definition notPositiveNumber (v : JsValue) : bool :=
  match v with
  | JsNumber n => Js.le n 0
  | JsNaN => false
  | JsInfinity negative => negative
  | _ => true
  end.

(** A number field of a sanitized planet: a finite number or [NaN]. *)
Inductive Parsed :=
| Finite (n : Q)
| NotANumber.

(** [parseFloat(v)] for a number [v] that is finite or [NaN]: the number
    itself. *)
Definition parseFloatOf (v : JsValue) : option Parsed :=
  match v with
  | JsNumber n => Some (Finite n)
  | JsNaN => Some NotANumber
  | _ => None
  end.

(** The sanitized copy [{ name, distance, size }] of a planet. *)
Record Sanitized := mkSanitized {
  s_name : string;
  s_distance : Parsed;
  s_size : Parsed
}.

Record PlanetValidation := mkPlanetValidation {
  isValid : bool;
  errors : list string;
  (** The sanitized copy, present when the name is a string and the
      distance and the size are numbers, finite or [NaN]: every valid
      planet is of that shape.  In every other case some field of the
      copy is [undefined], an infinity or the parse of a value that is
      not a number; [validateStarSystem] never reads the copy then (it
      does only when [isValid]), and it is [None] here. *)
  planet : option Sanitized
}.

(** A sanitized planet as a body, when its two numbers are finite. *)
Definition toPlanet (p : Sanitized) : option Planet :=
  match s_distance p, s_size p with
  | Finite d, Finite s => Some (mkPlanet (s_name p) d s)
  | _, _ => None
  end.

Fixpoint toPlanets (validated : list Sanitized) : option (list Planet) :=
  match validated with
  | [] => Some []
  | p :: rest =>
      body <- toPlanet p ;;
      bodies <- toPlanets rest ;;
      Some (body :: bodies)
  end.

(** [`${v}`] for a value that [?.trim()] accepts. *)
Definition nameText (v : JsValue) : string :=
  match v with
  | JsString s => s
  | JsNull => "null"
  | _ => "undefined"
  end.

(** The names that occur earlier in the array as well. *)
Definition duplicateNames (planetNames : list string) : list string :=
  JsArray.filter
    (fun name index =>
       match JsArray.indexOf name planetNames with
       | Some first => negb (first =? index)%nat
       | None => true
       end)
    planetNames.

(** Truthiness of a number that is finite or [NaN]. *)
Definition truthyParsed (d : Parsed) : bool :=
  match d with
  | Finite n => negb (Qeq_bool n 0)
  | NotANumber => false
  end.

Definition pushIf (cond : bool) (message : string) (errors : list string)
  : list string :=
  if cond then errors ++ [message] else errors.

Record ValidatedSystem := mkValidatedSystem {
  vs_name : option string;
  vs_description : string;
  (** [validatedPlanets.sort((a, b) => a.distance - b.distance)], as
      bodies, when the distance and the size of every validated planet
      are finite.  With a [NaN] among the distances the comparator
      returns [NaN] and the order that [sort] leaves depends on the
      engine; the field is [None] whenever a number of a validated planet
      is [NaN], and nothing is said of the array then. *)
  vs_planets : option (list Planet)
}.

Record SystemValidation := mkSystemValidation {
  sv_isValid : bool;
  sv_errors : list string;
  validatedSystem : ValidatedSystem
}.

Section WithPrimitives.

(** [s > bound] for a string [s]: the comparison of [ToNumber(s)] with
    a number. *)
Variable stringGreaterThan : string -> Q -> bool.

(** [s.trim()] and [s.toLowerCase()]. *)
Variable trim : string -> string.
Variable toLowerCase : string -> string.

(** [d - dist] on two finite numbers, as binary64 arithmetic computes
    it. *)
Variable minus : Q -> Q -> Q.

(** [!v || typeof v !== 'string' || v.trim().length === 0]. *)
Definition missingText (v : JsValue) : bool :=
  negb (truthy v)
  || match v with
     | JsString s => (String.length (trim s) =? 0)%nat
     | _ => true
     end.

(** [v?.trim()]: [undefined] on a nullish value, the trimmed string on
    a string, and a [TypeError] on any other value, which has no [trim]
    method to call. *)
Definition optionalTrim (v : JsValue) : option (option string) :=
  match v with
  | JsUndefined | JsNull => Some None
  | JsString s => Some (Some (trim s))
  | JsBoolean _ | JsNumber _ | JsNaN | JsInfinity _ => None
  end.

(** [v > bound] for any value [v]. *)
Definition greaterThan (v : JsValue) (bound : Q) : bool :=
  match v with
  | JsUndefined | JsNaN => false
  | JsNull => Js.gt 0 bound
  | JsBoolean b => Js.gt (if b then 1 else 0) bound
  | JsNumber n => Js.gt n bound
  | JsInfinity negative => negb negative
  | JsString s => stringGreaterThan s bound
  end.

Definition validatePlanet (planet : RawPlanet) : option PlanetValidation :=
  let errors := [] in
  let errors :=
    pushIf (missingText (rawName planet))
      "Planet name is required and must be a non-empty string" errors in
  let errors :=
    pushIf (notPositiveNumber (rawDistance planet))
      "Distance must be a positive number (AU)" errors in
  let errors :=
    pushIf (notPositiveNumber (rawSize planet))
      "Size must be a positive number (km diameter)" errors in
  let errors :=
    pushIf (greaterThan (rawDistance planet) 50)
      "Distance seems unrealistically large (>50 AU) - please verify"
      errors in
  let errors :=
    pushIf (greaterThan (rawSize planet) 150000)
      "Size seems unrealistically large (>150,000 km) - please verify"
      errors in
  trimmed <- optionalTrim (rawName planet) ;;
  Some {| isValid := (List.length errors =? 0)%nat;
          errors := errors;
          planet :=
            match trimmed, parseFloatOf (rawDistance planet),
                  parseFloatOf (rawSize planet) with
            | Some n, Some d, Some s => Some (mkSanitized n d s)
            | _, _, _ => None
            end |}.

(** The state of the [forEach] over [system.planets]: the system's
    [errors] and the [validatedPlanets]. *)
Definition LoopState : Type := (list string * list Sanitized)%type.

(** One iteration, on the planet at [index]. *)
Definition validateEach (st : LoopState) (planet : RawPlanet)
    (index : nat) : option LoopState :=
  validation <- validatePlanet planet ;;
  if negb (isValid validation)
  then Some (fst st ++
             [ ("Planet " ++ JsString.ofNat (index + 1) ++ ": " ++
                JsString.join ", " (errors validation))%string ],
             snd st)
  else
    match CustomStarSystem.planet validation with
    | Some p => Some (fst st, snd st ++ [p])
    | None => None
    end.

Fixpoint forEachFrom (index : nat) (planets : list RawPlanet)
    (st : LoopState) : option LoopState :=
  match planets with
  | [] => Some st
  | planet :: rest =>
      st' <- validateEach st planet index ;;
      forEachFrom (S index) rest st'
  end.

(** [Math.abs(d - dist) < 0.01]; false when one of the two is [NaN]. *)
Definition closerThan (d dist : Parsed) : bool :=
  match d, dist with
  | Finite a, Finite b => Js.lt (Qabs (minus a b)) 0.01
  | _, _ => false
  end.

(** The distances that have another entry closer than 0.01; the
    filter keeps an entry when what [find] returns is truthy. *)
Definition duplicateDistances (distances : list Parsed) : list Parsed :=
  JsArray.filter
    (fun dist index =>
       match JsArray.find
               (fun d i => negb (i =? index)%nat && closerThan d dist)
               distances with
       | Some d => truthyParsed d
       | None => false
       end)
    distances.

Definition validateStarSystem (system : RawSystem)
  : option SystemValidation :=
  let errors := [] in
  let validatedPlanets := [] in
  let errors :=
    pushIf (missingText (sysName system))
      "Star system name is required" errors in
  '(errors, validatedPlanets) <-
    match sysPlanets system with
    | None | Some [] =>
        Some (errors ++ ["At least one planet is required"],
              validatedPlanets)
    | Some planets =>
        '(errors, validatedPlanets) <-
          forEachFrom 0 planets (errors, validatedPlanets) ;;
        let planetNames :=
          List.map (fun p => toLowerCase (s_name p)) validatedPlanets in
        let duplicates := duplicateNames planetNames in
        let errors :=
          pushIf (0 <? List.length duplicates)%nat
            ("Duplicate planet names found: " ++
             JsString.join ", " (JsArray.distinct duplicates))%string
            errors in
        let distances := List.map s_distance validatedPlanets in
        let errors :=
          pushIf (0 <? List.length (duplicateDistances distances))%nat
            "Multiple planets cannot occupy the same orbital distance"
            errors in
        Some (errors, validatedPlanets)
    end ;;
  trimmedName <- optionalTrim (sysName system) ;;
  trimmedDescription <- optionalTrim (sysDescription system) ;;
  let description :=
    match trimmedDescription with
    | Some d =>
        if truthy (JsString d) then d
        else ("Custom star system: " ++ nameText (sysName system))%string
    | None =>
        ("Custom star system: " ++ nameText (sysName system))%string
    end in
  Some {| sv_isValid := (List.length errors =? 0)%nat;
          sv_errors := errors;
          validatedSystem :=
            {| vs_name := trimmedName;
               vs_description := description;
               vs_planets :=
                 option_map sortByDistance (toPlanets validatedPlanets) |} |}.

End WithPrimitives.

End CustomStarSystem.

(** ** The enhanced calculator: icons and summary *)

Module LumoriaDisplay.

(** A line feed, for the messages that start with one. *)
Definition nl : string := String (ascii_of_nat 10) EmptyString.

(** [s.includes(sub)]. *)
Fixpoint includes (sub s : string) : bool :=
  String.prefix sub s
  || match s with
     | String _ rest => includes sub rest
     | EmptyString => false
     end.

(** [arr.pop()] read as a value: the last element, [None] for
    [undefined]. *)
Fixpoint pop {A} (arr : list A) : option A :=
  match arr with
  | [] => None
  | [x] => Some x
  | _ :: rest => pop rest
  end.

Definition getLightIcon (lightIntensity : string) : string :=
  if String.eqb lightIntensity "Full" then "☀️"
  else if String.eqb lightIntensity "Partial" then "🌤️"
  else if String.eqb lightIntensity "None" then "🌑"
  else if String.eqb lightIntensity "None (Multiple Shadows)" then "🌑"
  else "❓".

(** One step of the [reduce] of [displaySummary],
    [acc[result.light] = (acc[result.light] || 0) + 1]: the object [acc]
    is the list of its entries in insertion order.  (A label that is an
    array index or the name of a property of [Object.prototype] would
    behave otherwise; the labels of the classifier are neither.) *)
Fixpoint count (acc : list (string * nat)) (light : string)
  : list (string * nat) :=
  match acc with
  | [] => [(light, 1%nat)]
  | (lightType, n) :: rest =>
      if String.eqb lightType light then (lightType, (n + 1)%nat) :: rest
      else (lightType, n) :: count rest light
  end.

Definition summary (results : list Lumoria.Result) : list (string * nat) :=
  fold_left (fun acc result => count acc (Lumoria.res_light result))
            results [].

(** The [mostAffected] of [displaySummary]: the first result with
    multiple shadows, or else the first with the label None, or else the
    last Partial one. *)
Definition mostAffected (results : list Lumoria.Result)
  : option Lumoria.Result :=
  match find (fun r => includes "Multiple Shadows" (Lumoria.res_light r))
             results with
  | Some r => Some r
  | None =>
      match find (fun r => String.eqb (Lumoria.res_light r) "None")
                 results with
      | Some r => Some r
      | None =>
          pop (filter (fun r => String.eqb (Lumoria.res_light r) "Partial")
                      results)
      end
  end.

(** [displaySummary(results)]: the lines it writes with [console.log]. *)
Definition displaySummary (results : list Lumoria.Result) : list string :=
  [ (nl ++ "📈 Alignment Summary:")%string ]
  ++ List.map (fun '(lightType, n) =>
                 (lightType ++ ": " ++ JsString.ofNat n ++ " planet(s)")%string)
              (summary results)
  ++ match mostAffected results with
     | Some r =>
         [ (nl ++ "🌑 Most affected planet: " ++ Lumoria.res_name r
               ++ " (" ++ Lumoria.res_light r ++ ")")%string ]
     | None => []
     end
  ++ [ (nl ++ "✨ The celestial alignment analysis is complete! ✨")%string ].

End LumoriaDisplay.

(** ** The shadow calculation of the report generator

    [calculateShadows], which [generate-report.js] requires: the rule
    that counts all closer bodies. *)

Module ShadowReport.

Record Shadowing := mkShadowing {
  sh_name : string;
  angDiameter : Q;
  distDiff : Q;
  pRadius : Q;
  sh_size : Q
}.

Record Result := mkResult {
  res_name : string;
  shadowType : string;
  shadowing : list Shadowing;
  res_distance : Q;
  res_size : Q
}.

Section WithAtan.

(** [Math.atan], a primitive of the language. *)
Variable atan : Q -> Q.

(** The entry of [shadowing] for a closer body [p].  For a body at the
    distance of the planet itself the source divides by zero, where [Q]
    division gives 0; no property below reads [angDiameter]. *)
Definition shadowingOf (planet p : Planet) : Shadowing :=
  let AU_KM := 149597870.7 in
  let distDiff := (distance planet - distance p) * AU_KM in
  let pRadius := size p / 2 in
  let angDiameter := 2 * atan (pRadius / distDiff) in
  {| sh_name := name p;
     angDiameter := angDiameter;
     distDiff := distDiff;
     pRadius := pRadius;
     sh_size := size p |}.

Definition calculateShadows (planets : list Planet) : list Result :=
  let sorted := sortByDistance planets in
  List.map
    (fun '(idx, planet) =>
       let closer := firstn idx sorted in
       let shadowing := List.map (shadowingOf planet) closer in
       let shadowType :=
         match closer with
         | [] => "Full"
         | [closerPlanet] =>
             if Js.gt (size closerPlanet) (size planet) then "None"
             else "Partial"
         | _ :: _ :: _ => "None (Multiple Shadows)"
         end in
       {| res_name := name planet;
          shadowType := shadowType;
          shadowing := shadowing;
          res_distance := distance planet;
          res_size := size planet |})
    (combine (seq 0 (List.length sorted)) sorted).

End WithAtan.

End ShadowReport.

(** ** The Clockwork Town of Tempora: clock synchronization *)

Module Tempora.

(** What a call that may throw an [Error] produces. *)
Inductive Outcome (A : Type) : Type :=
| Returned (value : A)
| Thrown (message : string).

Arguments Returned {A} value.
Arguments Thrown {A} message.

(** [\d], and a character between two given ones ([[0-5]], [[0-3]]). *)
Definition isDigit (c : ascii) : bool :=
  ((48 <=? nat_of_ascii c) && (nat_of_ascii c <=? 57))%nat.

Definition between (lo hi c : ascii) : bool :=
  ((nat_of_ascii lo <=? nat_of_ascii c)
   && (nat_of_ascii c <=? nat_of_ascii hi))%nat.

(** [/^([01]?\d|2[0-3]):([0-5]\d)$/.exec(timeStr)]: the two captures, or
    [None] for [null].  The pattern is anchored at both ends and has no
    flag, so it matches whole strings only: one hour digit, or two hour
    digits that are [[01]\d] or [2[0-3]], then a colon and two minute
    digits. *)
Definition execTime (timeStr : string) : option (string * string) :=
  match timeStr with
  | String h (String sep (String m1 (String m2 EmptyString))) =>
      if isDigit h && Ascii.eqb sep ":" && between "0" "5" m1 && isDigit m2
      then Some (String h EmptyString, String m1 (String m2 EmptyString))
      else None
  | String h1 (String h2 (String sep (String m1 (String m2 EmptyString)))) =>
      if (between "0" "1" h1 && isDigit h2
          || Ascii.eqb h1 "2" && between "0" "3" h2)
         && Ascii.eqb sep ":" && between "0" "5" m1 && isDigit m2
      then Some (String h1 (String h2 EmptyString),
                 String m1 (String m2 EmptyString))
      else None
  | _ => None
  end.

(** [parseInt(s, 10)] on a string that starts with a decimal digit: the
    value of its leading digits.  It is applied to the captures only,
    which are strings of digits; the [NaN] of a string that starts
    otherwise is not represented. *)
Fixpoint digitsValue (acc : nat) (s : string) : nat :=
  match s with
  | String c rest =>
      if isDigit c then digitsValue (10 * acc + (nat_of_ascii c - 48)) rest
      else acc
  | EmptyString => acc
  end.

Definition parseInt10 (s : string) : nat := digitsValue 0 s.

Definition parseTimeToMinutes (timeStr : string) : Outcome nat :=
  match execTime timeStr with
  | None => Thrown ("Invalid time format: " ++ timeStr)%string
  | Some (hour, minute) =>
      Returned (parseInt10 hour * 60 + parseInt10 minute)%nat
  end.

(** [calculateMinuteDifference(clockTime, grandClockTime)]: the lines
    written with [console.error], and the value returned ([None] for
    [null]). *)
Definition calculateMinuteDifference (clockTime grandClockTime : string)
  : list string * option Z :=
  match parseTimeToMinutes clockTime with
  | Thrown message => ([message], None)
  | Returned clockMinutes =>
      match parseTimeToMinutes grandClockTime with
      | Thrown message => ([message], None)
      | Returned grandMinutes =>
          ([], Some (Z.of_nat clockMinutes - Z.of_nat grandMinutes)%Z)
      end
  end.

End Tempora.

(** ** Vocabulary of the specification *)

(** The identifying fields of a result, as a body. *)
Definition bodyOfResult (r : Lumoria.Result) : Planet :=
  mkPlanet (Lumoria.res_name r) (Lumoria.res_distance r) (Lumoria.res_size r).

Definition bodyOfScientific (r : ScientificShadow.Result) : Planet :=
  mkPlanet (ScientificShadow.res_name r) (ScientificShadow.res_distance r)
           (ScientificShadow.res_size r).

Definition bodyOfReport (r : ShadowReport.Result) : Planet :=
  mkPlanet (ShadowReport.res_name r) (ShadowReport.res_distance r)
           (ShadowReport.res_size r).

(** [largerCloser]: the bodies at sorted positions [0..i-1] whose size is
    strictly greater than the size of [body]. *)
Definition largerCloser (sorted : list Planet) (i : nat) (body : Planet)
  : list Planet :=
  filter (fun c => Js.gt (size c) (size body)) (firstn i sorted).

(** The classification rule of the specification, for the body at sorted
    position [i] with [n] larger closer bodies. *)
Definition followsRule (i n : nat) (label : string) : Prop :=
  (i = 0%nat -> label = "Full") /\
  (i <> 0%nat -> n = 1%nat -> label = "None") /\
  (i <> 0%nat -> (n > 1)%nat -> label = "None (Multiple Shadows)") /\
  (i <> 0%nat -> n = 0%nat -> label = "Partial").

(** The casters whose shadow the scientific variant adds up for the body
    at sorted position [i]: the larger bodies in front of it that are
    strictly closer to the star. *)
Definition shadowCasters (sorted : list Planet) (i : nat) (receiver : Planet)
  : list Planet :=
  filter (fun c => Js.lt (distance c) (distance receiver))
         (largerCloser sorted i receiver).

Definition sumQ (l : list Q) : Q := fold_right Qplus 0 l.

(** The light fraction in the words of the specification: every closer
    body (the bodies at sorted positions [0..i-1]) is a shadow caster and
    contributes by its tier, 1.0 above 110% of the receiver's size, 0.6
    within 10% of it either way, 0.3 when smaller still; the total is
    clamped to 1 and subtracted from 1. *)
Definition claimedContribution (casterSize receiverSize : Q) : Q :=
  if Js.gt casterSize (receiverSize * 1.1) then 1
  else if Js.ge casterSize (receiverSize * 0.9) then 0.6
  else 0.3.

Definition claimedLightFraction (sorted : list Planet) (i : nat)
    (receiver : Planet) : Q :=
  1 - Qmin (sumQ (List.map
                    (fun c => claimedContribution (size c) (size receiver))
                    (firstn i sorted)))
           1.

(** A value on which [?.trim()] does not throw. *)
Definition trimmable (v : JsValue) : Prop :=
  match v with
  | JsUndefined | JsNull | JsString _ => True
  | JsBoolean _ | JsNumber _ | JsNaN | JsInfinity _ => False
  end.

(** The entry that the analysis of [receiver] records for a caster. *)
Definition detailOf (receiver shadowCaster : Planet)
  : ScientificShadow.ShadowDetail :=
  let shadowInfo :=
    ScientificShadow.calculateShadowInteraction shadowCaster receiver in
  {| ScientificShadow.caster := name shadowCaster;
     ScientificShadow.detail_type := ScientificShadow.type shadowInfo;
     ScientificShadow.detail_intensity :=
       ScientificShadow.intensity shadowInfo |}.

(** The sanitized planet that the loop of [validateStarSystem] keeps for
    a raw planet, if it keeps one, and the planets kept for an array. *)
Definition keptPlanet (stringGreaterThan : string -> Q -> bool)
    (trim : string -> string) (p : CustomStarSystem.RawPlanet)
  : option CustomStarSystem.Sanitized :=
  match CustomStarSystem.validatePlanet stringGreaterThan trim p with
  | Some v =>
      if CustomStarSystem.isValid v then CustomStarSystem.planet v else None
  | None => None
  end.

Definition keptPlanets (stringGreaterThan : string -> Q -> bool)
    (trim : string -> string) (planets : list CustomStarSystem.RawPlanet)
  : list CustomStarSystem.Sanitized :=
  flat_map (fun p => match keptPlanet stringGreaterThan trim p with
                     | Some P => [P]
                     | None => []
                     end)
           planets.

(** What [validatePlanet] asks of a name and of a number: a string that
    is not empty and is not emptied by [trim]; a number that is [NaN] or
    lies in (0, bound]. *)
Definition acceptableName (trim : string -> string) (v : JsValue) : Prop :=
  exists n, v = JsString n /\ n <> ""%string /\ trim n <> ""%string.

Definition acceptableNumber (bound : Q) (v : JsValue) : Prop :=
  v = JsNaN \/ exists n, v = JsNumber n /\ 0 < n /\ n <= bound.

Definition acceptablePlanet (trim : string -> string)
    (p : CustomStarSystem.RawPlanet) : Prop :=
  acceptableName trim (CustomStarSystem.rawName p) /\
  acceptableNumber 50 (CustomStarSystem.rawDistance p) /\
  acceptableNumber 150000 (CustomStarSystem.rawSize p).

(** The same of a number of a sanitized planet. *)
Definition withinBound (bound : Q) (d : CustomStarSystem.Parsed) : Prop :=
  match d with
  | CustomStarSystem.Finite n => 0 < n /\ n <= bound
  | CustomStarSystem.NotANumber => True
  end.

(** A body as a sanitized planet. *)
Definition sanitizedOf (body : Planet) : CustomStarSystem.Sanitized :=
  CustomStarSystem.mkSanitized (name body)
    (CustomStarSystem.Finite (distance body))
    (CustomStarSystem.Finite (size body)).

(** Two orbits that the distance check tells apart: neither difference,
    as the code computes it, is below 0.01 in absolute value. *)
Definition apart (minus : Q -> Q -> Q) (p q : Planet) : Prop :=
  0.01 <= Qabs (minus (distance p) (distance q)) /\
  0.01 <= Qabs (minus (distance q) (distance p)).

(** The name under which [validateStarSystem] compares two planets. *)
Definition lowerName (toLowerCase : string -> string)
    (p : CustomStarSystem.Sanitized) : string :=
  toLowerCase (CustomStarSystem.s_name p).

(** The decimal digit of a number below ten, and the texts [HH:MM] and
    [H:MM] of an hour and a minute. *)
Definition digitChar (d : nat) : ascii := ascii_of_nat (48 + d).

Definition twoDigits (n : nat) : string :=
  String (digitChar (n / 10)) (String (digitChar (n mod 10)) EmptyString).

Definition clockText (h m : nat) : string :=
  (twoDigits h ++ ":" ++ twoDigits m)%string.

Definition shortClockText (h m : nat) : string :=
  String (digitChar h) (":" ++ twoDigits m)%string.

(** What [parseTimeToMinutes] is expected to do with the text of [h] and
    [m]: their minutes since midnight when they are an hour and a minute
    of the day, the [Error] otherwise. *)
Definition readsAs (text : string) (h m : nat)
    (outcome : Tempora.Outcome nat) : bool :=
  match outcome with
  | Tempora.Returned v =>
      ((h <? 24) && (m <? 60) && (v =? 60 * h + m))%nat
  | Tempora.Thrown message =>
      negb ((h <? 24) && (m <? 60))%nat
      && String.eqb message ("Invalid time format: " ++ text)%string
  end.

(** The count that a summary object holds for a label, 0 when it has no
    entry for it. *)
Fixpoint countOf (acc : list (string * nat)) (light : string) : nat :=
  match acc with
  | [] => 0%nat
  | (lightType, n) :: rest =>
      if String.eqb lightType light then n else countOf rest light
  end.

(** The results that carry a given label. *)
Definition labelled (light : string) (results : list Lumoria.Result)
  : list Lumoria.Result :=
  filter (fun r => String.eqb (Lumoria.res_light r) light) results.

(** * Properties *)

(** ** Comparisons *)

Lemma gt_true (a b : Q) : Js.gt a b = true <-> b < a.
Proof.
  unfold Js.gt. rewrite negb_true_iff, <- not_true_iff_false, Qle_bool_iff.
  split; [apply Qnot_le_lt | apply Qlt_not_le].
Qed.

Lemma gt_false (a b : Q) : Js.gt a b = false <-> a <= b.
Proof.
  unfold Js.gt. rewrite negb_false_iff. apply Qle_bool_iff.
Qed.

Lemma lt_true (a b : Q) : Js.lt a b = true <-> a < b.
Proof. apply gt_true. Qed.

Lemma le_true (a b : Q) : Js.le a b = true <-> a <= b.
Proof. apply Qle_bool_iff. Qed.

Lemma le_false (a b : Q) : Js.le a b = false <-> b < a.
Proof.
  unfold Js.le. rewrite <- not_true_iff_false, Qle_bool_iff.
  split; [apply Qnot_le_lt | apply Qlt_not_le].
Qed.

Lemma ge_true (a b : Q) : Js.ge a b = true <-> b <= a.
Proof. apply Qle_bool_iff. Qed.

(** ** [Array.prototype.map] with a callback that may throw *)

Section MapFrom.

Context {A B : Type}.
Variable f : A -> nat -> option B.

Lemma mapFrom_length (arr : list A) :
  forall i out, Js.mapFrom f i arr = Some out ->
                List.length out = List.length arr.
Proof.
  induction arr as [|x rest IH]; simpl; intros i out H.
  - now inversion H.
  - destruct (f x i) as [y|]; simpl in H; [|discriminate].
    destruct (Js.mapFrom f (S i) rest) as [ys|] eqn:E; simpl in H;
      [|discriminate].
    inversion H; subst; simpl. f_equal. eauto.
Qed.

Lemma mapFrom_nth (arr : list A) :
  forall i out k x,
    Js.mapFrom f i arr = Some out ->
    nth_error arr k = Some x ->
    exists y, f x (i + k)%nat = Some y /\ nth_error out k = Some y.
Proof.
  induction arr as [|a rest IH]; simpl; intros i out k x H Hk.
  - destruct k; discriminate.
  - destruct (f a i) as [y|] eqn:Ef; simpl in H; [|discriminate].
    destruct (Js.mapFrom f (S i) rest) as [ys|] eqn:E; simpl in H;
      [|discriminate].
    inversion H; subst; clear H.
    destruct k as [|k]; simpl in *.
    + inversion Hk; subst. exists y. now rewrite Nat.add_0_r.
    + destruct (IH _ _ _ _ E Hk) as (z & Hz & Hn).
      exists z. now rewrite Nat.add_succ_r.
Qed.

Lemma mapFrom_returns (arr : list A) :
  forall i,
    (forall k x, nth_error arr k = Some x ->
                 exists y, f x (i + k)%nat = Some y) ->
    exists out, Js.mapFrom f i arr = Some out.
Proof.
  induction arr as [|a rest IH]; simpl; intros i H.
  - now exists [].
  - destruct (H 0%nat a eq_refl) as (y & Hy).
    rewrite Nat.add_0_r in Hy. rewrite Hy; simpl.
    destruct (IH (S i)) as (ys & Hys).
    + intros k x Hk. destruct (H (S k) x Hk) as (z & Hz).
      exists z. now rewrite Nat.add_succ_r in Hz.
    + rewrite Hys; simpl. now eexists.
Qed.

(** The results of a [map] that returned, read off element by element. *)
Lemma mapFrom_pointwise {C : Type} (g : B -> C) (h : A -> C)
    (arr : list A) :
  forall i out,
    Js.mapFrom f i arr = Some out ->
    (forall k x y, nth_error arr k = Some x ->
                   f x (i + k)%nat = Some y -> g y = h x) ->
    List.map g out = List.map h arr.
Proof.
  induction arr as [|a rest IH]; simpl; intros i out H Hp.
  - now inversion H.
  - destruct (f a i) as [y|] eqn:Ef; simpl in H; [|discriminate].
    destruct (Js.mapFrom f (S i) rest) as [ys|] eqn:E; simpl in H;
      [|discriminate].
    inversion H; subst; clear H; simpl. f_equal.
    + apply (Hp 0%nat a y eq_refl). now rewrite Nat.add_0_r.
    + apply (IH (S i)); [assumption|].
      intros k x z Hk Hz. apply (Hp (S k) x z Hk).
      now rewrite Nat.add_succ_r.
Qed.

End MapFrom.

(** ** The sort by distance *)

Lemma insertByDistance_perm (a : Planet) (l : list Planet) :
  Permutation (insertByDistance a l) (a :: l).
Proof.
  induction l as [|b rest IH]; simpl.
  - apply Permutation_refl.
  - destruct (Js.le (distance a) (distance b)).
    + apply Permutation_refl.
    + eapply perm_trans; [apply perm_skip, IH | apply perm_swap].
Qed.

Lemma sortByDistance_perm (planets : list Planet) :
  Permutation (sortByDistance planets) planets.
Proof.
  induction planets as [|a rest IH]; simpl.
  - apply perm_nil.
  - eapply perm_trans; [apply insertByDistance_perm | now apply perm_skip].
Qed.

Lemma sortByDistance_length (planets : list Planet) :
  List.length (sortByDistance planets) = List.length planets.
Proof. apply Permutation_length, sortByDistance_perm. Qed.

Lemma insertByDistance_sorted (a : Planet) (l : list Planet) :
  StronglySorted closerOrTied l ->
  StronglySorted closerOrTied (insertByDistance a l).
Proof.
  induction 1 as [|b rest Hs IH Hb]; simpl.
  - repeat constructor.
  - destruct (Js.le (distance a) (distance b)) eqn:E.
    + apply le_true in E. constructor; [now constructor|].
      constructor; [exact E|].
      eapply Forall_impl; [|exact Hb].
      intros c Hc. unfold closerOrTied in *. eapply Qle_trans; eauto.
    + apply le_false in E. constructor; [exact IH|].
      eapply Permutation_Forall;
        [apply Permutation_sym, insertByDistance_perm|].
      constructor; [|exact Hb].
      unfold closerOrTied. now apply Qlt_le_weak.
Qed.

Lemma sortByDistance_sorted (planets : list Planet) :
  StronglySorted closerOrTied (sortByDistance planets).
Proof.
  induction planets as [|a rest IH]; simpl.
  - constructor.
  - now apply insertByDistance_sorted.
Qed.

(** Stability: the bodies that share a distance keep their input order. *)
Lemma insertByDistance_stable (k : Q) (a : Planet) (l : list Planet) :
  StronglySorted closerOrTied l ->
  filter (fun p => Qeq_bool (distance p) k) (insertByDistance a l)
  = filter (fun p => Qeq_bool (distance p) k) (a :: l).
Proof.
  induction 1 as [|b rest Hs IH Hb]; [reflexivity|].
  simpl insertByDistance.
  destruct (Js.le (distance a) (distance b)) eqn:E; [reflexivity|].
  apply le_false in E.
  change (filter ?g (b :: ?t)) with
    (if g b then b :: filter g t else filter g t).
  rewrite IH. simpl.
  destruct (Qeq_bool (distance b) k) eqn:Eb; [|reflexivity].
  destruct (Qeq_bool (distance a) k) eqn:Ea; [|reflexivity].
  apply Qeq_bool_iff in Ea, Eb. rewrite Ea, Eb in E.
  now apply Qlt_irrefl in E.
Qed.

Lemma sortByDistance_stable (k : Q) (planets : list Planet) :
  filter (fun p => Qeq_bool (distance p) k) (sortByDistance planets)
  = filter (fun p => Qeq_bool (distance p) k) planets.
Proof.
  induction planets as [|a rest IH]; [reflexivity|].
  simpl sortByDistance.
  rewrite insertByDistance_stable by apply sortByDistance_sorted.
  simpl. now rewrite IH.
Qed.

(** A stable sort has one possible result: two sorted sequences that
    list the bodies of each distance in the same order are equal.  Hence
    [sortByDistance] is the result of any stable sort by ascending
    distance. *)
Lemma stable_arrangement_unique (l1 : list Planet) :
  forall l2,
    StronglySorted closerOrTied l1 ->
    StronglySorted closerOrTied l2 ->
    (forall k, filter (fun p => Qeq_bool (distance p) k) l1
               = filter (fun p => Qeq_bool (distance p) k) l2) ->
    l1 = l2.
Proof.
  induction l1 as [|a t1 IH]; intros l2 Hs1 Hs2 Hsame.
  - destruct l2 as [|b t2]; [reflexivity|].
    specialize (Hsame (distance b)). simpl in Hsame.
    rewrite (proj2 (Qeq_bool_iff _ _) (Qeq_refl _)) in Hsame. discriminate.
  - destruct l2 as [|b t2].
    { specialize (Hsame (distance a)). simpl in Hsame.
      rewrite (proj2 (Qeq_bool_iff _ _) (Qeq_refl _)) in Hsame.
      discriminate. }
    inversion Hs1 as [|? ? Hs1' Ha]; subst.
    inversion Hs2 as [|? ? Hs2' Hb]; subst.
    rewrite Forall_forall in Ha, Hb.
    assert (Htie : Qeq_bool (distance b) (distance a) = true).
    { destruct (Qeq_bool (distance b) (distance a)) eqn:E; [reflexivity|].
      exfalso.
      assert (Hba : distance b <= distance a).
      { apply Hb. pose proof (Hsame (distance a)) as H. simpl in H.
        rewrite E, (proj2 (Qeq_bool_iff _ _) (Qeq_refl _)) in H.
        assert (Hin : In a (filter (fun p => Qeq_bool (distance p)
                                                      (distance a)) t2))
          by (rewrite <- H; now left).
        now apply filter_In in Hin. }
      assert (Hab : distance a <= distance b).
      { apply Ha. pose proof (Hsame (distance b)) as H. simpl in H.
        rewrite (proj2 (Qeq_bool_iff _ _) (Qeq_refl _)) in H.
        destruct (Qeq_bool (distance a) (distance b)) eqn:E'.
        - apply Qeq_bool_iff, Qeq_sym, Qeq_bool_iff in E'. congruence.
        - assert (Hin : In b (filter (fun p => Qeq_bool (distance p)
                                                        (distance b)) t1))
            by (rewrite H; now left).
          now apply filter_In in Hin. }
      apply not_true_iff_false in E. apply E, Qeq_bool_iff.
      now apply Qle_antisym. }
    assert (a = b).
    { pose proof (Hsame (distance a)) as H. simpl in H.
      rewrite Htie, (proj2 (Qeq_bool_iff _ _) (Qeq_refl _)) in H.
      now inversion H. }
    subst b. f_equal. apply IH; [assumption | assumption |].
    intros k. specialize (Hsame k). simpl in Hsame.
    destruct (Qeq_bool (distance a) k); [now inversion Hsame | exact Hsame].
Qed.

Lemma sortByDistance_unique (planets sorted : list Planet) :
  StronglySorted closerOrTied sorted ->
  (forall k, filter (fun p => Qeq_bool (distance p) k) sorted
             = filter (fun p => Qeq_bool (distance p) k) planets) ->
  sorted = sortByDistance planets.
Proof.
  intros Hs Hsame. apply stable_arrangement_unique.
  - exact Hs.
  - apply sortByDistance_sorted.
  - intros k. rewrite Hsame. symmetry. apply sortByDistance_stable.
Qed.

(** ** The classifier, position by position *)

Lemma getShadowCount_at (planets : list Planet) (i : nat) (current : Planet) :
  nth_error planets i = Some current ->
  Lumoria.getShadowCount planets i
  = Some (List.length (largerCloser planets i current)).
Proof.
  intros H. unfold Lumoria.getShadowCount, largerCloser.
  destruct i as [|i]; [reflexivity|].
  cbn [Nat.eqb]. rewrite H.
  destruct (firstn (S i) planets) eqn:E; [|reflexivity].
  destruct planets; [discriminate H | discriminate E].
Qed.

Lemma getLightIntensity_followsRule (i n : nat) (planets : list Planet)
    (j : nat) :
  followsRule i n (Lumoria.getLightIntensity i n planets j).
Proof.
  unfold followsRule, Lumoria.getLightIntensity.
  destruct i as [|i]; cbn [Nat.eqb].
  - repeat split; intros; congruence.
  - destruct (Nat.eqb_spec n 1); [repeat split; intros; (congruence || lia)|].
    destruct (Nat.ltb_spec 1 n); repeat split; intros; (congruence || lia).
Qed.

Lemma getScientificLightIntensity_followsRule
    (a : ScientificShadow.ShadowAnalysis) (i : nat) :
  followsRule i (ScientificShadow.shadowCount a)
              (ScientificShadow.getScientificLightIntensity a i).
Proof.
  unfold followsRule, ScientificShadow.getScientificLightIntensity.
  destruct i as [|i]; cbn [Nat.eqb].
  - repeat split; intros; congruence.
  - destruct (Nat.eqb_spec (ScientificShadow.shadowCount a) 1);
      [repeat split; intros; (congruence || lia)|].
    destruct (Nat.ltb_spec 1 (ScientificShadow.shadowCount a));
      repeat split; intros; (congruence || lia).
Qed.

(** The primary classifier never throws, and its result at position [i]
    describes the body at position [i] of the sorted sequence. *)
Lemma calculateLightIntensity_at (planets : list Planet) :
  exists results,
    Lumoria.calculateLightIntensity planets = Some results /\
    List.map bodyOfResult results = sortByDistance planets /\
    forall i body,
      nth_error (sortByDistance planets) i = Some body ->
      exists r,
        nth_error results i = Some r /\
        bodyOfResult r = body /\
        Lumoria.res_shadowCount r
        = List.length (largerCloser (sortByDistance planets) i body) /\
        Lumoria.res_light r
        = Lumoria.getLightIntensity i (Lumoria.res_shadowCount r)
            (sortByDistance planets) i.
Proof.
  unfold Lumoria.calculateLightIntensity, Js.map.
  set (sorted := sortByDistance planets).
  match goal with |- context [Js.mapFrom ?g 0 sorted] => set (f := g) end.
  assert (Hf : forall k x, nth_error sorted k = Some x ->
             exists y, f x (0 + k)%nat = Some y).
  { intros k x Hk. unfold f. simpl.
    rewrite (getShadowCount_at _ _ Hk). simpl. now eexists. }
  destruct (mapFrom_returns f sorted 0 Hf) as (results & Hres).
  exists results. split; [exact Hres|]. split.
  - transitivity (List.map (fun x => x) sorted); [|apply map_id].
    apply (mapFrom_pointwise f bodyOfResult (fun x => x) sorted 0 Hres).
    intros k x y Hk Hy. unfold f in Hy. simpl in Hy.
    rewrite (getShadowCount_at _ _ Hk) in Hy. simpl in Hy.
    inversion Hy; subst. now destruct x.
  - intros i body Hi.
    destruct (mapFrom_nth f sorted 0 i Hres Hi) as (r & Hr & Hn).
    exists r. split; [exact Hn|].
    unfold f in Hr. simpl in Hr.
    rewrite (getShadowCount_at _ _ Hi) in Hr. simpl in Hr.
    inversion Hr; subst; clear Hr. simpl.
    repeat split. now destruct body.
Qed.

(** [getScientificShadowAnalysis] returns on every index within the
    array, with the larger closer bodies as its [shadowCount]. *)
Lemma getScientificShadowAnalysis_at (planets : list Planet) (i : nat)
    (current : Planet) :
  nth_error planets i = Some current ->
  exists a,
    ScientificShadow.getScientificShadowAnalysis planets i = Some a /\
    ScientificShadow.shadowCount a
    = List.length (largerCloser planets i current).
Proof.
  intros H. unfold ScientificShadow.getScientificShadowAnalysis.
  destruct i as [|i]; cbn [Nat.eqb].
  - eexists; split; reflexivity.
  - rewrite H. eexists; split; reflexivity.
Qed.

Lemma calculateScientificLightIntensity_at (planets : list Planet) :
  exists results,
    ScientificShadow.calculateScientificLightIntensity planets
    = Some results /\
    List.map bodyOfScientific results = sortByDistance planets /\
    forall i body,
      nth_error (sortByDistance planets) i = Some body ->
      exists r a,
        nth_error results i = Some r /\
        bodyOfScientific r = body /\
        ScientificShadow.getScientificShadowAnalysis
          (sortByDistance planets) i = Some a /\
        ScientificShadow.res_shadowCount r
        = List.length (largerCloser (sortByDistance planets) i body) /\
        ScientificShadow.res_shadowCount r = ScientificShadow.shadowCount a /\
        ScientificShadow.res_scientificLightIntensity r
        = ScientificShadow.lightIntensity a /\
        ScientificShadow.res_shadowDetails r
        = ScientificShadow.shadowDetails a /\
        ScientificShadow.res_light r
        = ScientificShadow.getScientificLightIntensity a i.
Proof.
  unfold ScientificShadow.calculateScientificLightIntensity, Js.map.
  set (sorted := sortByDistance planets).
  match goal with |- context [Js.mapFrom ?g 0 sorted] => set (f := g) end.
  assert (Hf : forall k x, nth_error sorted k = Some x ->
             exists y, f x (0 + k)%nat = Some y).
  { intros k x Hk. unfold f. simpl.
    destruct (getScientificShadowAnalysis_at _ _ Hk) as (a & Ha & _).
    rewrite Ha. simpl. now eexists. }
  destruct (mapFrom_returns f sorted 0 Hf) as (results & Hres).
  exists results. split; [exact Hres|]. split.
  - transitivity (List.map (fun x => x) sorted); [|apply map_id].
    apply (mapFrom_pointwise f bodyOfScientific (fun x => x) sorted 0 Hres).
    intros k x y Hk Hy. unfold f in Hy. simpl in Hy.
    destruct (getScientificShadowAnalysis_at _ _ Hk) as (a & Ha & _).
    rewrite Ha in Hy. simpl in Hy.
    inversion Hy; subst. now destruct x.
  - intros i body Hi.
    destruct (mapFrom_nth f sorted 0 i Hres Hi) as (r & Hr & Hn).
    destruct (getScientificShadowAnalysis_at _ _ Hi) as (a & Ha & Hc).
    exists r, a. split; [exact Hn|].
    unfold f in Hr. simpl in Hr. rewrite Ha in Hr. simpl in Hr.
    inversion Hr; subst; clear Hr. simpl.
    repeat split; try assumption. now destruct body.
Qed.

Lemma StronglySorted_map {A B : Type} (R : B -> B -> Prop) (g : A -> B)
    (l : list A) :
  StronglySorted R (List.map g l) ->
  StronglySorted (fun a b => R (g a) (g b)) l.
Proof.
  induction l as [|x rest IH]; simpl; intros H.
  - constructor.
  - inversion H as [|? ? Hs Hx]; subst. constructor; [now apply IH|].
    rewrite Forall_forall in *. intros y Hy. apply Hx. now apply in_map.
Qed.

(** In a sorted sequence a later position is never strictly closer. *)
Lemma sorted_positions (l : list Planet) :
  StronglySorted closerOrTied l ->
  forall i j a b, (i < j)%nat ->
    nth_error l i = Some a -> nth_error l j = Some b ->
    distance a <= distance b.
Proof.
  induction 1 as [|x rest Hs IH Hx]; intros i j a b Hij Ha Hb.
  - destruct i; discriminate.
  - destruct j as [|j]; [lia|]. simpl in Hb.
    destruct i as [|i]; simpl in Ha.
    + inversion Ha; subst. rewrite Forall_forall in Hx.
      apply Hx. eapply nth_error_In; eauto.
    + apply (IH i j); (assumption || lia).
Qed.

(** ** The claims on classification *)

Unset Implicit Arguments.

(** C1. Both classifiers return on every collection of bodies, and their
    results are the bodies of the input in ascending order of distance.
    The body at position [i] of that order is labelled, by the primary
    classifier and by the scientific variant alike, Full if [i = 0];
    otherwise None if exactly one body in front of it is strictly larger,
    None (Multiple Shadows) if more than one is, and Partial if none is.
    (The positivity of distances and sizes is not needed.) *)
Theorem classification_follows_rule (planets : list Planet) :
  exists results scientific,
    Lumoria.calculateLightIntensity planets = Some results /\
    ScientificShadow.calculateScientificLightIntensity planets
    = Some scientific /\
    let sorted := List.map bodyOfResult results in
    Permutation sorted planets /\
    StronglySorted closerOrTied sorted /\
    List.map bodyOfScientific scientific = sorted /\
    forall i body,
      nth_error sorted i = Some body ->
      exists r s,
        nth_error results i = Some r /\
        nth_error scientific i = Some s /\
        bodyOfResult r = body /\
        bodyOfScientific s = body /\
        followsRule i (List.length (largerCloser sorted i body))
                    (Lumoria.res_light r) /\
        followsRule i (List.length (largerCloser sorted i body))
                    (ScientificShadow.res_light s).
Proof.
  destruct (calculateLightIntensity_at planets) as (results & Hr & Hm & Hat).
  destruct (calculateScientificLightIntensity_at planets)
    as (scientific & Hs & Hsm & Hsat).
  exists results, scientific.
  split; [exact Hr|]. split; [exact Hs|]. cbv zeta. rewrite Hm.
  split; [apply sortByDistance_perm|].
  split; [apply sortByDistance_sorted|].
  split; [exact Hsm|].
  intros i body Hi.
  destruct (Hat i body Hi) as (r & Hnr & Hbr & Hcr & Hlr).
  destruct (Hsat i body Hi)
    as (s & a & Hns & Hbs & _ & Hcs & Hca & _ & _ & Hls).
  exists r, s.
  repeat (split; [assumption|]). split.
  - rewrite Hlr, <- Hcr. apply getLightIntensity_followsRule.
  - rewrite Hls, <- Hcs, Hca. apply getScientificLightIntensity_followsRule.
Qed.

(** C2. On the canonical four-body system the classification is
    Mercuria Full, Venusia Partial, Earthia Partial and Marsia
    None (Multiple Shadows), in the order of the specification and in the
    order of [defaultLumoriaPlanets], for both classifiers. *)
Theorem canonical_system_labels :
  let canonical :=
    [ mkPlanet "Mercuria" 0.4 4879; mkPlanet "Venusia" 0.7 12104;
      mkPlanet "Earthia" 1.0 12742; mkPlanet "Marsia" 1.5 6779 ] in
  let expected :=
    Some [ ("Mercuria", "Full"); ("Venusia", "Partial");
           ("Earthia", "Partial"); ("Marsia", "None (Multiple Shadows)") ] in
  let labels :=
    option_map
      (List.map (fun r => (Lumoria.res_name r, Lumoria.res_light r))) in
  let scientificLabels :=
    option_map
      (List.map (fun r => (ScientificShadow.res_name r,
                           ScientificShadow.res_light r))) in
  labels (Lumoria.calculateLightIntensity canonical) = expected /\
  labels (Lumoria.calculateLightIntensity Lumoria.defaultLumoriaPlanets)
  = expected /\
  scientificLabels
    (ScientificShadow.calculateScientificLightIntensity canonical)
  = expected /\
  scientificLabels
    (ScientificShadow.calculateScientificLightIntensity
       Lumoria.defaultLumoriaPlanets) = expected.
Proof. vm_compute. repeat split. Qed.

(** C3. For every input list, in any order, both classifiers return
    without an exception one result per input body: the bodies of the
    results are a permutation of the input, as many as the input, in
    ascending order of distance; and the empty input gives the empty
    output. *)
Theorem one_result_per_body_sorted (planets : list Planet) :
  (exists results,
      Lumoria.calculateLightIntensity planets = Some results /\
      List.length results = List.length planets /\
      Permutation (List.map bodyOfResult results) planets /\
      StronglySorted
        (fun a b => Lumoria.res_distance a <= Lumoria.res_distance b)
        results) /\
  (exists results,
      ScientificShadow.calculateScientificLightIntensity planets
      = Some results /\
      List.length results = List.length planets /\
      Permutation (List.map bodyOfScientific results) planets /\
      StronglySorted
        (fun a b => ScientificShadow.res_distance a
                    <= ScientificShadow.res_distance b)
        results) /\
  Lumoria.calculateLightIntensity [] = Some [] /\
  ScientificShadow.calculateScientificLightIntensity [] = Some [].
Proof.
  split; [|split; [|split; reflexivity]].
  - destruct (calculateLightIntensity_at planets) as (results & Hr & Hm & _).
    exists results. split; [exact Hr|]. split; [|split].
    + rewrite <- (length_map bodyOfResult), Hm. apply sortByDistance_length.
    + rewrite Hm. apply sortByDistance_perm.
    + apply (@StronglySorted_map _ _ closerOrTied bodyOfResult).
      rewrite Hm. apply sortByDistance_sorted.
  - destruct (calculateScientificLightIntensity_at planets)
      as (results & Hr & Hm & _).
    exists results. split; [exact Hr|]. split; [|split].
    + rewrite <- (length_map bodyOfScientific), Hm.
      apply sortByDistance_length.
    + rewrite Hm. apply sortByDistance_perm.
    + apply (@StronglySorted_map _ _ closerOrTied bodyOfScientific).
      rewrite Hm. apply sortByDistance_sorted.
Qed.

(** C4, as stated, fails when the minimal distance is shared.  The two
    bodies of the identical-distance case of the test suite, Twin1 (1.0,
    8000) and Twin2 (1.0, 12000), are both at the minimal distance; Twin2
    is at sorted position 1 and is labelled Partial. *)
Lemma minimal_distance_tie_not_Full :
  ~ (forall (planets : list Planet) (results : list Lumoria.Result)
            (r : Lumoria.Result),
        planets <> [] ->
        (forall p, In p planets -> 0 < distance p /\ 0 < size p) ->
        Lumoria.calculateLightIntensity planets = Some results ->
        In r results ->
        (forall p, In p planets -> Lumoria.res_distance r <= distance p) ->
        Lumoria.res_light r = "Full").
Proof.
  intros H.
  pose (twins := [ mkPlanet "Twin1" 1.0 8000; mkPlanet "Twin2" 1.0 12000 ]).
  pose (r1 := Lumoria.mkResult "Twin1" "Full" 1.0 8000 0 0 0).
  pose (r2 := Lumoria.mkResult "Twin2" "Partial" 1.0 12000 0 0 1).
  assert (Hl : Lumoria.res_light r2 = "Full").
  { apply (H twins [r1; r2] r2).
    - discriminate.
    - intros p [<-|[<-|[]]]; split; reflexivity.
    - vm_compute. reflexivity.
    - right. now left.
    - intros p [<-|[<-|[]]]; simpl; apply Qle_refl. }
  discriminate Hl.
Qed.

(** The count-all-closer variant labels the first body of its sorted
    input [ShadowType.NONE], the string "None". *)
Lemma calculateLightIntensities_first (first : CountAllCloser.Body)
    (rest : list CountAllCloser.Body) :
  option_map CountAllCloser.shadow
    (hd_error (CountAllCloser.calculateLightIntensities (first :: rest)))
  = Some "None".
Proof. reflexivity. Qed.

(** Behind the first position the classifiers never say Full. *)
Lemma getLightIntensity_behind (i n : nat) (planets : list Planet)
    (j : nat) :
  i <> 0%nat ->
  let label := Lumoria.getLightIntensity i n planets j in
  label = "Partial" \/ label = "None" \/
  label = "None (Multiple Shadows)".
Proof.
  intros Hi. unfold Lumoria.getLightIntensity.
  destruct i as [|i]; [contradiction|]. cbn [Nat.eqb].
  destruct (n =? 1)%nat; [right; left; reflexivity|].
  destruct (1 <? n)%nat; [right; right; reflexivity | left; reflexivity].
Qed.

Lemma getScientificLightIntensity_behind
    (a : ScientificShadow.ShadowAnalysis) (i : nat) :
  i <> 0%nat ->
  let label := ScientificShadow.getScientificLightIntensity a i in
  label = "Partial" \/ label = "None" \/
  label = "None (Multiple Shadows)".
Proof.
  intros Hi. unfold ScientificShadow.getScientificLightIntensity.
  destruct i as [|i]; [contradiction|]. cbn [Nat.eqb].
  destruct (ScientificShadow.shadowCount a =? 1)%nat;
    [right; left; reflexivity|].
  destruct (1 <? ScientificShadow.shadowCount a)%nat;
    [right; right; reflexivity | left; reflexivity].
Qed.

(** C4, amended.  For every non-empty input [calculateLightIntensity]
    and [calculateScientificLightIntensity] return a first result, the
    same body for both; it is one of the input bodies, no input body is
    closer than it, and both label it Full.  Every result behind it is
    labelled Partial, None or None (Multiple Shadows), never Full: so is a
    body that shares the minimal distance with the body sorted in front of
    it.  Consequently a result is Full exactly when it is the first, and a
    body strictly closer than the body of every other result is Full.
    [calculateLightIntensities], the count-all-closer variant, labels the
    first body of its argument None. *)
Theorem first_sorted_body_is_Full (planets : list Planet) :
  planets <> [] ->
  (exists first rest sfirst srest,
      Lumoria.calculateLightIntensity planets = Some (first :: rest) /\
      ScientificShadow.calculateScientificLightIntensity planets
      = Some (sfirst :: srest) /\
      bodyOfScientific sfirst = bodyOfResult first /\
      In (bodyOfResult first) planets /\
      (forall p, In p planets -> Lumoria.res_distance first <= distance p) /\
      Lumoria.res_light first = "Full" /\
      ScientificShadow.res_light sfirst = "Full" /\
      (forall r, In r rest ->
                 Lumoria.res_light r = "Partial" \/
                 Lumoria.res_light r = "None" \/
                 Lumoria.res_light r = "None (Multiple Shadows)") /\
      (forall s, In s srest ->
                 ScientificShadow.res_light s = "Partial" \/
                 ScientificShadow.res_light s = "None" \/
                 ScientificShadow.res_light s = "None (Multiple Shadows)") /\
      (forall i r,
          nth_error (first :: rest) i = Some r ->
          (forall j r', j <> i -> nth_error (first :: rest) j = Some r' ->
                        Lumoria.res_distance r < Lumoria.res_distance r') ->
          Lumoria.res_light r = "Full") /\
      (forall i s,
          nth_error (sfirst :: srest) i = Some s ->
          (forall j s', j <> i -> nth_error (sfirst :: srest) j = Some s' ->
                        ScientificShadow.res_distance s
                        < ScientificShadow.res_distance s') ->
          ScientificShadow.res_light s = "Full")) /\
  (forall (b : CountAllCloser.Body) (bodies : list CountAllCloser.Body),
      option_map CountAllCloser.shadow
        (hd_error (CountAllCloser.calculateLightIntensities (b :: bodies)))
      = Some "None").
Proof.
  intros Hne. split; [|exact calculateLightIntensities_first].
  destruct (calculateLightIntensity_at planets) as (results & Hr & Hm & Hat).
  destruct (calculateScientificLightIntensity_at planets)
    as (scientific & Hs & Hsm & Hsat).
  pose proof (sortByDistance_sorted planets) as Hsorted.
  pose proof (sortByDistance_perm planets) as Hp.
  destruct results as [|first rest].
  { simpl in Hm. rewrite <- Hm in Hp. apply Permutation_nil in Hp.
    contradiction. }
  destruct scientific as [|sfirst srest].
  { simpl in Hsm. rewrite <- Hsm in Hm. discriminate Hm. }
  exists first, rest, sfirst, srest.
  assert (Hsame : bodyOfScientific sfirst = bodyOfResult first).
  { rewrite <- Hm in Hsm. apply (f_equal (@hd_error Planet)) in Hsm.
    cbn [List.map hd_error] in Hsm. congruence. }
  assert (Hfull : Lumoria.res_light first = "Full").
  { rewrite <- Hm in Hat.
    destruct (Hat 0%nat _ eq_refl) as (r & Hn & _ & _ & Hl).
    inversion Hn; subst. exact Hl. }
  assert (Hsfull : ScientificShadow.res_light sfirst = "Full").
  { rewrite <- Hsm in Hsat.
    destruct (Hsat 0%nat _ eq_refl)
      as (r & a & Hn & _ & _ & _ & _ & _ & _ & Hl).
    inversion Hn; subst. exact Hl. }
  assert (Hbehind : forall i r, nth_error (first :: rest) (S i) = Some r ->
             Lumoria.res_light r = "Partial" \/
             Lumoria.res_light r = "None" \/
             Lumoria.res_light r = "None (Multiple Shadows)").
  { intros i r Hi.
    assert (Hb : nth_error (sortByDistance planets) (S i)
                 = Some (bodyOfResult r)).
    { rewrite <- Hm. now apply map_nth_error. }
    destruct (Hat (S i) _ Hb) as (r' & Hn & _ & _ & Hl).
    rewrite Hi in Hn. inversion Hn; subst r'. rewrite Hl.
    now apply getLightIntensity_behind. }
  assert (Hsbehind : forall i s,
             nth_error (sfirst :: srest) (S i) = Some s ->
             ScientificShadow.res_light s = "Partial" \/
             ScientificShadow.res_light s = "None" \/
             ScientificShadow.res_light s = "None (Multiple Shadows)").
  { intros i s Hi.
    assert (Hb : nth_error (sortByDistance planets) (S i)
                 = Some (bodyOfScientific s)).
    { rewrite <- Hsm. now apply map_nth_error. }
    destruct (Hsat (S i) _ Hb) as (s' & a & Hn & _ & _ & _ & _ & _ & _ & Hl).
    rewrite Hi in Hn. inversion Hn; subst s'. rewrite Hl.
    now apply getScientificLightIntensity_behind. }
  rewrite <- Hm in Hsorted, Hp.
  split; [exact Hr|]. split; [exact Hs|]. split; [exact Hsame|].
  split; [eapply Permutation_in; [exact Hp | now left]|].
  split.
  { intros p Hin. apply (Permutation_in _ (Permutation_sym Hp)) in Hin.
    destruct Hin as [<-|Hin]; [apply Qle_refl|].
    simpl in Hsorted. inversion Hsorted as [|? ? _ Hall]; subst.
    rewrite Forall_forall in Hall. apply (Hall p Hin). }
  split; [exact Hfull|]. split; [exact Hsfull|].
  split.
  { intros r Hin. apply In_nth_error in Hin. destruct Hin as (i & Hi).
    now apply (Hbehind i). }
  split.
  { intros s Hin. apply In_nth_error in Hin. destruct Hin as (i & Hi).
    now apply (Hsbehind i). }
  split.
  - intros i r Hi Hstrict. destruct i as [|i].
    + inversion Hi; subst. exact Hfull.
    + exfalso.
      assert (Hlt : Lumoria.res_distance r < Lumoria.res_distance first).
      { apply (Hstrict 0%nat first); [discriminate | reflexivity]. }
      assert (Hle : distance (bodyOfResult first)
                    <= distance (bodyOfResult r)).
      { apply (sorted_positions Hsorted (i := 0%nat) (j := S i));
          [lia | reflexivity | now apply map_nth_error]. }
      simpl in Hle. apply (Qlt_not_le _ _ Hlt Hle).
  - intros i s Hi Hstrict. destruct i as [|i].
    + inversion Hi; subst. exact Hsfull.
    + exfalso.
      assert (Hlt : ScientificShadow.res_distance s
                    < ScientificShadow.res_distance sfirst).
      { apply (Hstrict 0%nat sfirst); [discriminate | reflexivity]. }
      assert (Hle : distance (bodyOfScientific sfirst)
                    <= distance (bodyOfScientific s)).
      { rewrite <- Hsm in Hm.
        rewrite Hm in Hsorted.
        apply (sorted_positions Hsorted (i := 0%nat) (j := S i));
          [lia | reflexivity | now apply map_nth_error]. }
      simpl in Hle. apply (Qlt_not_le _ _ Hlt Hle).
Qed.

Lemma first_sorted_body_is_Full_witness :
  let twins := [ mkPlanet "Twin1" 1.0 8000; mkPlanet "Twin2" 1.0 12000 ] in
  twins <> [] /\
  exists first rest,
    Lumoria.calculateLightIntensity twins = Some (first :: rest) /\
    Lumoria.res_name first = "Twin1" /\
    Lumoria.res_light first = "Full" /\
    (forall r, In r rest ->
               Lumoria.res_light r = "Partial" \/
               Lumoria.res_light r = "None" \/
               Lumoria.res_light r = "None (Multiple Shadows)").
Proof.
  intros twins.
  assert (Hne : twins <> []) by discriminate.
  split; [exact Hne|].
  destruct (first_sorted_body_is_Full twins Hne)
    as ((first & rest & sfirst & srest & Hr & _ & _ & _ & _ & Hfull & _
         & Hbehind & _) & _).
  exists first, rest. split; [exact Hr|].
  split; [|split; [exact Hfull | exact Hbehind]].
  vm_compute in Hr. inversion Hr. reflexivity.
Defined.

(** C5. Of two bodies of equal size at distinct distances, given in
    either order, the nearer is labelled Full and the farther Partial: a
    closer body of equal size is not a larger one. *)
Theorem equal_size_nearer_Full_farther_Partial (near far : Planet)
    (planets : list Planet) :
  size near == size far ->
  distance near < distance far ->
  planets = [near; far] \/ planets = [far; near] ->
  exists rn rf,
    Lumoria.calculateLightIntensity planets = Some [rn; rf] /\
    bodyOfResult rn = near /\ Lumoria.res_light rn = "Full" /\
    bodyOfResult rf = far /\ Lumoria.res_light rf = "Partial".
Proof.
  intros Hsize Hdist Hor.
  assert (Hsort : sortByDistance planets = [near; far]).
  { destruct Hor as [-> | ->]; simpl.
    - apply Qlt_le_weak, le_true in Hdist. now rewrite Hdist.
    - apply le_false in Hdist. now rewrite Hdist. }
  assert (Hgt : Js.gt (size near) (size far) = false).
  { apply gt_false. rewrite Hsize. apply Qle_refl. }
  unfold Lumoria.calculateLightIntensity, Js.map. rewrite Hsort.
  cbn. rewrite Hgt. cbn.
  do 2 eexists. split; [reflexivity|].
  destruct near, far. repeat split.
Qed.

Lemma equal_size_nearer_Full_farther_Partial_witness :
  let near := mkPlanet "Near" 0.5 9000 in
  let far := mkPlanet "Far" 2 9000 in
  size near == size far /\
  distance near < distance far /\
  ([far; near] = [near; far] \/ [far; near] = [far; near]) /\
  exists rn rf,
    Lumoria.calculateLightIntensity [far; near] = Some [rn; rf] /\
    bodyOfResult rn = near /\ Lumoria.res_light rn = "Full" /\
    bodyOfResult rf = far /\ Lumoria.res_light rf = "Partial".
Proof.
  intros near far.
  assert (Hs : size near == size far) by reflexivity.
  assert (Hd : distance near < distance far) by reflexivity.
  assert (Ho : [far; near] = [near; far] \/ [far; near] = [far; near])
    by (right; reflexivity).
  split; [exact Hs|]. split; [exact Hd|]. split; [exact Ho|].
  exact (equal_size_nearer_Full_farther_Partial near far [far; near] Hs Hd Ho).
Defined.

(** C6. For every input the scientific variant returns, position by
    position, the same bodies with the same categorical labels as the
    primary classifier. *)
Theorem scientific_labels_agree (planets : list Planet) :
  exists results scientific,
    Lumoria.calculateLightIntensity planets = Some results /\
    ScientificShadow.calculateScientificLightIntensity planets
    = Some scientific /\
    List.map (fun r => (bodyOfResult r, Lumoria.res_light r)) results
    = List.map (fun s => (bodyOfScientific s, ScientificShadow.res_light s))
               scientific.
Proof.
  destruct (calculateLightIntensity_at planets) as (results & Hr & Hm & Hat).
  destruct (calculateScientificLightIntensity_at planets)
    as (scientific & Hs & Hsm & Hsat).
  exists results, scientific. split; [exact Hr|]. split; [exact Hs|].
  apply nth_error_ext. intros i.
  rewrite !nth_error_map.
  destruct (nth_error (sortByDistance planets) i) as [body|] eqn:Hi.
  - destruct (Hat i body Hi) as (r & Hnr & Hbr & Hcr & Hlr).
    destruct (Hsat i body Hi)
      as (s & a & Hns & Hbs & _ & Hcs & Hca & _ & _ & Hls).
    rewrite Hnr, Hns. simpl. rewrite Hbr, Hbs, Hlr, Hls.
    unfold ScientificShadow.getScientificLightIntensity,
      Lumoria.getLightIntensity.
    rewrite Hcr, <- Hca, Hcs. reflexivity.
  - apply nth_error_None in Hi.
    pose proof Hi as Hi'. rewrite <- Hm, length_map in Hi.
    rewrite <- Hsm, length_map in Hi'.
    apply nth_error_None in Hi, Hi'. now rewrite Hi, Hi'.
Qed.

(** ** The scientific analysis *)

(** A shadow is cast exactly by the strictly closer bodies. *)
Lemma hasShadow_closer (shadowCaster receiver : Planet) :
  ScientificShadow.hasShadow
    (ScientificShadow.calculateShadowInteraction shadowCaster receiver)
  = Js.lt (distance shadowCaster) (distance receiver).
Proof.
  unfold ScientificShadow.calculateShadowInteraction, Js.lt, Js.ge.
  destruct (Qle_bool (distance receiver) (distance shadowCaster));
    [reflexivity|].
  destruct (Js.gt (size shadowCaster) (size receiver * 1.1));
    [reflexivity|].
  now destruct (Js.gt (size shadowCaster) (size receiver * 0.9)).
Qed.

(** A strictly larger caster never falls into the "minimal" tier. *)
Lemma larger_caster_intensity (shadowCaster receiver : Planet) :
  size receiver < size shadowCaster ->
  distance shadowCaster < distance receiver ->
  let shadowInfo :=
    ScientificShadow.calculateShadowInteraction shadowCaster receiver in
  (ScientificShadow.type shadowInfo = "complete" /\
   ScientificShadow.intensity shadowInfo = 1) \/
  (ScientificShadow.type shadowInfo = "partial" /\
   ScientificShadow.intensity shadowInfo = 0.6).
Proof.
  intros Hs Hd. unfold ScientificShadow.calculateShadowInteraction.
  assert (Hge : Js.ge (distance shadowCaster) (distance receiver) = false).
  { unfold Js.ge. apply le_false. exact Hd. }
  rewrite Hge.
  destruct (Js.gt (size shadowCaster) (size receiver * 1.1)) eqn:E1;
    [left; split; reflexivity|].
  apply gt_false in E1.
  destruct (Js.gt (size shadowCaster) (size receiver * 0.9)) eqn:E2;
    [right; split; reflexivity|].
  apply gt_false in E2. exfalso.
  destruct (Qlt_le_dec (size receiver) 0); lra.
Qed.

(** The [forEach] loop, run from any state: it appends the entries of
    the casters that do cast a shadow and adds up their intensities. *)
Lemma forEach_casters (receiver : Planet) (casters : list Planet) :
  forall st : ScientificShadow.LoopState,
    let st' :=
      fold_left (ScientificShadow.analyzeCaster receiver) casters st in
    let casting :=
      filter (fun c => Js.lt (distance c) (distance receiver)) casters in
    fst st' = fst st ++ List.map (detailOf receiver) casting /\
    snd st' ==
    snd st + sumQ (List.map ScientificShadow.detail_intensity
                            (List.map (detailOf receiver) casting)).
Proof.
  induction casters as [|c rest IH]; intros st; simpl.
  - split; [now rewrite app_nil_r | lra].
  - destruct (IH (ScientificShadow.analyzeCaster receiver st c)) as (Hd & Ht).
    rewrite Hd, Ht. clear Hd Ht IH.
    unfold ScientificShadow.analyzeCaster.
    rewrite hasShadow_closer.
    destruct (Js.lt (distance c) (distance receiver)); simpl.
    + split; [now rewrite <- app_assoc | lra].
    + split; [reflexivity | lra].
Qed.

Lemma detail_intensity_nonneg (receiver : Planet) (casters : list Planet) :
  0 <= sumQ (List.map ScientificShadow.detail_intensity
                      (List.map (detailOf receiver) casters)).
Proof.
  induction casters as [|c rest IH]; simpl; [lra|].
  assert (0 <= ScientificShadow.intensity
                 (ScientificShadow.calculateShadowInteraction c receiver)).
  { unfold ScientificShadow.calculateShadowInteraction.
    destruct (Js.ge (distance c) (distance receiver)); simpl; [lra|].
    destruct (Js.gt (size c) (size receiver * 1.1)); simpl; [lra|].
    destruct (Js.gt (size c) (size receiver * 0.9)); simpl; lra. }
  lra.
Qed.

(** What [getScientificShadowAnalysis] returns for a position within the
    array: the entries of the shadow casters, and one minus their clamped
    total as the light. *)
Lemma getScientificShadowAnalysis_casters (planets : list Planet) (i : nat)
    (receiver : Planet) :
  nth_error planets i = Some receiver ->
  exists a,
    ScientificShadow.getScientificShadowAnalysis planets i = Some a /\
    ScientificShadow.shadowDetails a
    = List.map (detailOf receiver) (shadowCasters planets i receiver) /\
    ScientificShadow.lightIntensity a
    == 1 - Qmin (sumQ (List.map ScientificShadow.detail_intensity
                                (ScientificShadow.shadowDetails a))) 1 /\
    0 <= ScientificShadow.lightIntensity a <= 1.
Proof.
  intros H. unfold ScientificShadow.getScientificShadowAnalysis.
  destruct i as [|i]; cbn [Nat.eqb].
  - eexists. split; [reflexivity|]. simpl.
    split; [reflexivity|]. split; [reflexivity|]. lra.
  - rewrite H. eexists. split; [reflexivity|].
    fold (largerCloser planets (S i) receiver).
    destruct (forEach_casters receiver (largerCloser planets (S i) receiver)
                ([], 0)) as (Hd & Ht).
    simpl in Hd, Ht. fold (shadowCasters planets (S i) receiver) in Hd, Ht.
    unfold ScientificShadow.analysisFrom; simpl.
    pose proof (detail_intensity_nonneg receiver
                  (shadowCasters planets (S i) receiver)) as Hn.
    rewrite Hd, Ht. clear Hd Ht.
    set (total := sumQ _) in *.
    assert (Hm : Qmin (0 + total) 1 == Qmin total 1).
    { apply Q.min_compat; [lra | reflexivity]. }
    rewrite Hm.
    assert (Hb : 0 <= 1 - Qmin total 1 <= 1).
    { destruct (Q.min_spec total 1) as [[? E]|[? E]]; rewrite E; lra. }
    rewrite (Q.max_r 0 (1 - Qmin total 1)) by apply Hb.
    split; [reflexivity|]. split; [reflexivity | exact Hb].
Qed.

Lemma shadowCasters_In (sorted : list Planet) (i : nat)
    (receiver c : Planet) :
  In c (shadowCasters sorted i receiver) ->
  In c (firstn i sorted) /\
  size receiver < size c /\
  distance c < distance receiver.
Proof.
  unfold shadowCasters, largerCloser. rewrite !filter_In.
  intros ((Hin & Hs) & Hd).
  apply gt_true in Hs. apply lt_true in Hd. auto.
Qed.

(** The entry recorded for a strictly larger, strictly closer caster
    carries its name and is a complete shadow of intensity 1 or a partial
    shadow of intensity 0.6. *)
Lemma larger_caster_detail (shadowCaster receiver : Planet) :
  size receiver < size shadowCaster ->
  distance shadowCaster < distance receiver ->
  let d := detailOf receiver shadowCaster in
  ScientificShadow.caster d = name shadowCaster /\
  ((ScientificShadow.detail_type d = "complete" /\
    ScientificShadow.detail_intensity d = 1) \/
   (ScientificShadow.detail_type d = "partial" /\
    ScientificShadow.detail_intensity d = 0.6)).
Proof.
  intros Hs Hd. split; [reflexivity|].
  exact (larger_caster_intensity shadowCaster receiver Hs Hd).
Qed.



(** C9. Every contribution that [getScientificShadowAnalysis] records in
    [shadowDetails] is a complete shadow of intensity 1 or a partial
    shadow of intensity 0.6, never the minimal 0.3: the casters analyzed
    are strictly larger than the receiver, hence above 90% of its size.
    (This holds for any array and any index within it; sortedness and
    positive sizes are not needed.) *)
Theorem recorded_shadows_are_complete_or_partial
    (planets : list Planet) (i : nat) :
  (i < List.length planets)%nat ->
  exists a,
    ScientificShadow.getScientificShadowAnalysis planets i = Some a /\
    Forall
      (fun d =>
         (ScientificShadow.detail_type d = "complete" /\
          ScientificShadow.detail_intensity d = 1) \/
         (ScientificShadow.detail_type d = "partial" /\
          ScientificShadow.detail_intensity d = 0.6))
      (ScientificShadow.shadowDetails a).
Proof.
  intros Hlt.
  destruct (nth_error planets i) as [receiver|] eqn:Hi;
    [|apply nth_error_None in Hi; lia].
  destruct (getScientificShadowAnalysis_casters _ _ _ Hi)
    as (a & Ha & Hdet & _).
  exists a. split; [exact Ha|]. rewrite Hdet.
  apply Forall_forall. intros d Hd.
  apply in_map_iff in Hd. destruct Hd as (c & <- & Hc).
  apply shadowCasters_In in Hc. destruct Hc as (_ & Hs & Hdist).
  exact (larger_caster_intensity c receiver Hs Hdist).
Qed.

Lemma recorded_shadows_are_complete_or_partial_witness :
  let system :=
    [ mkPlanet "Inner" 0.5 10500; mkPlanet "Middle" 1 20000;
      mkPlanet "Outer" 2 10000 ] in
  (2 < List.length system)%nat /\
  exists a,
    ScientificShadow.getScientificShadowAnalysis system 2 = Some a /\
    Forall
      (fun d =>
         (ScientificShadow.detail_type d = "complete" /\
          ScientificShadow.detail_intensity d = 1) \/
         (ScientificShadow.detail_type d = "partial" /\
          ScientificShadow.detail_intensity d = 0.6))
      (ScientificShadow.shadowDetails a).
Proof.
  intros system.
  assert (Hlt : (2 < List.length system)%nat) by (simpl; lia).
  split; [exact Hlt|].
  exact (recorded_shadows_are_complete_or_partial system 2 Hlt).
Defined.

(** ** Array helpers of the validation *)

Lemma filterFrom_In {A : Type} (pred : A -> nat -> bool) (arr : list A) :
  forall i k x,
    nth_error arr k = Some x -> pred x (i + k)%nat = true ->
    In x (JsArray.filterFrom pred i arr).
Proof.
  induction arr as [|a rest IH]; intros i k x Hk Hp.
  - destruct k; discriminate.
  - destruct k as [|k]; simpl in *.
    + inversion Hk; subst. rewrite Nat.add_0_r in Hp. rewrite Hp. now left.
    + rewrite Nat.add_succ_r in Hp.
      specialize (IH (S i) k x Hk Hp).
      destruct (pred a i); [now right | exact IH].
Qed.

(** [find] returns an element when one satisfies the predicate, and
    what it returns satisfies it. *)
Lemma findFrom_finds {A : Type} (pred : A -> nat -> bool) (arr : list A) :
  forall i k x,
    nth_error arr k = Some x -> pred x (i + k)%nat = true ->
    exists y k',
      JsArray.findFrom pred i arr = Some y /\
      nth_error arr k' = Some y /\ pred y (i + k')%nat = true.
Proof.
  induction arr as [|a rest IH]; intros i k x Hk Hp.
  - destruct k; discriminate.
  - simpl. destruct (pred a i) eqn:Ea.
    + exists a, 0%nat. rewrite Nat.add_0_r. now repeat split.
    + destruct k as [|k]; simpl in Hk.
      * inversion Hk; subst. rewrite Nat.add_0_r in Hp. congruence.
      * rewrite Nat.add_succ_r in Hp.
        destruct (IH (S i) k x Hk Hp) as (y & k' & Hy & Hn & Hsat).
        exists y, (S k'). rewrite Nat.add_succ_r. now repeat split.
Qed.

Lemma pushIf_nil (cond : bool) (message : string) (errors : list string) :
  CustomStarSystem.pushIf cond message errors = [] ->
  cond = false /\ errors = [].
Proof.
  unfold CustomStarSystem.pushIf. destruct cond; intros H.
  - apply app_eq_nil in H. destruct H as [_ H]. discriminate H.
  - now split.
Qed.

Lemma In_pushIf (cond : bool) (message x : string) (errors : list string) :
  In x errors -> In x (CustomStarSystem.pushIf cond message errors).
Proof.
  unfold CustomStarSystem.pushIf. destruct cond; [|trivial].
  intros H. apply in_or_app. now left.
Qed.

Lemma invalid_of_error (result : CustomStarSystem.SystemValidation)
    (x : string) :
  CustomStarSystem.sv_isValid result
  = (List.length (CustomStarSystem.sv_errors result) =? 0)%nat ->
  In x (CustomStarSystem.sv_errors result) ->
  CustomStarSystem.sv_isValid result = false.
Proof.
  intros -> Hin. apply Nat.eqb_neq.
  destruct (CustomStarSystem.sv_errors result); [contradiction|].
  discriminate.
Qed.

(** ** Validation of a planet *)

Section ValidationFacts.

Variable stringGreaterThan : string -> Q -> bool.
Variable trim : string -> string.
Variable toLowerCase : string -> string.
Variable minus : Q -> Q -> Q.

Abbreviation validatePlanet :=
  (CustomStarSystem.validatePlanet stringGreaterThan trim).
Abbreviation validateStarSystem :=
  (CustomStarSystem.validateStarSystem stringGreaterThan trim toLowerCase
     minus).
Abbreviation greaterThan := (CustomStarSystem.greaterThan stringGreaterThan).
Abbreviation missingText := (CustomStarSystem.missingText trim).
Abbreviation kept := (keptPlanet stringGreaterThan trim).
Abbreviation keptAll := (keptPlanets stringGreaterThan trim).
Abbreviation closerThan := (CustomStarSystem.closerThan minus).
Abbreviation duplicateDistances :=
  (CustomStarSystem.duplicateDistances minus).

(** The planets that the loop finds valid. *)
Abbreviation valid :=
  (fun p => exists v, validatePlanet p = Some v /\
                      CustomStarSystem.isValid v = true).

(** Two entries at different positions of an array of distances, one
    closer than 0.01 to the other, make [duplicateDistances] non-empty
    when the finite distances of the array are positive. *)
Lemma duplicateDistances_nonempty (distances : list CustomStarSystem.Parsed)
    (i j : nat) (di dj : CustomStarSystem.Parsed) :
  Forall (withinBound 50) distances ->
  i <> j ->
  nth_error distances i = Some di ->
  nth_error distances j = Some dj ->
  closerThan dj di = true ->
  (0 <? List.length (duplicateDistances distances))%nat = true.
Proof.
  intros Hpos Hij Hi Hj Hclose.
  apply Nat.ltb_lt.
  assert (Hin : In di (duplicateDistances distances)).
  { unfold CustomStarSystem.duplicateDistances, JsArray.filter.
    apply (filterFrom_In _ distances 0 i di Hi).
    cbv beta. change (0 + i)%nat with i. unfold JsArray.find.
    destruct (findFrom_finds
                (fun d k => negb (k =? i)%nat && closerThan d di)
                distances 0 j dj Hj) as (y & k' & Hy & Hyn & Hsat).
    { simpl. apply andb_true_intro. split.
      - apply negb_true_iff, Nat.eqb_neq. congruence.
      - exact Hclose. }
    rewrite Hy. apply andb_prop in Hsat. destruct Hsat as (_ & Hsat).
    rewrite Forall_forall in Hpos.
    specialize (Hpos y (nth_error_In _ _ Hyn)).
    destruct y as [n|]; [|discriminate Hsat]. simpl in Hpos |- *.
    apply negb_true_iff, not_true_iff_false.
    intros Heq. apply Qeq_bool_iff in Heq. destruct Hpos as (Hpos & _).
    rewrite Heq in Hpos. now apply Qlt_irrefl in Hpos. }
  destruct (duplicateDistances distances); [contradiction | simpl; lia].
Qed.

(** [validatePlanet] returns exactly on the names that [?.trim()]
    accepts. *)
Lemma validatePlanet_returns (p : CustomStarSystem.RawPlanet) :
  trimmable (CustomStarSystem.rawName p) <->
  exists v, validatePlanet p = Some v.
Proof.
  unfold CustomStarSystem.validatePlanet.
  destruct (CustomStarSystem.rawName p); simpl; split;
    try (intros []; fail); try (intros _; eexists; reflexivity);
    try exact (fun _ => I); intros (v & Hv); discriminate.
Qed.

(** On every run that returns, the error list holds the message of each
    of the five checks that fails, and no other: no check is skipped
    because an earlier one failed. *)
Lemma validatePlanet_reports_every_violation
    (p : CustomStarSystem.RawPlanet) (v : CustomStarSystem.PlanetValidation) :
  validatePlanet p = Some v ->
  let reported m := In m (CustomStarSystem.errors v) in
  (reported "Planet name is required and must be a non-empty string"
   <-> missingText (CustomStarSystem.rawName p) = true) /\
  (reported "Distance must be a positive number (AU)"
   <-> CustomStarSystem.notPositiveNumber (CustomStarSystem.rawDistance p)
       = true) /\
  (reported "Size must be a positive number (km diameter)"
   <-> CustomStarSystem.notPositiveNumber (CustomStarSystem.rawSize p)
       = true) /\
  (reported "Distance seems unrealistically large (>50 AU) - please verify"
   <-> greaterThan (CustomStarSystem.rawDistance p) 50 = true) /\
  (reported "Size seems unrealistically large (>150,000 km) - please verify"
   <-> greaterThan (CustomStarSystem.rawSize p) 150000 = true) /\
  (CustomStarSystem.isValid v = true <-> CustomStarSystem.errors v = []).
Proof.
  unfold CustomStarSystem.validatePlanet. intros H.
  destruct (CustomStarSystem.optionalTrim trim (CustomStarSystem.rawName p));
    simpl in H; [|discriminate].
  inversion H; subst; clear H. cbn [CustomStarSystem.errors
                                      CustomStarSystem.isValid].
  destruct (missingText (CustomStarSystem.rawName p));
    destruct (CustomStarSystem.notPositiveNumber
                (CustomStarSystem.rawDistance p));
    destruct (CustomStarSystem.notPositiveNumber
                (CustomStarSystem.rawSize p));
    destruct (greaterThan (CustomStarSystem.rawDistance p) 50);
    destruct (greaterThan (CustomStarSystem.rawSize p) 150000);
    cbn; repeat split; intros; try reflexivity; try discriminate;
    repeat match goal with
           | H : _ \/ _ |- _ => destruct H
           | H : False |- _ => destruct H
           end;
    try discriminate; auto 7.
Qed.

(** A name passes the name check exactly when it is a string that is
    not empty and that [trim] does not empty. *)
Lemma acceptableName_spec (v : JsValue) :
  acceptableName trim v <-> missingText v = false.
Proof.
  unfold acceptableName, CustomStarSystem.missingText. split.
  - intros (n & -> & Hn & Ht). simpl. apply orb_false_iff. split.
    + rewrite negb_involutive. now apply String.eqb_neq.
    + apply Nat.eqb_neq. intros Hlen.
      destruct (trim n); [now apply Ht | discriminate Hlen].
  - intros H. apply orb_false_iff in H. destruct H as (Htruthy & Hlen).
    destruct v as [| | | | | |n]; try discriminate Hlen.
    exists n. split; [reflexivity|]. simpl in Htruthy.
    rewrite negb_involutive in Htruthy. apply String.eqb_neq in Htruthy.
    split; [exact Htruthy|]. intros Ht. rewrite Ht in Hlen.
    discriminate Hlen.
Qed.

(** A number passes the two checks on it exactly when it is [NaN] or
    lies in (0, bound]. *)
Lemma acceptableNumber_spec (bound : Q) (v : JsValue) :
  acceptableNumber bound v <->
  CustomStarSystem.notPositiveNumber v = false /\
  greaterThan v bound = false.
Proof.
  unfold acceptableNumber. split.
  - intros [->|(n & -> & Hpos & Hle)]; [now split|]. simpl. split.
    + now apply le_false.
    + now apply gt_false.
  - intros (Hpos & Hle).
    destruct v as [| | |n| |negative|]; try discriminate Hpos.
    + right. exists n. simpl in Hpos, Hle. apply le_false in Hpos.
      apply gt_false in Hle. now repeat split.
    + now left.
    + simpl in Hpos, Hle. subst negative. discriminate Hle.
Qed.

(** What a valid planet looks like, and its sanitized copy. *)
Lemma accepted_planet (p : CustomStarSystem.RawPlanet)
    (v : CustomStarSystem.PlanetValidation) :
  validatePlanet p = Some v ->
  CustomStarSystem.isValid v = true ->
  acceptablePlanet trim p /\
  CustomStarSystem.errors v = [] /\
  exists n d s,
    CustomStarSystem.rawName p = JsString n /\
    CustomStarSystem.parseFloatOf (CustomStarSystem.rawDistance p) = Some d /\
    CustomStarSystem.parseFloatOf (CustomStarSystem.rawSize p) = Some s /\
    trim n <> ""%string /\ withinBound 50 d /\ withinBound 150000 s /\
    CustomStarSystem.planet v
    = Some (CustomStarSystem.mkSanitized (trim n) d s).
Proof.
  intros Hv Hvalid.
  destruct (validatePlanet_reports_every_violation p v Hv)
    as (Hname & Hd & Hs & H50 & H150 & He).
  apply He in Hvalid. rewrite Hvalid in Hname, Hd, Hs, H50, H150.
  simpl in Hname, Hd, Hs, H50, H150.
  assert (F : forall b : bool, (False <-> b = true) -> b = false).
  { intros b Hb. apply not_true_iff_false. intros E. now apply Hb in E. }
  apply F in Hname, Hd, Hs, H50, H150. clear F He.
  pose proof (proj2 (acceptableName_spec _) Hname) as Aname.
  pose proof (proj2 (acceptableNumber_spec 50 _) (conj Hd H50)) as Adist.
  pose proof (proj2 (acceptableNumber_spec 150000 _) (conj Hs H150))
    as Asize.
  split; [now repeat split|]. split; [exact Hvalid|].
  destruct Aname as (n & En & Hne & Ht).
  unfold CustomStarSystem.validatePlanet in Hv. rewrite En in Hv.
  simpl in Hv. inversion Hv; subst v; clear Hv. simpl.
  destruct Adist as [Ed|(d & Ed & Hd0 & Hd50)];
    destruct Asize as [Es|(z & Es & Hs0 & Hs150)];
    rewrite Ed, Es; simpl; do 3 eexists;
    (split; [exact En|]); (split; [reflexivity|]);
    (split; [reflexivity|]); (split; [exact Ht|]); simpl;
    repeat split; assumption.
Qed.

Lemma acceptable_planet_valid (p : CustomStarSystem.RawPlanet) :
  acceptablePlanet trim p -> valid p.
Proof.
  intros (Aname & Adist & Asize).
  apply acceptableName_spec in Aname as Hname.
  apply acceptableNumber_spec in Adist, Asize.
  destruct Adist as (Hd & H50). destruct Asize as (Hs & H150).
  destruct Aname as (n & En & _).
  unfold CustomStarSystem.validatePlanet.
  rewrite Hname, Hd, Hs, H50, H150, En. simpl.
  eexists. split; reflexivity.
Qed.

(** The loop appends to [validatedPlanets] the sanitized copies of the
    valid planets, in order. *)
Lemma forEachFrom_validatedPlanets
    (planets : list CustomStarSystem.RawPlanet) :
  forall index st st',
    CustomStarSystem.forEachFrom stringGreaterThan trim index planets st
    = Some st' ->
    snd st' = snd st ++ keptAll planets.
Proof.
  induction planets as [|p rest IH]; simpl; intros index st st' H.
  - inversion H; subst. now rewrite app_nil_r.
  - unfold CustomStarSystem.validateEach in H. unfold keptPlanet.
    destruct (validatePlanet p) as [v|]; simpl in H; [|discriminate].
    destruct (CustomStarSystem.isValid v); simpl in H.
    + destruct (CustomStarSystem.planet v) as [P|]; simpl in H;
        [|discriminate].
      rewrite (IH _ _ _ H). simpl. now rewrite <- app_assoc.
    + now rewrite (IH _ _ _ H).
Qed.

(** The loop runs to its end when every planet name is one that
    [?.trim()] accepts. *)
Lemma forEachFrom_returns (planets : list CustomStarSystem.RawPlanet) :
  Forall (fun p => trimmable (CustomStarSystem.rawName p)) planets ->
  forall index st,
    exists st',
      CustomStarSystem.forEachFrom stringGreaterThan trim index planets st
      = Some st'.
Proof.
  induction 1 as [|p rest Hp _ IH]; simpl; intros index st.
  - now eexists.
  - apply validatePlanet_returns in Hp. destruct Hp as (v & Hv).
    unfold CustomStarSystem.validateEach. rewrite Hv. simpl.
    destruct (CustomStarSystem.isValid v) eqn:Evalid; simpl.
    + destruct (accepted_planet p v Hv Evalid)
        as (_ & _ & n & d & s & _ & _ & _ & _ & _ & _ & HP).
      rewrite HP. simpl. apply IH.
    + apply IH.
Qed.

(** Every kept planet has a name that is not empty, a distance that is
    [NaN] or in (0, 50] and a size that is [NaN] or in (0, 150000]. *)
Lemma keptAll_bounds (planets : list CustomStarSystem.RawPlanet) :
  Forall (fun P => CustomStarSystem.s_name P <> ""%string /\
                   withinBound 50 (CustomStarSystem.s_distance P) /\
                   withinBound 150000 (CustomStarSystem.s_size P))
         (keptAll planets).
Proof.
  induction planets as [|p rest IH]; simpl; [constructor|].
  apply Forall_app. split; [|exact IH].
  unfold keptPlanet.
  destruct (validatePlanet p) as [v|] eqn:Hv; [|constructor].
  destruct (CustomStarSystem.isValid v) eqn:Evalid; [|constructor].
  destruct (accepted_planet p v Hv Evalid)
    as (_ & _ & n & d & s & _ & _ & _ & Ht & Hd & Hs & HP).
  rewrite HP. constructor; [|constructor]. simpl. now repeat split.
Qed.

Lemma keptAll_positive (planets : list CustomStarSystem.RawPlanet) :
  Forall (withinBound 50)
         (List.map CustomStarSystem.s_distance (keptAll planets)).
Proof.
  apply Forall_map. eapply Forall_impl; [|apply keptAll_bounds].
  intros P (_ & H & _). exact H.
Qed.

Lemma keptAll_valid (planets : list CustomStarSystem.RawPlanet) :
  Forall valid planets ->
  List.length (keptAll planets) = List.length planets.
Proof.
  induction 1 as [|p rest (v & Hv & Hvalid) _ IH]; [reflexivity|].
  simpl. rewrite length_app, IH. unfold keptPlanet. rewrite Hv, Hvalid.
  destruct (accepted_planet p v Hv Hvalid)
    as (_ & _ & n & d & s & _ & _ & _ & _ & _ & _ & HP).
  now rewrite HP.
Qed.

(** Two kept planets at different positions of the input are at
    different positions of [validatedPlanets]. *)
Lemma keptAll_two_positions (planets : list CustomStarSystem.RawPlanet)
    (i j : nat) (p q : CustomStarSystem.RawPlanet)
    (P Q' : CustomStarSystem.Sanitized) :
  (i < j)%nat ->
  nth_error planets i = Some p -> kept p = Some P ->
  nth_error planets j = Some q -> kept q = Some Q' ->
  exists i' j',
    i' <> j' /\
    nth_error (keptAll planets) i' = Some P /\
    nth_error (keptAll planets) j' = Some Q'.
Proof.
  intros Hij Hi HP Hj HQ.
  destruct (nth_error_split planets i Hi) as (l1 & l2 & -> & Hlen).
  rewrite nth_error_app2 in Hj by lia.
  replace (j - List.length l1)%nat with (S (j - i - 1)) in Hj by lia.
  simpl in Hj.
  destruct (nth_error_split l2 (j - i - 1) Hj) as (l3 & l4 & -> & _).
  unfold keptPlanets. rewrite flat_map_app. simpl. rewrite flat_map_app.
  simpl. rewrite HP, HQ. simpl.
  fold (keptAll l1) (keptAll l3) (keptAll l4).
  exists (List.length (keptAll l1)),
         (List.length (keptAll l1) + S (List.length (keptAll l3)))%nat.
  split; [lia|]. split.
  - rewrite nth_error_app2 by lia. now rewrite Nat.sub_diag.
  - rewrite nth_error_app2 by lia.
    replace (List.length (keptAll l1) + S (List.length (keptAll l3))
             - List.length (keptAll l1))%nat
      with (S (List.length (keptAll l3))) by lia.
    simpl. rewrite nth_error_app2 by lia. now rewrite Nat.sub_diag.
Qed.

(** The example of the claim: a name that is empty or emptied by
    [trim], with a non-positive distance and a non-positive size, yields
    the three messages together, in the order of the checks. *)
Lemma validatePlanet_three_violations (s : string) (d z : Q) :
  String.length (trim s) = 0%nat ->
  d <= 0 -> z <= 0 ->
  exists v,
    validatePlanet
      (CustomStarSystem.mkRawPlanet (JsString s) (JsNumber d) (JsNumber z))
    = Some v /\
    CustomStarSystem.isValid v = false /\
    CustomStarSystem.errors v
    = [ "Planet name is required and must be a non-empty string";
        "Distance must be a positive number (AU)";
        "Size must be a positive number (km diameter)" ].
Proof.
  intros Hs Hd Hz.
  unfold CustomStarSystem.validatePlanet. simpl.
  unfold CustomStarSystem.missingText. rewrite Hs. simpl.
  rewrite orb_true_r.
  apply le_true in Hd as Hd', Hz as Hz'. unfold Js.le in Hd', Hz'.
  unfold Js.le. rewrite Hd', Hz'.
  assert (Hd50 : Js.gt d 50 = false) by (apply gt_false; lra).
  assert (Hz150 : Js.gt z 150000 = false) by (apply gt_false; lra).
  rewrite Hd50, Hz150. simpl.
  eexists. repeat split.
Qed.

(** An invalid planet contributes one entry to the system's errors:
    its position followed by all of its own errors. *)
Lemma validateEach_reports_all (st : CustomStarSystem.LoopState)
    (p : CustomStarSystem.RawPlanet) (index : nat)
    (v : CustomStarSystem.PlanetValidation) :
  validatePlanet p = Some v ->
  CustomStarSystem.isValid v = false ->
  CustomStarSystem.validateEach stringGreaterThan trim st p index
  = Some (fst st ++
          [ ("Planet " ++ JsString.ofNat (index + 1) ++ ": " ++
             JsString.join ", " (CustomStarSystem.errors v))%string ],
          snd st).
Proof.
  intros Hv Hinvalid. unfold CustomStarSystem.validateEach.
  rewrite Hv. simpl. now rewrite Hinvalid.
Qed.

(** C8, the failing input.  A body whose name is the number 42, with
    distance -1 and size 0, fails the name check, the distance check and
    the size check; [validatePlanet] builds the three errors and then
    throws while it evaluates [planet.name?.trim()] for the sanitized
    copy, so that no list of violations is returned. *)
Theorem validatePlanet_throws_on_non_string_name :
  let body :=
    CustomStarSystem.mkRawPlanet (JsNumber 42) (JsNumber (-1)) (JsNumber 0)
  in
  missingText (CustomStarSystem.rawName body) = true /\
  CustomStarSystem.notPositiveNumber (CustomStarSystem.rawDistance body)
  = true /\
  CustomStarSystem.notPositiveNumber (CustomStarSystem.rawSize body)
  = true /\
  validatePlanet body = None.
Proof. repeat split. Qed.

(** ** Validation of a star system *)

(** The errors of the loop: those it started with, then one entry for
    each planet that is not valid, which names the position of the planet
    and carries all of its errors. *)
Lemma forEachFrom_errors (planets : list CustomStarSystem.RawPlanet) :
  forall index st st',
    CustomStarSystem.forEachFrom stringGreaterThan trim index planets st
    = Some st' ->
    exists extra,
      fst st' = fst st ++ extra /\
      (extra = [] <-> Forall valid planets) /\
      (forall k p v,
          nth_error planets k = Some p ->
          validatePlanet p = Some v ->
          CustomStarSystem.isValid v = false ->
          In ("Planet " ++ JsString.ofNat (index + k + 1) ++ ": " ++
              JsString.join ", " (CustomStarSystem.errors v))%string
             extra).
Proof.
  induction planets as [|p rest IH]; simpl; intros index st st' H.
  - inversion H; subst. exists []. rewrite app_nil_r.
    split; [reflexivity|]. split; [split; [constructor | reflexivity]|].
    intros k p v Hk. destruct k; discriminate Hk.
  - unfold CustomStarSystem.validateEach in H.
    destruct (validatePlanet p) as [v|] eqn:Hv; simpl in H; [|discriminate].
    destruct (CustomStarSystem.isValid v) eqn:Hvalid; simpl in H.
    + destruct (CustomStarSystem.planet v) as [P|]; simpl in H;
        [|discriminate].
      destruct (IH _ _ _ H) as (extra & Hfst & Hiff & Hin).
      exists extra. simpl in Hfst. split; [exact Hfst|]. split.
      * rewrite Hiff. split.
        -- intros Hrest. constructor; [now exists v | exact Hrest].
        -- intros Hall. now inversion Hall.
      * intros k q w Hk Hw Hinvalid. destruct k as [|k]; simpl in Hk.
        -- inversion Hk; subst q. rewrite Hv in Hw.
           inversion Hw; subst w. congruence.
        -- replace (index + S k + 1)%nat with (S index + k + 1)%nat by lia.
           now apply (Hin k q w).
    + destruct (IH _ _ _ H) as (extra & Hfst & _ & Hin).
      simpl in Hfst. rewrite <- app_assoc in Hfst.
      eexists. split; [exact Hfst|]. split.
      * split; [discriminate|]. intros Hall.
        inversion Hall as [|? ? (w & Hw & Hwvalid) _]; subst.
        rewrite Hv in Hw. inversion Hw; subst w. congruence.
      * intros k q w Hk Hw Hinvalid. destruct k as [|k]; simpl in Hk.
        -- inversion Hk; subst q. rewrite Hv in Hw.
           inversion Hw; subst w. rewrite Nat.add_0_r. now left.
        -- right.
           replace (index + S k + 1)%nat with (S index + k + 1)%nat by lia.
           now apply (Hin k q w).
Qed.

Lemma optionalTrim_trimmable (v : JsValue) :
  trimmable v <-> exists t, CustomStarSystem.optionalTrim trim v = Some t.
Proof.
  destruct v; simpl; split; try (intros []; fail);
    try (intros _; eexists; reflexivity); try exact (fun _ => I);
    intros (t & Ht); discriminate.
Qed.

(** [validateStarSystem] returns exactly when every name it trims is a
    string, [null] or [undefined]: the name of the system, its
    description and, in a planet array, the name of every planet. *)
Lemma validateStarSystem_returns (system : CustomStarSystem.RawSystem) :
  trimmable (CustomStarSystem.sysName system) ->
  trimmable (CustomStarSystem.sysDescription system) ->
  (forall planets,
      CustomStarSystem.sysPlanets system = Some planets ->
      Forall (fun r => trimmable (CustomStarSystem.rawName r)) planets) ->
  exists result, validateStarSystem system = Some result.
Proof.
  intros Hname Hdesc Hall.
  apply optionalTrim_trimmable in Hname, Hdesc.
  destruct Hname as (tn & Htn). destruct Hdesc as (td & Htd).
  unfold CustomStarSystem.validateStarSystem.
  destruct (CustomStarSystem.sysPlanets system) as [[|p0 rest]|] eqn:Hp.
  - simpl. rewrite Htn, Htd. simpl. now eexists.
  - destruct (forEachFrom_returns (p0 :: rest) (Hall _ eq_refl) 0
                (CustomStarSystem.pushIf
                   (missingText (CustomStarSystem.sysName system))
                   "Star system name is required" [], []))
      as ([errs validated] & Hloop).
    rewrite Hloop. simpl. rewrite Htn, Htd. simpl. now eexists.
  - simpl. rewrite Htn, Htd. simpl. now eexists.
Qed.

Lemma forEachFrom_returned (planets : list CustomStarSystem.RawPlanet) :
  forall index st st',
    CustomStarSystem.forEachFrom stringGreaterThan trim index planets st
    = Some st' ->
    Forall (fun p => trimmable (CustomStarSystem.rawName p)) planets.
Proof.
  induction planets as [|p rest IH]; simpl; intros index st st' H.
  - constructor.
  - unfold CustomStarSystem.validateEach in H.
    destruct (validatePlanet p) as [v|] eqn:Hv; simpl in H; [|discriminate].
    constructor; [apply validatePlanet_returns; now exists v|].
    destruct (negb (CustomStarSystem.isValid v)); simpl in H;
      [now apply (IH _ _ _ H)|].
    destruct (CustomStarSystem.planet v); simpl in H; [|discriminate].
    now apply (IH _ _ _ H).
Qed.

(** And it returns only then: on a name that is a number or a boolean
    it throws. *)
Lemma validateStarSystem_returned (system : CustomStarSystem.RawSystem)
    (result : CustomStarSystem.SystemValidation) :
  validateStarSystem system = Some result ->
  trimmable (CustomStarSystem.sysName system) /\
  trimmable (CustomStarSystem.sysDescription system) /\
  forall planets,
    CustomStarSystem.sysPlanets system = Some planets ->
    Forall (fun r => trimmable (CustomStarSystem.rawName r)) planets.
Proof.
  intros H. unfold CustomStarSystem.validateStarSystem in H.
  assert (Hplanets : forall planets,
             CustomStarSystem.sysPlanets system = Some planets ->
             Forall (fun r => trimmable (CustomStarSystem.rawName r))
                    planets).
  { intros planets E. rewrite E in H.
    destruct planets as [|p0 rest]; [constructor|].
    remember (p0 :: rest) as planets eqn:Hshape.
    rewrite Hshape in H. rewrite <- Hshape in H.
    destruct (CustomStarSystem.forEachFrom stringGreaterThan trim 0
                planets _) as [st'|] eqn:Hloop; [|discriminate H].
    exact (forEachFrom_returned planets _ _ _ Hloop). }
  match type of H with
  | Js.bind ?m _ = _ => destruct m as [[errs validated]|]; [|discriminate H]
  end.
  simpl in H.
  destruct (CustomStarSystem.optionalTrim trim
              (CustomStarSystem.sysName system)) as [tn|] eqn:Hn;
    simpl in H; [|discriminate].
  destruct (CustomStarSystem.optionalTrim trim
              (CustomStarSystem.sysDescription system)) as [td|] eqn:Hd;
    simpl in H; [|discriminate].
  split; [apply optionalTrim_trimmable; now exists tn|].
  split; [apply optionalTrim_trimmable; now exists td | exact Hplanets].
Qed.

(** What [validateStarSystem] returns for a system with planets. *)
Lemma validateStarSystem_result (system : CustomStarSystem.RawSystem)
    (planets : list CustomStarSystem.RawPlanet)
    (result : CustomStarSystem.SystemValidation) :
  CustomStarSystem.sysPlanets system = Some planets ->
  planets <> [] ->
  validateStarSystem system = Some result ->
  exists errs,
    CustomStarSystem.forEachFrom stringGreaterThan trim 0 planets
      (CustomStarSystem.pushIf
         (missingText (CustomStarSystem.sysName system))
         "Star system name is required" [], [])
    = Some (errs, keptAll planets) /\
    CustomStarSystem.sv_errors result
    = CustomStarSystem.pushIf
        (0 <? List.length
                (duplicateDistances
                   (List.map CustomStarSystem.s_distance
                             (keptAll planets))))%nat
        "Multiple planets cannot occupy the same orbital distance"
        (CustomStarSystem.pushIf
           (0 <? List.length
                   (CustomStarSystem.duplicateNames
                      (List.map (lowerName toLowerCase)
                                (keptAll planets))))%nat
           ("Duplicate planet names found: " ++
            JsString.join ", "
              (JsArray.distinct
                 (CustomStarSystem.duplicateNames
                    (List.map (lowerName toLowerCase)
                              (keptAll planets)))))%string
           errs) /\
    CustomStarSystem.sv_isValid result
    = (List.length (CustomStarSystem.sv_errors result) =? 0)%nat /\
    CustomStarSystem.vs_planets (CustomStarSystem.validatedSystem result)
    = option_map sortByDistance
        (CustomStarSystem.toPlanets (keptAll planets)) /\
    CustomStarSystem.optionalTrim trim (CustomStarSystem.sysName system)
    = Some (CustomStarSystem.vs_name
              (CustomStarSystem.validatedSystem result)) /\
    trimmable (CustomStarSystem.sysDescription system).
Proof.
  intros Hplanets Hne H.
  unfold CustomStarSystem.validateStarSystem in H. rewrite Hplanets in H.
  destruct planets as [|p0 rest]; [contradiction|].
  remember (p0 :: rest) as planets eqn:Hshape.
  rewrite Hshape in H. rewrite <- Hshape in H.
  destruct (CustomStarSystem.forEachFrom stringGreaterThan trim 0 planets _)
    as [[errs validated]|] eqn:Hloop; simpl in H; [|discriminate].
  pose proof (forEachFrom_validatedPlanets planets _ _ _ Hloop) as Hkept.
  simpl in Hkept. subst validated.
  destruct (CustomStarSystem.optionalTrim trim
              (CustomStarSystem.sysName system))
    as [tn|]; simpl in H; [|discriminate].
  destruct (CustomStarSystem.optionalTrim trim
              (CustomStarSystem.sysDescription system)) as [td|] eqn:Htd;
    simpl in H; [|discriminate].
  inversion H; subst result; clear H. simpl.
  exists errs. repeat split.
  apply optionalTrim_trimmable. now exists td.
Qed.



End ValidationFacts.


(** ** The clocks of Tempora *)

Lemma readsAs_spec (text : string) (h m : nat)
    (outcome : Tempora.Outcome nat) :
  readsAs text h m outcome = true ->
  ((h < 24)%nat /\ (m < 60)%nat /\
   outcome = Tempora.Returned (60 * h + m)%nat) \/
  (~ ((h < 24)%nat /\ (m < 60)%nat) /\
   outcome = Tempora.Thrown ("Invalid time format: " ++ text)%string).
Proof.
  unfold readsAs. destruct outcome as [v|message]; intros H.
  - apply andb_prop in H. destruct H as (H & Hv).
    apply andb_prop in H. destruct H as (Hh & Hm).
    apply Nat.ltb_lt in Hh, Hm. apply Nat.eqb_eq in Hv. subst v.
    left. auto.
  - apply andb_prop in H. destruct H as (H & Hmsg).
    apply String.eqb_eq in Hmsg. subst message.
    right. split; [|reflexivity]. intros (Hh & Hm).
    apply Nat.ltb_lt in Hh, Hm. rewrite Hh, Hm in H. discriminate.
Qed.

(** The whole table of two-digit hours and minutes, by evaluation. *)
Lemma clockText_table :
  forallb (fun h =>
             forallb (fun m =>
                        readsAs (clockText h m) h m
                          (Tempora.parseTimeToMinutes (clockText h m)))
                     (seq 0 100))
          (seq 0 100) = true.
Proof. vm_compute. reflexivity. Qed.

Lemma shortClockText_table :
  forallb (fun h =>
             forallb (fun m =>
                        readsAs (shortClockText h m) h m
                          (Tempora.parseTimeToMinutes (shortClockText h m)))
                     (seq 0 100))
          (seq 0 10) = true.
Proof. vm_compute. reflexivity. Qed.

Lemma clockText_reads (h m : nat) :
  (h < 100)%nat -> (m < 100)%nat ->
  readsAs (clockText h m) h m (Tempora.parseTimeToMinutes (clockText h m))
  = true.
Proof.
  intros Hh Hm. pose proof clockText_table as T.
  rewrite forallb_forall in T.
  specialize (T h (proj2 (in_seq 100 0 h) (conj (Nat.le_0_l h) Hh))).
  rewrite forallb_forall in T.
  exact (T m (proj2 (in_seq 100 0 m) (conj (Nat.le_0_l m) Hm))).
Qed.

Lemma shortClockText_reads (h m : nat) :
  (h < 10)%nat -> (m < 100)%nat ->
  readsAs (shortClockText h m) h m
    (Tempora.parseTimeToMinutes (shortClockText h m)) = true.
Proof.
  intros Hh Hm. pose proof shortClockText_table as T.
  rewrite forallb_forall in T.
  specialize (T h (proj2 (in_seq 10 0 h) (conj (Nat.le_0_l h) Hh))).
  rewrite forallb_forall in T.
  exact (T m (proj2 (in_seq 100 0 m) (conj (Nat.le_0_l m) Hm))).
Qed.

(** X1. Of the texts [HH:MM] with two decimal digits each,
    [parseTimeToMinutes] returns 60 HH + MM exactly for the hours below
    24 with minutes below 60, and throws "Invalid time format: HH:MM" for
    all the others (24:00 and 12:60 among them). *)
Theorem parseTimeToMinutes_two_digit_hours (h m : nat) :
  (h < 100)%nat -> (m < 100)%nat ->
  ((h < 24)%nat /\ (m < 60)%nat /\
   Tempora.parseTimeToMinutes (clockText h m)
   = Tempora.Returned (60 * h + m)%nat) \/
  (~ ((h < 24)%nat /\ (m < 60)%nat) /\
   Tempora.parseTimeToMinutes (clockText h m)
   = Tempora.Thrown ("Invalid time format: " ++ clockText h m)%string).
Proof.
  intros Hh Hm. apply readsAs_spec. now apply clockText_reads.
Qed.

Lemma parseTimeToMinutes_two_digit_hours_witness :
  (23 < 100)%nat /\ (59 < 100)%nat /\
  (((23 < 24)%nat /\ (59 < 60)%nat /\
    Tempora.parseTimeToMinutes (clockText 23 59)
    = Tempora.Returned (60 * 23 + 59)%nat) \/
   (~ ((23 < 24)%nat /\ (59 < 60)%nat) /\
    Tempora.parseTimeToMinutes (clockText 23 59)
    = Tempora.Thrown ("Invalid time format: " ++ clockText 23 59)%string)).
Proof.
  assert (Hh : (23 < 100)%nat) by lia.
  assert (Hm : (59 < 100)%nat) by lia.
  split; [exact Hh|]. split; [exact Hm|].
  exact (parseTimeToMinutes_two_digit_hours 23 59 Hh Hm).
Defined.

(** A character between ["0"] and the digit of [k] is a digit up to [k]. *)
Lemma between_digit (k : nat) (c : ascii) :
  (k < 10)%nat ->
  Tempora.between "0" (digitChar k) c = true ->
  exists d, (d <= k)%nat /\ c = digitChar d.
Proof.
  intros Hk H. unfold Tempora.between in H.
  apply andb_prop in H. destruct H as (Hlo & Hhi).
  apply Nat.leb_le in Hlo, Hhi.
  unfold digitChar in Hhi. rewrite nat_ascii_embedding in Hhi by lia.
  change (nat_of_ascii "0") with 48%nat in Hlo.
  exists (nat_of_ascii c - 48)%nat. split; [lia|].
  unfold digitChar.
  replace (48 + (nat_of_ascii c - 48))%nat with (nat_of_ascii c) by lia.
  symmetry. apply ascii_nat_embedding.
Qed.

Lemma isDigit_digit (c : ascii) :
  Tempora.isDigit c = true -> exists d, (d < 10)%nat /\ c = digitChar d.
Proof.
  intros H. destruct (between_digit 9 c) as (d & Hd & Hc); [lia|exact H|].
  exists d. split; [lia | exact Hc].
Qed.

Lemma twoDigits_digits (d1 d2 : nat) :
  (d2 < 10)%nat ->
  twoDigits (10 * d1 + d2)
  = String (digitChar d1) (String (digitChar d2) EmptyString).
Proof.
  intros H. unfold twoDigits.
  rewrite <- (Nat.div_unique (10 * d1 + d2) 10 d1 d2) by lia.
  rewrite <- (Nat.mod_unique (10 * d1 + d2) 10 d1 d2) by lia.
  reflexivity.
Qed.

Lemma accepted_time_of_day (timeStr : string)
    (minutes : nat) :
  Tempora.parseTimeToMinutes timeStr = Tempora.Returned minutes ->
  (minutes <= 1439)%nat /\
  exists h m,
    (h < 24)%nat /\ (m < 60)%nat /\ minutes = (60 * h + m)%nat /\
    (timeStr = clockText h m \/
     ((h < 10)%nat /\ timeStr = shortClockText h m)).
Proof.
  intros H.
  assert (Hshape :
            exists h m, (h < 100)%nat /\ (m < 100)%nat /\
                        (timeStr = clockText h m \/
                         ((h < 10)%nat /\ timeStr = shortClockText h m))).
  { unfold Tempora.parseTimeToMinutes in H.
    destruct (Tempora.execTime timeStr) as [[hour minute]|] eqn:E;
      [clear H | discriminate H].
    unfold Tempora.execTime in E.
    destruct timeStr as [|c1 [|c2 [|c3 [|c4 [|c5 [|c6 rest]]]]]];
      try discriminate E.
    - destruct (Tempora.isDigit c1 && Ascii.eqb c2 ":"
                && Tempora.between "0" "5" c3 && Tempora.isDigit c4)
        eqn:C; [|discriminate E].
      apply andb_prop in C. destruct C as (C & H4).
      apply andb_prop in C. destruct C as (C & H3).
      apply andb_prop in C. destruct C as (H1 & H2).
      apply Ascii.eqb_eq in H2. subst c2.
      apply isDigit_digit in H1, H4.
      apply (between_digit 5) in H3; [|lia].
      destruct H1 as (d1 & Hd1 & ->). destruct H3 as (d3 & Hd3 & ->).
      destruct H4 as (d4 & Hd4 & ->).
      exists d1, (10 * d3 + d4)%nat.
      split; [lia|]. split; [lia|]. right. split; [exact Hd1|].
      unfold shortClockText. now rewrite twoDigits_digits.
    - destruct ((Tempora.between "0" "1" c1 && Tempora.isDigit c2
                 || Ascii.eqb c1 "2" && Tempora.between "0" "3" c2)
                && Ascii.eqb c3 ":" && Tempora.between "0" "5" c4
                && Tempora.isDigit c5) eqn:C; [|discriminate E].
      apply andb_prop in C. destruct C as (C & H5).
      apply andb_prop in C. destruct C as (C & H4).
      apply andb_prop in C. destruct C as (H12 & H3).
      apply Ascii.eqb_eq in H3. subst c3.
      apply isDigit_digit in H5.
      apply (between_digit 5) in H4; [|lia].
      destruct H4 as (d4 & Hd4 & ->). destruct H5 as (d5 & Hd5 & ->).
      assert (H12' : exists d1 d2, (d1 < 10)%nat /\ (d2 < 10)%nat /\
                                   c1 = digitChar d1 /\ c2 = digitChar d2).
      { apply orb_prop in H12. destruct H12 as [H12|H12];
          apply andb_prop in H12; destruct H12 as (H1 & H2).
        - apply (between_digit 1) in H1; [|lia].
          apply isDigit_digit in H2.
          destruct H1 as (d1 & Hd1 & ->). destruct H2 as (d2 & Hd2 & ->).
          exists d1, d2. repeat split; lia.
        - apply Ascii.eqb_eq in H1. subst c1.
          apply (between_digit 3) in H2; [|lia].
          destruct H2 as (d2 & Hd2 & ->).
          exists 2%nat, d2. repeat split; lia. }
      destruct H12' as (d1 & d2 & Hd1 & Hd2 & -> & ->).
      exists (10 * d1 + d2)%nat, (10 * d4 + d5)%nat.
      split; [lia|]. split; [lia|]. left.
      unfold clockText. now rewrite !twoDigits_digits. }
  destruct Hshape as (h & m & Hh & Hm & Hs).
  assert (Hread : readsAs timeStr h m (Tempora.Returned minutes) = true).
  { rewrite <- H. destruct Hs as [-> | (Hh' & ->)].
    - now apply clockText_reads.
    - now apply shortClockText_reads. }
  apply readsAs_spec in Hread.
  destruct Hread as [(Hh24 & Hm60 & Hv)|(_ & Hv)]; [|discriminate Hv].
  inversion Hv; subst minutes.
  split; [lia|]. exists h, m. repeat split; assumption.
Qed.

(** X2. [parseTimeToMinutes] returns only on the texts [HH:MM] and
    [H:MM] of an hour below 24 and a minute below 60 (the one-digit form
    for the hours below ten), and what it returns is 60 H + M, a number
    of minutes from 0 to 1439. *)
Theorem parseTimeToMinutes_accepts_times_of_day (timeStr : string)
    (minutes : nat) :
  Tempora.parseTimeToMinutes timeStr = Tempora.Returned minutes ->
  (minutes <= 1439)%nat /\
  exists h m,
    (h < 24)%nat /\ (m < 60)%nat /\ minutes = (60 * h + m)%nat /\
    (timeStr = clockText h m \/
     ((h < 10)%nat /\ timeStr = shortClockText h m)).
Proof. apply accepted_time_of_day. Qed.

Lemma parseTimeToMinutes_accepts_times_of_day_witness :
  Tempora.parseTimeToMinutes "7:05" = Tempora.Returned 425%nat /\
  (425 <= 1439)%nat /\
  exists h m,
    (h < 24)%nat /\ (m < 60)%nat /\ 425%nat = (60 * h + m)%nat /\
    ("7:05" = clockText h m \/
     ((h < 10)%nat /\ "7:05" = shortClockText h m)).
Proof.
  assert (H : Tempora.parseTimeToMinutes "7:05" = Tempora.Returned 425%nat)
    by reflexivity.
  split; [exact H|].
  exact (parseTimeToMinutes_accepts_times_of_day "7:05" 425 H).
Defined.

Lemma parseTimeToMinutes_thrown (timeStr message : string) :
  Tempora.parseTimeToMinutes timeStr = Tempora.Thrown message ->
  message = ("Invalid time format: " ++ timeStr)%string.
Proof.
  unfold Tempora.parseTimeToMinutes.
  destruct (Tempora.execTime timeStr) as [[hour minute]|]; intros H;
    [discriminate H | now inversion H].
Qed.

(** X3. For two texts that [parseTimeToMinutes] accepts,
    [calculateMinuteDifference] logs nothing and returns the first time
    minus the second in minutes: a number from -1439 to 1439, zero
    exactly when the two denote the same minute of the day, and the
    opposite number when the arguments are exchanged. *)
Theorem calculateMinuteDifference_of_times (clockTime grandClockTime : string)
    (clockMinutes grandMinutes : nat) :
  Tempora.parseTimeToMinutes clockTime = Tempora.Returned clockMinutes ->
  Tempora.parseTimeToMinutes grandClockTime
  = Tempora.Returned grandMinutes ->
  let diff := (Z.of_nat clockMinutes - Z.of_nat grandMinutes)%Z in
  Tempora.calculateMinuteDifference clockTime grandClockTime
  = ([], Some diff) /\
  Tempora.calculateMinuteDifference grandClockTime clockTime
  = ([], Some (- diff)%Z) /\
  (-1439 <= diff <= 1439)%Z /\
  (diff = 0%Z <-> clockMinutes = grandMinutes).
Proof.
  intros Hc Hg diff.
  destruct (accepted_time_of_day clockTime clockMinutes Hc) as (Hbc & _).
  destruct (accepted_time_of_day grandClockTime grandMinutes Hg)
    as (Hbg & _).
  unfold Tempora.calculateMinuteDifference. rewrite Hc, Hg.
  subst diff. repeat split; try (f_equal; f_equal; lia); lia.
Qed.

Lemma calculateMinuteDifference_of_times_witness :
  Tempora.parseTimeToMinutes "14:45" = Tempora.Returned 885%nat /\
  Tempora.parseTimeToMinutes "15:00" = Tempora.Returned 900%nat /\
  Tempora.calculateMinuteDifference "14:45" "15:00" = ([], Some (-15)%Z) /\
  Tempora.calculateMinuteDifference "15:00" "14:45"
  = ([], Some (- -15)%Z) /\
  (-1439 <= -15 <= 1439)%Z /\
  ((-15)%Z = 0%Z <-> 885%nat = 900%nat).
Proof.
  assert (Hc : Tempora.parseTimeToMinutes "14:45"
               = Tempora.Returned 885%nat) by reflexivity.
  assert (Hg : Tempora.parseTimeToMinutes "15:00"
               = Tempora.Returned 900%nat) by reflexivity.
  split; [exact Hc|]. split; [exact Hg|].
  exact (calculateMinuteDifference_of_times "14:45" "15:00" 885 900 Hc Hg).
Defined.

(** X4. [calculateMinuteDifference] returns [null] exactly when
    [parseTimeToMinutes] rejects one of its two arguments; it then logs
    one line, "Invalid time format: " followed by the first rejected
    argument (the clock time is read first), and the second argument is
    not reported when both are rejected. *)
Theorem calculateMinuteDifference_null (clockTime grandClockTime : string) :
  let rejected t := exists message,
      Tempora.parseTimeToMinutes t = Tempora.Thrown message in
  (snd (Tempora.calculateMinuteDifference clockTime grandClockTime) = None
   <-> rejected clockTime \/ rejected grandClockTime) /\
  (rejected clockTime ->
   Tempora.calculateMinuteDifference clockTime grandClockTime
   = ([("Invalid time format: " ++ clockTime)%string], None)) /\
  (~ rejected clockTime -> rejected grandClockTime ->
   Tempora.calculateMinuteDifference clockTime grandClockTime
   = ([("Invalid time format: " ++ grandClockTime)%string], None)).
Proof.
  intros rejected. subst rejected. cbv beta.
  unfold Tempora.calculateMinuteDifference.
  destruct (Tempora.parseTimeToMinutes clockTime) as [c|mc] eqn:Hc;
    destruct (Tempora.parseTimeToMinutes grandClockTime) as [g|mg] eqn:Hg;
    simpl.
  - split; [|split].
    + split; [discriminate|]. intros [(m & H)|(m & H)]; discriminate H.
    + intros (m & H). discriminate H.
    + intros _ (m & H). discriminate H.
  - apply parseTimeToMinutes_thrown in Hg as ->.
    split; [|split].
    + split; [|reflexivity]. intros _. right. now eexists.
    + intros (m & H). discriminate H.
    + reflexivity.
  - apply parseTimeToMinutes_thrown in Hc as ->.
    split; [|split].
    + split; [|reflexivity]. intros _. left. now eexists.
    + reflexivity.
    + intros Hn. exfalso. apply Hn. now eexists.
  - apply parseTimeToMinutes_thrown in Hc as ->.
    split; [|split].
    + split; [|reflexivity]. intros _. left. now eexists.
    + reflexivity.
    + intros Hn. exfalso. apply Hn. now eexists.
Qed.


(** ** The enhanced calculator: results, icons and summary *)

(** Every field of the result at a position, read off the sorted
    sequence. *)
Lemma calculateLightIntensity_fields (planets : list Planet)
    (results : list Lumoria.Result) (i : nat) (r : Lumoria.Result) :
  Lumoria.calculateLightIntensity planets = Some results ->
  nth_error results i = Some r ->
  let sorted := sortByDistance planets in
  exists body,
    nth_error sorted i = Some body /\
    bodyOfResult r = body /\
    Lumoria.res_shadowCount r = List.length (largerCloser sorted i body) /\
    Lumoria.res_light r
    = Lumoria.getLightIntensity i (Lumoria.res_shadowCount r) sorted i /\
    Lumoria.res_largerPlanetsInFront r
    = List.length (filter (fun p => Js.gt (size p) (size body))
                          (firstn i sorted)) /\
    Lumoria.res_smallerPlanetsInFront r
    = List.length (filter (fun p => Js.le (size p) (size body))
                          (firstn i sorted)).
Proof.
  intros Hr Hn sorted. subst sorted.
  unfold Lumoria.calculateLightIntensity, Js.map in Hr.
  pose proof (mapFrom_length _ _ _ Hr) as Hlen.
  destruct (nth_error (sortByDistance planets) i) as [body|] eqn:Hi.
  - destruct (mapFrom_nth _ _ _ _ Hr Hi) as (y & Hy & Hny).
    rewrite Hn in Hny. inversion Hny; subst y; clear Hny.
    simpl in Hy. rewrite (getShadowCount_at _ _ Hi) in Hy. simpl in Hy.
    inversion Hy; subst r; clear Hy. simpl.
    exists body. repeat split. now destruct body.
  - apply nth_error_None in Hi. rewrite <- Hlen in Hi.
    apply nth_error_None in Hi. congruence.
Qed.

Lemma filter_split_length {A : Type} (f : A -> bool) (l : list A) :
  (List.length (filter f l)
   + List.length (filter (fun x => negb (f x)) l))%nat
  = List.length l.
Proof.
  induction l as [|x rest IH]; [reflexivity|].
  simpl. destruct (f x); simpl; lia.
Qed.

(** X5. In every result of [calculateLightIntensity], [shadowCount]
    equals [largerPlanetsInFront], and [largerPlanetsInFront] and
    [smallerPlanetsInFront] add up to the position of the result: every
    body in front is counted once, as larger or as not larger (an equal
    size counts as smaller). *)
Theorem planets_in_front_are_counted_once (planets : list Planet)
    (results : list Lumoria.Result) (i : nat) (r : Lumoria.Result) :
  Lumoria.calculateLightIntensity planets = Some results ->
  nth_error results i = Some r ->
  Lumoria.res_shadowCount r = Lumoria.res_largerPlanetsInFront r /\
  (Lumoria.res_largerPlanetsInFront r
   + Lumoria.res_smallerPlanetsInFront r)%nat = i.
Proof.
  intros Hr Hn.
  destruct (calculateLightIntensity_fields planets results i r Hr Hn)
    as (body & Hi & _ & Hc & _ & Hl & Hs).
  split; [now rewrite Hc, Hl|].
  rewrite Hl, Hs.
  rewrite (filter_ext (fun p => Js.le (size p) (size body))
             (fun p => negb (Js.gt (size p) (size body)))).
  - rewrite filter_split_length. apply firstn_length_le.
    apply Nat.lt_le_incl, nth_error_Some. congruence.
  - intros p. unfold Js.gt, Js.le. now rewrite negb_involutive.
Qed.

Lemma planets_in_front_are_counted_once_witness :
  let results :=
    [ Lumoria.mkResult "Mercuria" "Full" 0.4 4879 0 0 0;
      Lumoria.mkResult "Venusia" "Partial" 0.7 12104 0 0 1;
      Lumoria.mkResult "Earthia" "Partial" 1 12742 0 0 2;
      Lumoria.mkResult "Marsia" "None (Multiple Shadows)" 1.5 6779 2 2 1 ] in
  let marsia :=
    Lumoria.mkResult "Marsia" "None (Multiple Shadows)" 1.5 6779 2 2 1 in
  Lumoria.calculateLightIntensity Lumoria.defaultLumoriaPlanets
  = Some results /\
  Lumoria.res_shadowCount marsia = Lumoria.res_largerPlanetsInFront marsia /\
  (Lumoria.res_largerPlanetsInFront marsia
   + Lumoria.res_smallerPlanetsInFront marsia)%nat = 3%nat.
Proof.
  intros results marsia.
  assert (Hr : Lumoria.calculateLightIntensity Lumoria.defaultLumoriaPlanets
               = Some results) by (vm_compute; reflexivity).
  split; [exact Hr|].
  exact (planets_in_front_are_counted_once Lumoria.defaultLumoriaPlanets
           results 3 marsia Hr eq_refl).
Defined.

(** The label of a result is one of the four, and Full at position 0
    only. *)
Lemma result_label (planets : list Planet) (results : list Lumoria.Result)
    (i : nat) (r : Lumoria.Result) :
  Lumoria.calculateLightIntensity planets = Some results ->
  nth_error results i = Some r ->
  (i = 0%nat /\ Lumoria.res_light r = "Full") \/
  (i <> 0%nat /\
   (Lumoria.res_light r = "Partial" \/ Lumoria.res_light r = "None" \/
    Lumoria.res_light r = "None (Multiple Shadows)")).
Proof.
  intros Hr Hn.
  destruct (calculateLightIntensity_fields planets results i r Hr Hn)
    as (body & _ & _ & _ & Hl & _).
  rewrite Hl. unfold Lumoria.getLightIntensity.
  destruct i as [|i]; [left; now split|]. right. split; [discriminate|].
  cbn [Nat.eqb].
  destruct (Lumoria.res_shadowCount r =? 1)%nat; [now (right; left)|].
  destruct (1 <? Lumoria.res_shadowCount r)%nat; [now (right; right)|].
  now left.
Qed.

(** X6. Every label that [calculateLightIntensity] assigns is one of
    Full, Partial, None and None (Multiple Shadows), so [getLightIcon]
    never falls to its default on a result: the icon is the sun for
    Full, the sun behind a cloud for Partial and the new moon for both
    None labels, never the question mark. *)
Theorem every_result_has_a_known_icon (planets : list Planet)
    (results : list Lumoria.Result) (r : Lumoria.Result) :
  Lumoria.calculateLightIntensity planets = Some results ->
  In r results ->
  let icon := LumoriaDisplay.getLightIcon (Lumoria.res_light r) in
  icon <> "❓" /\
  ((Lumoria.res_light r = "Full" /\ icon = "☀️") \/
   (Lumoria.res_light r = "Partial" /\ icon = "🌤️") \/
   ((Lumoria.res_light r = "None" \/
     Lumoria.res_light r = "None (Multiple Shadows)") /\ icon = "🌑")).
Proof.
  intros Hr Hin icon. subst icon.
  apply In_nth_error in Hin. destruct Hin as (i & Hn).
  destruct (result_label planets results i r Hr Hn)
    as [(_ & ->)|(_ & [->|[->| ->]])]; (split; [discriminate|]).
  - left. now split.
  - right; left. now split.
  - right; right. split; [now left | reflexivity].
  - right; right. split; [now right | reflexivity].
Qed.

Lemma every_result_has_a_known_icon_witness :
  let results :=
    [ Lumoria.mkResult "Twin1" "Full" 1.0 8000 0 0 0;
      Lumoria.mkResult "Twin2" "Partial" 1.0 12000 0 0 1 ] in
  let twin2 := Lumoria.mkResult "Twin2" "Partial" 1.0 12000 0 0 1 in
  let icon := LumoriaDisplay.getLightIcon (Lumoria.res_light twin2) in
  Lumoria.calculateLightIntensity
    [ mkPlanet "Twin1" 1.0 8000; mkPlanet "Twin2" 1.0 12000 ]
  = Some results /\
  In twin2 results /\
  icon <> "❓" /\
  ((Lumoria.res_light twin2 = "Full" /\ icon = "☀️") \/
   (Lumoria.res_light twin2 = "Partial" /\ icon = "🌤️") \/
   ((Lumoria.res_light twin2 = "None" \/
     Lumoria.res_light twin2 = "None (Multiple Shadows)") /\ icon = "🌑")).
Proof.
  intros results twin2 icon.
  assert (Hr : Lumoria.calculateLightIntensity
                 [ mkPlanet "Twin1" 1.0 8000; mkPlanet "Twin2" 1.0 12000 ]
               = Some results) by (vm_compute; reflexivity).
  assert (Hin : In twin2 results) by (right; left; reflexivity).
  split; [exact Hr|]. split; [exact Hin|].
  exact (every_result_has_a_known_icon _ results twin2 Hr Hin).
Defined.

(** One step of the tally: the label counted gains one, the others keep
    their counts, and no label gets a second entry. *)
Lemma countOf_count (acc : list (string * nat)) (light label : string) :
  countOf (LumoriaDisplay.count acc light) label
  = if String.eqb light label then S (countOf acc label)
    else countOf acc label.
Proof.
  induction acc as [|[k n] rest IH]; simpl.
  - destruct (String.eqb light label); reflexivity.
  - destruct (String.eqb k light) eqn:Ek; simpl.
    + apply String.eqb_eq in Ek. subst k.
      destruct (String.eqb light label); [lia | reflexivity].
    + destruct (String.eqb k label) eqn:Ekl; [|exact IH].
      apply String.eqb_eq in Ekl. subst k.
      now rewrite String.eqb_sym, Ek.
Qed.

Lemma count_keys (acc : list (string * nat)) (light label : string) :
  In label (List.map fst (LumoriaDisplay.count acc light)) <->
  label = light \/ In label (List.map fst acc).
Proof.
  induction acc as [|[k n] rest IH]; simpl.
  - intuition.
  - destruct (String.eqb k light) eqn:Ek; simpl.
    + apply String.eqb_eq in Ek. subst k. intuition.
    + rewrite IH. intuition.
Qed.

Lemma count_NoDup (acc : list (string * nat)) (light : string) :
  NoDup (List.map fst acc) ->
  NoDup (List.map fst (LumoriaDisplay.count acc light)).
Proof.
  induction acc as [|[k n] rest IH]; simpl; intros H.
  - repeat constructor. intros [].
  - inversion H as [|? ? Hk Hrest]; subst.
    destruct (String.eqb k light) eqn:Ek; simpl.
    + now constructor.
    + constructor; [|now apply IH].
      rewrite count_keys. intros [Heq|Hin]; [|contradiction].
      subst. now rewrite String.eqb_refl in Ek.
Qed.

Lemma countOf_In (acc : list (string * nat)) (label : string) (n : nat) :
  NoDup (List.map fst acc) ->
  In (label, n) acc -> countOf acc label = n.
Proof.
  induction acc as [|[k m] rest IH]; simpl; intros Hnd Hin; [contradiction|].
  inversion Hnd as [|? ? Hk Hrest]; subst.
  destruct Hin as [Heq|Hin].
  - inversion Heq; subst. now rewrite String.eqb_refl.
  - destruct (String.eqb k label) eqn:Ek; [|now apply IH].
    apply String.eqb_eq in Ek. subst k. exfalso. apply Hk.
    change label with (fst (label, n)). now apply in_map.
Qed.

Lemma countOf_key (acc : list (string * nat)) (label : string) :
  In label (List.map fst acc) -> In (label, countOf acc label) acc.
Proof.
  induction acc as [|[k m] rest IH]; simpl; intros Hin; [contradiction|].
  destruct (String.eqb k label) eqn:Ek.
  - apply String.eqb_eq in Ek. subst k. now left.
  - destruct Hin as [->|Hin]; [now rewrite String.eqb_refl in Ek|].
    right. now apply IH.
Qed.

Lemma summary_spec (results : list Lumoria.Result) :
  NoDup (List.map fst (LumoriaDisplay.summary results)) /\
  (forall label,
      countOf (LumoriaDisplay.summary results) label
      = List.length (labelled label results)) /\
  (forall label,
      In label (List.map fst (LumoriaDisplay.summary results)) <->
      exists r, In r results /\ Lumoria.res_light r = label).
Proof.
  unfold LumoriaDisplay.summary, labelled.
  induction results as [|r rest IH] using rev_ind.
  - simpl. split; [constructor|]. split; [reflexivity|].
    intros label. split; [intros [] | intros (r & [] & _)].
  - destruct IH as (Hnd & Hcount & Hkeys).
    rewrite fold_left_app. simpl. split; [|split].
    + now apply count_NoDup.
    + intros label. rewrite countOf_count, Hcount, filter_app, length_app.
      simpl. destruct (String.eqb (Lumoria.res_light r) label); simpl; lia.
    + intros label. rewrite count_keys, Hkeys. split.
      * intros [->|(x & Hx & Hl)].
        -- exists r. split; [|reflexivity]. apply in_or_app. right. now left.
        -- exists x. split; [|exact Hl]. apply in_or_app. now left.
      * intros (x & Hx & Hl). apply in_app_or in Hx.
        destruct Hx as [Hx|[->|[]]]; [right; now exists x | now left].
Qed.

(** X7. The summary that [displaySummary] tallies has one entry per
    label that occurs among the results, none for a label that does not,
    and the count of an entry is the number of results with that label
    (at least one). *)
Theorem summary_counts_each_label (results : list Lumoria.Result) :
  NoDup (List.map fst (LumoriaDisplay.summary results)) /\
  forall label n,
    In (label, n) (LumoriaDisplay.summary results) <->
    (n = List.length (labelled label results) /\ (0 < n)%nat).
Proof.
  destruct (summary_spec results) as (Hnd & Hcount & Hkeys).
  split; [exact Hnd|]. intros label n. split.
  - intros Hin. pose proof (countOf_In _ _ _ Hnd Hin) as Hc.
    rewrite Hcount in Hc. split; [now symmetry|].
    assert (Hk : In label (List.map fst (LumoriaDisplay.summary results))).
    { change label with (fst (label, n)). now apply in_map. }
    apply Hkeys in Hk. destruct Hk as (r & Hr & Hl).
    rewrite <- Hc. unfold labelled.
    assert (Hf : In r (filter (fun x => String.eqb (Lumoria.res_light x) label)
                              results)).
    { apply filter_In. split; [exact Hr|]. now apply String.eqb_eq. }
    destruct (filter _ results); [contradiction | simpl; lia].
  - intros (-> & Hpos). rewrite <- Hcount. apply countOf_key.
    apply Hkeys. unfold labelled in Hpos.
    destruct (filter (fun r => String.eqb (Lumoria.res_light r) label)
                     results) as [|r rest] eqn:E; [simpl in Hpos; lia|].
    assert (Hin : In r (filter (fun r => String.eqb (Lumoria.res_light r) label)
                               results)) by (rewrite E; now left).
    apply filter_In in Hin. destruct Hin as (Hin & Hl).
    exists r. split; [exact Hin | now apply String.eqb_eq].
Qed.

Lemma pop_In {A : Type} (arr : list A) (x : A) :
  LumoriaDisplay.pop arr = Some x -> In x arr.
Proof.
  induction arr as [|a rest IH]; simpl; intros H; [discriminate|].
  destruct rest as [|b rest']; [inversion H; now left|].
  right. now apply IH.
Qed.

Lemma pop_None {A : Type} (arr : list A) :
  LumoriaDisplay.pop arr = None -> arr = [].
Proof.
  induction arr as [|a rest IH]; simpl; intros H; [reflexivity|].
  destruct rest as [|b rest']; [discriminate|].
  specialize (IH H). discriminate IH.
Qed.

Lemma calculateLightIntensity_length (planets : list Planet)
    (results : list Lumoria.Result) :
  Lumoria.calculateLightIntensity planets = Some results ->
  List.length results = List.length planets.
Proof.
  intros Hr. unfold Lumoria.calculateLightIntensity, Js.map in Hr.
  rewrite (mapFrom_length _ _ _ Hr). apply sortByDistance_length.
Qed.

(** X8. On the results of [calculateLightIntensity], [displaySummary]
    names a most affected planet exactly when the system has two planets
    or more.  The planet named is never a Full one; it has multiple
    shadows if any result has, and otherwise is not a Partial one if any
    result is labelled None.  The summary then has one more line. *)
Theorem most_affected_planet (planets : list Planet)
    (results : list Lumoria.Result) :
  Lumoria.calculateLightIntensity planets = Some results ->
  (LumoriaDisplay.mostAffected results = None
   <-> (List.length planets <= 1)%nat) /\
  (forall m,
      LumoriaDisplay.mostAffected results = Some m ->
      In m results /\
      Lumoria.res_light m <> "Full" /\
      ((exists r, In r results /\
                  Lumoria.res_light r = "None (Multiple Shadows)") ->
       Lumoria.res_light m = "None (Multiple Shadows)") /\
      ((exists r, In r results /\ Lumoria.res_light r = "None") ->
       Lumoria.res_light m <> "Partial")) /\
  List.length (LumoriaDisplay.displaySummary results)
  = (2 + List.length (LumoriaDisplay.summary results)
     + (if (List.length planets <=? 1)%nat then 0 else 1))%nat.
Proof.
  intros Hr.
  assert (Hlabel : forall r, In r results ->
            Lumoria.res_light r = "Full" \/ Lumoria.res_light r = "Partial" \/
            Lumoria.res_light r = "None" \/
            Lumoria.res_light r = "None (Multiple Shadows)").
  { intros r Hin. apply In_nth_error in Hin. destruct Hin as (i & Hn).
    destruct (result_label planets results i r Hr Hn)
      as [(_ & H)|(_ & [H|[H|H]])]; auto. }
  assert (Hsome : forall m,
            LumoriaDisplay.mostAffected results = Some m ->
            In m results /\
            Lumoria.res_light m <> "Full" /\
            ((exists r, In r results /\
                        Lumoria.res_light r = "None (Multiple Shadows)") ->
             Lumoria.res_light m = "None (Multiple Shadows)") /\
            ((exists r, In r results /\ Lumoria.res_light r = "None") ->
             Lumoria.res_light m <> "Partial")).
  { intros m Hm. unfold LumoriaDisplay.mostAffected in Hm.
    destruct (find (fun r => LumoriaDisplay.includes "Multiple Shadows"
                               (Lumoria.res_light r)) results)
      as [a|] eqn:Ea.
    - inversion Hm; subst a; clear Hm.
      apply find_some in Ea. destruct Ea as (Hin & Hinc).
      assert (Hl : Lumoria.res_light m = "None (Multiple Shadows)").
      { destruct (Hlabel m Hin) as [H|[H|[H|H]]]; rewrite H in Hinc;
          try discriminate Hinc; exact H. }
      rewrite Hl. repeat split; try discriminate; auto.
    - destruct (find (fun r => String.eqb (Lumoria.res_light r) "None")
                     results) as [b|] eqn:Eb.
      + inversion Hm; subst b; clear Hm.
        apply find_some in Eb. destruct Eb as (Hin & Hl).
        apply String.eqb_eq in Hl. rewrite Hl.
        repeat split; try discriminate; auto.
        intros (r & Hrin & Hrl).
        pose proof (find_none _ _ Ea r Hrin) as Hn. simpl in Hn.
        rewrite Hrl in Hn. discriminate Hn.
      + apply pop_In in Hm. apply filter_In in Hm.
        destruct Hm as (Hin & Hl). apply String.eqb_eq in Hl. rewrite Hl.
        repeat split; try discriminate; auto.
        * intros (r & Hrin & Hrl).
          pose proof (find_none _ _ Ea r Hrin) as Hn. simpl in Hn.
          rewrite Hrl in Hn. discriminate Hn.
        * intros (r & Hrin & Hrl).
          pose proof (find_none _ _ Eb r Hrin) as Hn. simpl in Hn.
          rewrite Hrl in Hn. discriminate Hn. }
  assert (Hnone : LumoriaDisplay.mostAffected results = None
                  <-> (List.length planets <= 1)%nat).
  { pose proof (calculateLightIntensity_length planets results Hr) as Hlen.
    split.
    - intros Hm. destruct (Nat.le_gt_cases (List.length planets) 1) as [|Hgt];
        [assumption|exfalso].
      destruct (nth_error results 1) as [r|] eqn:Hn;
        [|apply nth_error_None in Hn; lia].
      pose proof (nth_error_In _ _ Hn) as Hin.
      unfold LumoriaDisplay.mostAffected in Hm.
      destruct (find (fun r => LumoriaDisplay.includes "Multiple Shadows"
                                 (Lumoria.res_light r)) results)
        eqn:Ea; [discriminate Hm|].
      destruct (find (fun r => String.eqb (Lumoria.res_light r) "None")
                     results) eqn:Eb; [discriminate Hm|].
      apply pop_None in Hm.
      pose proof (find_none _ _ Ea r Hin) as Na.
      pose proof (find_none _ _ Eb r Hin) as Nb.
      simpl in Na, Nb.
      destruct (result_label planets results 1 r Hr Hn)
        as [(H0 & _)|(_ & [H|[H|H]])]; [discriminate H0| | |].
      + assert (Hf : In r (filter (fun r => String.eqb (Lumoria.res_light r)
                                                       "Partial") results)).
        { apply filter_In. split; [exact Hin|]. now rewrite H. }
        rewrite Hm in Hf. contradiction.
      + rewrite H in Nb. discriminate Nb.
      + rewrite H in Na. discriminate Na.
    - intros Hle. destruct results as [|r0 [|r1 rest]];
        [reflexivity | | simpl in Hlen; lia].
      destruct (result_label planets [r0] 0 r0 Hr eq_refl)
        as [(_ & H)|(H0 & _)]; [|contradiction].
      unfold LumoriaDisplay.mostAffected. simpl. now rewrite H. }
  split; [exact Hnone|]. split; [exact Hsome|].
  unfold LumoriaDisplay.displaySummary.
  rewrite !length_app, length_map. simpl.
  destruct (LumoriaDisplay.mostAffected results) as [m|] eqn:Em.
  - destruct (Nat.leb_spec (List.length planets) 1) as [Hle|Hgt];
      [|simpl; lia].
    apply Hnone in Hle. discriminate Hle.
  - destruct (Nat.leb_spec (List.length planets) 1) as [Hle|Hgt];
      [simpl; lia|].
    assert (Hle : (List.length planets <= 1)%nat) by now apply Hnone.
    lia.
Qed.

Lemma most_affected_planet_witness :
  let results :=
    [ Lumoria.mkResult "Mercuria" "Full" 0.4 4879 0 0 0;
      Lumoria.mkResult "Venusia" "Partial" 0.7 12104 0 0 1;
      Lumoria.mkResult "Earthia" "Partial" 1 12742 0 0 2;
      Lumoria.mkResult "Marsia" "None (Multiple Shadows)" 1.5 6779 2 2 1 ] in
  Lumoria.calculateLightIntensity Lumoria.defaultLumoriaPlanets
  = Some results /\
  LumoriaDisplay.mostAffected results
  = Some (Lumoria.mkResult "Marsia" "None (Multiple Shadows)" 1.5 6779 2 2 1)
  /\
  List.length (LumoriaDisplay.displaySummary results)
  = (2 + List.length (LumoriaDisplay.summary results)
     + (if (List.length Lumoria.defaultLumoriaPlanets <=? 1)%nat
        then 0 else 1))%nat.
Proof.
  intros results.
  assert (Hr : Lumoria.calculateLightIntensity Lumoria.defaultLumoriaPlanets
               = Some results) by (vm_compute; reflexivity).
  split; [exact Hr|]. split; [reflexivity|].
  exact (proj2 (proj2 (most_affected_planet Lumoria.defaultLumoriaPlanets
                         results Hr))).
Defined.

(** ** The scientific variant: light values and shadow details *)

(** The clamped total of an analysis is the clamped sum of its recorded
    intensities. *)
Lemma analysis_total (planets : list Planet) (i : nat) (body : Planet)
    (a : ScientificShadow.ShadowAnalysis) :
  nth_error planets i = Some body ->
  ScientificShadow.getScientificShadowAnalysis planets i = Some a ->
  ScientificShadow.totalShadowIntensity a
  == Qmin (sumQ (List.map ScientificShadow.detail_intensity
                          (ScientificShadow.shadowDetails a))) 1.
Proof.
  intros Hi Ha. unfold ScientificShadow.getScientificShadowAnalysis in Ha.
  destruct i as [|i]; cbn [Nat.eqb] in Ha.
  - inversion Ha; subst a. reflexivity.
  - rewrite Hi in Ha. injection Ha as Ha. subst a.
    destruct (forEach_casters body (largerCloser planets (S i) body) ([], 0))
      as (Hd & Ht).
    cbn [fst snd app] in Hd, Ht.
    assert (G : Qmin (snd (fold_left (ScientificShadow.analyzeCaster body)
                             (largerCloser planets (S i) body) ([], 0))) 1
                == Qmin (sumQ (List.map ScientificShadow.detail_intensity
                                 (fst (fold_left
                                         (ScientificShadow.analyzeCaster body)
                                         (largerCloser planets (S i) body)
                                         ([], 0))))) 1).
    { rewrite Hd. apply Q.min_compat; [|reflexivity]. rewrite Ht. lra. }
    exact G.
Qed.

(** Every field of a scientific result that depends on the analysis, read
    off the sorted sequence. *)
Lemma calculateScientificLightIntensity_fields (planets : list Planet)
    (results : list ScientificShadow.Result) (i : nat)
    (r : ScientificShadow.Result) :
  ScientificShadow.calculateScientificLightIntensity planets = Some results ->
  nth_error results i = Some r ->
  let sorted := sortByDistance planets in
  exists body total,
    nth_error sorted i = Some body /\
    bodyOfScientific r = body /\
    ScientificShadow.res_angularSize r
    = ScientificShadow.calculateAngularSize (size body) (distance body) /\
    ScientificShadow.res_shadowCount r
    = List.length (largerCloser sorted i body) /\
    followsRule i (ScientificShadow.res_shadowCount r)
                (ScientificShadow.res_light r) /\
    ScientificShadow.res_shadowDetails r
    = List.map (detailOf body) (shadowCasters sorted i body) /\
    total = sumQ (List.map ScientificShadow.detail_intensity
                           (ScientificShadow.res_shadowDetails r)) /\
    ScientificShadow.res_totalShadowIntensity r == Qmin total 1 /\
    ScientificShadow.res_scientificLightIntensity r == 1 - Qmin total 1.
Proof.
  intros Hr Hn sorted. subst sorted.
  unfold ScientificShadow.calculateScientificLightIntensity, Js.map in Hr.
  pose proof (mapFrom_length _ _ _ Hr) as Hlen.
  destruct (nth_error (sortByDistance planets) i) as [body|] eqn:Hi.
  2:{ apply nth_error_None in Hi. rewrite <- Hlen in Hi.
      apply nth_error_None in Hi. congruence. }
  destruct (mapFrom_nth _ _ _ _ Hr Hi) as (y & Hy & Hny).
  rewrite Hn in Hny. inversion Hny; subst y; clear Hny.
  cbn [plus] in Hy.
  destruct (getScientificShadowAnalysis_casters _ _ _ Hi)
    as (a & Ha & Hdet & Hlight & _).
  destruct (getScientificShadowAnalysis_at _ _ Hi) as (a' & Ha' & Hcount).
  rewrite Ha in Ha'. inversion Ha'; subst a'; clear Ha'.
  pose proof (analysis_total _ _ _ _ Hi Ha) as Htotal.
  rewrite Ha in Hy. cbn [Js.bind] in Hy.
  inversion Hy; subst r; clear Hy.
  exists body,
    (sumQ (List.map ScientificShadow.detail_intensity
                    (ScientificShadow.shadowDetails a))).
  cbn [ScientificShadow.res_angularSize ScientificShadow.res_shadowCount
       ScientificShadow.res_light ScientificShadow.res_shadowDetails
       ScientificShadow.res_totalShadowIntensity
       ScientificShadow.res_scientificLightIntensity].
  split; [reflexivity|]. split; [now destruct body|].
  split; [reflexivity|]. split; [exact Hcount|].
  split; [apply getScientificLightIntensity_followsRule|].
  split; [exact Hdet|]. split; [reflexivity|].
  split; [exact Htotal | exact Hlight].
Qed.

(** X9. A body that the scientific variant labels Full or Partial has
    no larger body in front: its [shadowCount] is 0, its [shadowDetails]
    are empty, its [totalShadowIntensity] is 0 and its
    [scientificLightIntensity] is 1.  A Partial body is reported at 100%
    light. *)
Theorem full_and_partial_bodies_are_fully_lit (planets : list Planet)
    (results : list ScientificShadow.Result) (r : ScientificShadow.Result) :
  ScientificShadow.calculateScientificLightIntensity planets = Some results ->
  In r results ->
  ScientificShadow.res_light r = "Full" \/
  ScientificShadow.res_light r = "Partial" ->
  ScientificShadow.res_shadowCount r = 0%nat /\
  ScientificShadow.res_shadowDetails r = [] /\
  ScientificShadow.res_totalShadowIntensity r == 0 /\
  ScientificShadow.res_scientificLightIntensity r == 1.
Proof.
  intros Hr Hin Hlabel.
  apply In_nth_error in Hin. destruct Hin as (i & Hn).
  destruct (calculateScientificLightIntensity_fields planets results i r
              Hr Hn)
    as (body & total & Hi & _ & _ & Hc & Hrule & Hd & Ht & Htot & Hlight).
  assert (Hzero : ScientificShadow.res_shadowCount r = 0%nat).
  { destruct Hrule as (_ & H1 & Hm & _).
    destruct (Nat.eq_dec i 0) as [->|Hi0].
    - rewrite Hc. reflexivity.
    - destruct (ScientificShadow.res_shadowCount r) as [|[|n]];
        [reflexivity | |].
      + rewrite (H1 Hi0 eq_refl) in Hlabel.
        destruct Hlabel as [H|H]; discriminate H.
      + rewrite (Hm Hi0 ltac:(lia)) in Hlabel.
        destruct Hlabel as [H|H]; discriminate H. }
  assert (Hcasters : shadowCasters (sortByDistance planets) i body = []).
  { unfold shadowCasters. rewrite Hzero in Hc.
    destruct (largerCloser (sortByDistance planets) i body);
      [reflexivity | discriminate Hc]. }
  rewrite Hcasters in Hd. simpl in Hd. rewrite Hd in Ht. simpl in Ht.
  subst total. split; [exact Hzero|]. split; [exact Hd|].
  split; [rewrite Htot | rewrite Hlight]; reflexivity.
Qed.

Lemma full_and_partial_bodies_are_fully_lit_witness :
  let giant :=
    ScientificShadow.mkResult "Giant" 1.0 100000 "Partial" 1 0 0 []
      (ScientificShadow.calculateAngularSize 100000 1.0) in
  exists results,
    ScientificShadow.calculateScientificLightIntensity
      [ mkPlanet "Dust" 0.5 10; mkPlanet "Giant" 1.0 100000 ] = Some results /\
    In giant results /\
    ScientificShadow.res_shadowCount giant = 0%nat /\
    ScientificShadow.res_shadowDetails giant = [] /\
    ScientificShadow.res_totalShadowIntensity giant == 0 /\
    ScientificShadow.res_scientificLightIntensity giant == 1.
Proof.
  intros giant.
  destruct (ScientificShadow.calculateScientificLightIntensity
              [ mkPlanet "Dust" 0.5 10; mkPlanet "Giant" 1.0 100000 ])
    as [results|] eqn:Hr; [|discriminate Hr].
  exists results. split; [reflexivity|].
  assert (Hin : In giant results).
  { vm_compute in Hr. inversion Hr. right. left. reflexivity. }
  split; [exact Hin|].
  exact (full_and_partial_bodies_are_fully_lit _ results giant Hr Hin
           (or_intror eq_refl)).
Defined.

Lemma clamp_light (total : Q) :
  (total == 0 -> 1 - Qmin total 1 == 1) /\
  (total == 0.6 -> 1 - Qmin total 1 == 0.4) /\
  (1 <= total -> 1 - Qmin total 1 == 0).
Proof.
  repeat split; intros H;
    destruct (Q.min_spec total 1) as [[? E]|[? E]]; rewrite E; lra.
Qed.

(** X10. The scientific light value takes three values only.  It is 1
    when the body has no shadow caster (no strictly larger, strictly
    closer body in front of it among the results); with exactly one caster it is 0 when the
    shadow recorded for the caster is a complete one and 0.4 when it is a
    partial one; with two casters or more it is 0. *)
Theorem scientific_light_is_1_or_04_or_0 (planets : list Planet)
    (results : list ScientificShadow.Result) (i : nat)
    (r : ScientificShadow.Result) :
  ScientificShadow.calculateScientificLightIntensity planets = Some results ->
  nth_error results i = Some r ->
  let body := bodyOfScientific r in
  let casters :=
    shadowCasters (List.map bodyOfScientific results) i body in
  let details := ScientificShadow.res_shadowDetails r in
  let light := ScientificShadow.res_scientificLightIntensity r in
  List.map ScientificShadow.caster details = List.map name casters /\
  (casters = [] -> light == 1) /\
  (forall c, casters = [c] ->
             exists d,
               details = [d] /\
               ((ScientificShadow.detail_type d = "complete" /\ light == 0) \/
                (ScientificShadow.detail_type d = "partial" /\
                 light == 0.4))) /\
  ((2 <= List.length casters)%nat -> light == 0) /\
  (light == 1 \/ light == 0.4 \/ light == 0).
Proof.
  intros Hr Hn body casters details light.
  assert (Hsm : List.map bodyOfScientific results = sortByDistance planets).
  { destruct (calculateScientificLightIntensity_at planets)
      as (results' & Hr' & Hsm & _).
    rewrite Hr in Hr'. inversion Hr'. exact Hsm. }
  destruct (calculateScientificLightIntensity_fields planets results i r
              Hr Hn)
    as (b & total & Hi & Hb & _ & _ & _ & Hd & Ht & _ & Hlight).
  subst body casters details light. rewrite Hsm, Hb. rewrite Hd in Ht.
  assert (Htier : forall c,
            In c (shadowCasters (sortByDistance planets) i b) ->
            (ScientificShadow.detail_type (detailOf b c) = "complete" /\
             ScientificShadow.detail_intensity (detailOf b c) = 1) \/
            (ScientificShadow.detail_type (detailOf b c) = "partial" /\
             ScientificShadow.detail_intensity (detailOf b c) = 0.6)).
  { intros c Hc. apply shadowCasters_In in Hc.
    destruct Hc as (_ & Hs & Hdist).
    exact (proj2 (larger_caster_detail c b Hs Hdist)). }
  destruct (clamp_light total) as (C0 & C6 & C1).
  assert (Hempty : shadowCasters (sortByDistance planets) i b = [] ->
                   ScientificShadow.res_scientificLightIntensity r == 1).
  { intros E. rewrite E in Ht. unfold sumQ in Ht.
    cbn [List.map fold_right] in Ht. rewrite Hlight.
    apply C0. rewrite Ht. reflexivity. }
  assert (Hone : forall c,
            shadowCasters (sortByDistance planets) i b = [c] ->
            (ScientificShadow.detail_type (detailOf b c) = "complete" /\
             ScientificShadow.res_scientificLightIntensity r == 0) \/
            (ScientificShadow.detail_type (detailOf b c) = "partial" /\
             ScientificShadow.res_scientificLightIntensity r == 0.4)).
  { intros c E. rewrite E in Ht, Htier. unfold sumQ in Ht.
    cbn [List.map fold_right] in Ht.
    destruct (Htier c (or_introl eq_refl)) as [(Hty & Hv)|(Hty & Hv)];
      rewrite Hv in Ht; [left | right]; (split; [exact Hty|]);
      rewrite Hlight; [apply C1 | apply C6]; rewrite Ht; lra. }
  assert (Hmany : (2 <= List.length
                          (shadowCasters (sortByDistance planets) i b))%nat ->
                  ScientificShadow.res_scientificLightIntensity r == 0).
  { intros Hlen.
    destruct (shadowCasters (sortByDistance planets) i b)
      as [|c1 [|c2 rest]]; [simpl in Hlen; lia | simpl in Hlen; lia|].
    pose proof (detail_intensity_nonneg b rest) as Hrest.
    unfold sumQ in Ht, Hrest. cbn [List.map fold_right] in Ht.
    assert (H1 : 0.6 <= ScientificShadow.detail_intensity (detailOf b c1)).
    { destruct (Htier c1 (or_introl eq_refl)) as [(_ & Hv)|(_ & Hv)];
        rewrite Hv; lra. }
    assert (H2 : 0.6 <= ScientificShadow.detail_intensity (detailOf b c2)).
    { destruct (Htier c2 (or_intror (or_introl eq_refl)))
        as [(_ & Hv)|(_ & Hv)]; rewrite Hv; lra. }
    rewrite Hlight. apply C1. rewrite Ht. lra. }
  split; [rewrite Hd, map_map; reflexivity|].
  split; [exact Hempty|]. split.
  { intros c E. exists (detailOf b c). split; [rewrite Hd, E; reflexivity|].
    exact (Hone c E). }
  split; [exact Hmany|].
  destruct (shadowCasters (sortByDistance planets) i b)
    as [|c1 [|c2 rest]] eqn:E.
  - left. now apply Hempty.
  - destruct (Hone c1 eq_refl) as [(_ & Hv)|(_ & Hv)].
    + right; right. exact Hv.
    + right; left. exact Hv.
  - right; right. apply Hmany. simpl. lia.
Qed.

Lemma scientific_light_is_1_or_04_or_0_witness :
  let near := mkPlanet "Near" 0.5 10500 in
  let far := mkPlanet "Far" 1 10000 in
  let r :=
    ScientificShadow.mkResult "Far" 1 10000 "None" 0.4 1 0.6
      [ ScientificShadow.mkShadowDetail "Near" "partial" 0.6 ]
      (ScientificShadow.calculateAngularSize 10000 1) in
  exists results,
    ScientificShadow.calculateScientificLightIntensity [far; near]
    = Some results /\
    nth_error results 1 = Some r /\
    shadowCasters (List.map bodyOfScientific results) 1 (bodyOfScientific r)
    = [near] /\
    (ScientificShadow.res_scientificLightIntensity r == 1 \/
     ScientificShadow.res_scientificLightIntensity r == 0.4 \/
     ScientificShadow.res_scientificLightIntensity r == 0).
Proof.
  intros near far r.
  destruct (ScientificShadow.calculateScientificLightIntensity [far; near])
    as [results|] eqn:Hr; [|discriminate Hr].
  exists results. split; [reflexivity|].
  assert (Hn : nth_error results 1 = Some r).
  { vm_compute in Hr. inversion Hr. reflexivity. }
  assert (Hc : shadowCasters (List.map bodyOfScientific results) 1
                 (bodyOfScientific r) = [near]).
  { vm_compute in Hr. inversion Hr. reflexivity. }
  split; [exact Hn|]. split; [exact Hc|].
  exact (proj2 (proj2 (proj2 (proj2 (scientific_light_is_1_or_04_or_0
                                       [far; near] results 1 r Hr Hn))))).
Defined.

(** In a sorted sequence no body in front is farther than the body at a
    position. *)
Lemma in_front_not_farther (sorted : list Planet) (i : nat)
    (body c : Planet) :
  StronglySorted closerOrTied sorted ->
  nth_error sorted i = Some body ->
  In c (firstn i sorted) ->
  distance c <= distance body.
Proof.
  intros Hs Hi Hc. apply In_nth_error in Hc. destruct Hc as (j & Hj).
  assert (Hlt : (j < i)%nat).
  { assert (H : (j < List.length (firstn i sorted))%nat)
      by (apply nth_error_Some; congruence).
    rewrite length_firstn in H. lia. }
  rewrite nth_error_firstn in Hj.
  destruct (Nat.ltb_spec j i); [|lia].
  exact (sorted_positions Hs Hlt Hj Hi).
Qed.

(** X11. [shadowDetails] can be shorter than [shadowCount]: a larger
    body in front that is at the very distance of the receiver is counted
    in [shadowCount] (and decides the label) but casts no shadow and has
    no entry.  The entries and the larger bodies tied with the receiver
    add up to [shadowCount]. *)
Theorem shadow_details_leave_out_tied_bodies (planets : list Planet)
    (results : list ScientificShadow.Result) (i : nat)
    (r : ScientificShadow.Result) :
  ScientificShadow.calculateScientificLightIntensity planets = Some results ->
  nth_error results i = Some r ->
  let tied :=
    filter (fun c => Qeq_bool (distance c) (ScientificShadow.res_distance r))
           (largerCloser (sortByDistance planets) i (bodyOfScientific r)) in
  (List.length (ScientificShadow.res_shadowDetails r) + List.length tied)%nat
  = ScientificShadow.res_shadowCount r.
Proof.
  intros Hr Hn tied. subst tied.
  destruct (calculateScientificLightIntensity_fields planets results i r
              Hr Hn)
    as (b & total & Hi & Hb & _ & Hc & _ & Hd & _).
  rewrite Hb, Hd, Hc, length_map. unfold shadowCasters.
  assert (Hdist : ScientificShadow.res_distance r = distance b)
    by (rewrite <- Hb; reflexivity).
  rewrite Hdist.
  rewrite <- (filter_split_length
                (fun c => Js.lt (distance c) (distance b))
                (largerCloser (sortByDistance planets) i b)).
  f_equal. f_equal. apply filter_ext_in. intros c Hin.
  unfold largerCloser in Hin. apply filter_In in Hin.
  destruct Hin as (Hin & _).
  pose proof (in_front_not_farther _ _ _ _
                (sortByDistance_sorted planets) Hi Hin) as Hle.
  destruct (Js.lt (distance c) (distance b)) eqn:E; simpl.
  - apply lt_true in E. apply not_true_iff_false. intros Heq.
    apply Qeq_bool_iff in Heq. lra.
  - unfold Js.lt in E. apply negb_false_iff, Qle_bool_iff in E.
    apply Qeq_bool_iff. lra.
Qed.

Lemma shadow_details_leave_out_tied_bodies_witness :
  let twin1 := mkPlanet "Twin1" 1.0 12000 in
  let twin2 := mkPlanet "Twin2" 1.0 8000 in
  let r :=
    ScientificShadow.mkResult "Twin2" 1.0 8000 "None" 1 1 0 []
      (ScientificShadow.calculateAngularSize 8000 1.0) in
  exists results,
    ScientificShadow.calculateScientificLightIntensity [twin1; twin2]
    = Some results /\
    nth_error results 1 = Some r /\
    (List.length (ScientificShadow.res_shadowDetails r)
     + List.length
         (filter (fun c => Qeq_bool (distance c)
                                    (ScientificShadow.res_distance r))
                 (largerCloser (sortByDistance [twin1; twin2]) 1
                               (bodyOfScientific r))))%nat
    = ScientificShadow.res_shadowCount r.
Proof.
  intros twin1 twin2 r.
  destruct (ScientificShadow.calculateScientificLightIntensity [twin1; twin2])
    as [results|] eqn:Hr; [|discriminate Hr].
  exists results. split; [reflexivity|].
  assert (Hn : nth_error results 1 = Some r).
  { vm_compute in Hr. inversion Hr. reflexivity. }
  split; [exact Hn|].
  exact (shadow_details_leave_out_tied_bodies [twin1; twin2] results 1 r
           Hr Hn).
Defined.

(** ** The two count-all-closer rules *)

Lemma nth_error_indexed {A : Type} (l : list A) :
  forall a i,
    nth_error (combine (seq a (List.length l)) l) i
    = option_map (fun x => ((a + i)%nat, x)) (nth_error l i).
Proof.
  induction l as [|x rest IH]; intros a i; simpl.
  - now destruct i.
  - destruct i as [|i]; simpl.
    + now rewrite Nat.add_0_r.
    + rewrite IH. now rewrite Nat.add_succ_r.
Qed.

Lemma firstn_two (sorted : list Planet) (i : nat) (body : Planet) :
  nth_error sorted i = Some body ->
  (2 <= i)%nat ->
  exists a b rest, firstn i sorted = a :: b :: rest.
Proof.
  intros Hi H2.
  assert (Hlen : (i < List.length sorted)%nat)
    by (apply nth_error_Some; congruence).
  destruct sorted as [|a [|b rest]]; simpl in Hlen; try lia.
  destruct i as [|[|i]]; try lia. simpl. now eauto.
Qed.

Section ShadowReportFacts.

Variable atan : Q -> Q.

Lemma calculateShadows_at (planets : list Planet) (i : nat) (body : Planet) :
  nth_error (sortByDistance planets) i = Some body ->
  exists s,
    nth_error (ShadowReport.calculateShadows atan planets) i = Some s /\
    ShadowReport.res_name s = name body /\
    ShadowReport.res_distance s = distance body /\
    ShadowReport.res_size s = size body /\
    ShadowReport.shadowing s
    = List.map (ShadowReport.shadowingOf atan body)
               (firstn i (sortByDistance planets)) /\
    ShadowReport.shadowType s
    = match firstn i (sortByDistance planets) with
      | [] => "Full"
      | [closerPlanet] =>
          if Js.gt (size closerPlanet) (size body) then "None"
          else "Partial"
      | _ :: _ :: _ => "None (Multiple Shadows)"
      end.
Proof.
  intros Hi. unfold ShadowReport.calculateShadows.
  rewrite nth_error_map, nth_error_indexed, Hi. simpl.
  eexists. split; [reflexivity|]. repeat split.
Qed.

Lemma calculateShadows_bodies (planets : list Planet) :
  List.map bodyOfReport (ShadowReport.calculateShadows atan planets)
  = sortByDistance planets.
Proof.
  apply nth_error_ext. intros i. rewrite nth_error_map.
  destruct (nth_error (sortByDistance planets) i) as [body|] eqn:Hi.
  - destruct (calculateShadows_at planets i body Hi)
      as (s & -> & Hname & Hdist & Hsize & _).
    simpl. unfold bodyOfReport. rewrite Hname, Hdist, Hsize.
    now destruct body.
  - unfold ShadowReport.calculateShadows.
    rewrite nth_error_map, nth_error_indexed, Hi. reflexivity.
Qed.

(** X13. [calculateShadows] returns one result per body of its
    argument, in ascending order of distance, with every body in front
    listed in [shadowing].  Its rule looks at the number of bodies in
    front before any size: the first body is Full, the second is None when
    the first is strictly larger than it and Partial otherwise, and every
    body from the third on is None (Multiple Shadows), whatever the
    sizes. *)
Theorem calculateShadows_counts_all_closer_bodies (planets : list Planet) :
  let results := ShadowReport.calculateShadows atan planets in
  let sorted := List.map bodyOfReport results in
  List.length results = List.length planets /\
  Permutation sorted planets /\
  StronglySorted closerOrTied sorted /\
  forall i s,
    nth_error results i = Some s ->
    List.map ShadowReport.sh_name (ShadowReport.shadowing s)
    = List.map name (firstn i sorted) /\
    (i = 0%nat -> ShadowReport.shadowType s = "Full") /\
    (forall front,
        i = 1%nat -> nth_error results 0 = Some front ->
        (ShadowReport.res_size s < ShadowReport.res_size front ->
         ShadowReport.shadowType s = "None") /\
        (ShadowReport.res_size front <= ShadowReport.res_size s ->
         ShadowReport.shadowType s = "Partial")) /\
    ((2 <= i)%nat ->
     ShadowReport.shadowType s = "None (Multiple Shadows)").
Proof.
  cbv zeta. rewrite calculateShadows_bodies.
  split.
  { rewrite <- (length_map bodyOfReport), calculateShadows_bodies.
    apply sortByDistance_length. }
  split; [apply sortByDistance_perm|].
  split; [apply sortByDistance_sorted|].
  intros i s Hs.
  assert (Hi : nth_error (sortByDistance planets) i
               = Some (bodyOfReport s)).
  { rewrite <- calculateShadows_bodies. now apply map_nth_error. }
  destruct (calculateShadows_at planets i _ Hi)
    as (s' & Hs' & _ & _ & _ & Hsh & Htype).
  rewrite Hs in Hs'. inversion Hs'; subst s'; clear Hs'.
  split; [|split; [|split]].
  - rewrite Hsh, map_map. reflexivity.
  - intros ->. exact Htype.
  - intros front -> Hfront. rewrite Htype.
    assert (Hf : nth_error (sortByDistance planets) 0
                 = Some (bodyOfReport front)).
    { rewrite <- calculateShadows_bodies. now apply map_nth_error. }
    destruct (sortByDistance planets) as [|a rest]; [discriminate Hf|].
    simpl in Hf. inversion Hf; subst a. simpl.
    destruct (Js.gt (ShadowReport.res_size front)
                    (ShadowReport.res_size s)) eqn:E.
    + apply gt_true in E. split; [reflexivity | intros H; exfalso; lra].
    + apply gt_false in E. split; [intros H; exfalso; lra | reflexivity].
  - intros H2. rewrite Htype.
    destruct (firstn_two _ _ _ Hi H2) as (a & b & rest & ->). reflexivity.
Qed.

(** X14. The two rules of the repository compared.  Position by
    position [calculateShadows] and [calculateLightIntensity] describe
    the same body, and their labels agree at the first two positions; from
    the third position on they agree exactly when two or more larger
    bodies are in front, and otherwise [calculateShadows] says None
    (Multiple Shadows) where [calculateLightIntensity] says Partial or
    None. *)
Theorem the_two_rules_agree_on_two_bodies (planets : list Planet)
    (results : list Lumoria.Result) (i : nat) (r : Lumoria.Result) :
  Lumoria.calculateLightIntensity planets = Some results ->
  nth_error results i = Some r ->
  exists s,
    nth_error (ShadowReport.calculateShadows atan planets) i = Some s /\
    ShadowReport.res_name s = Lumoria.res_name r /\
    ShadowReport.res_distance s = Lumoria.res_distance r /\
    ShadowReport.res_size s = Lumoria.res_size r /\
    (ShadowReport.shadowType s = Lumoria.res_light r
     <-> (i <= 1)%nat \/ (2 <= Lumoria.res_shadowCount r)%nat) /\
    ((2 <= i)%nat ->
     ShadowReport.shadowType s = "None (Multiple Shadows)" /\
     (Lumoria.res_shadowCount r = 0%nat -> Lumoria.res_light r = "Partial") /\
     (Lumoria.res_shadowCount r = 1%nat -> Lumoria.res_light r = "None")).
Proof.
  intros Hr Hn.
  destruct (calculateLightIntensity_fields planets results i r Hr Hn)
    as (body & Hi & Hb & Hc & Hl & _).
  destruct (calculateShadows_at planets i body Hi)
    as (s & Hs & Hname & Hdist & Hsize & _ & Htype).
  exists s. split; [exact Hs|].
  split; [rewrite Hname, <- Hb; reflexivity|].
  split; [rewrite Hdist, <- Hb; reflexivity|].
  split; [rewrite Hsize, <- Hb; reflexivity|].
  rewrite Htype, Hl. unfold Lumoria.getLightIntensity.
  destruct i as [|[|i]].
  - simpl. split; [|intros H; lia].
    split; [intros _; left; lia | reflexivity].
  - split; [|intros H; lia].
    unfold largerCloser in Hc.
    destruct (sortByDistance planets) as [|front rest]; [discriminate Hi|].
    simpl in Hc |- *.
    destruct (Js.gt (size front) (size body)); simpl in Hc; rewrite Hc;
      simpl; (split; [intros _; left; lia | reflexivity]).
  - destruct (firstn_two _ _ _ Hi ltac:(lia)) as (a & b & rest & ->).
    cbn [Nat.eqb].
    destruct (Nat.eqb_spec (Lumoria.res_shadowCount r) 1) as [E|E].
    + split; [split; [discriminate | intros [H|H]; lia]|].
      intros _. split; [reflexivity|]. split; [intros H; lia | reflexivity].
    + destruct (Nat.ltb_spec 1 (Lumoria.res_shadowCount r)) as [L|L].
      * split; [split; [intros _; right; lia | reflexivity]|].
        intros _. split; [reflexivity|]. split; intros H; lia.
      * split; [split; [discriminate | intros [H|H]; lia]|].
        intros _. split; [reflexivity|].
        split; [reflexivity | intros H; lia].
Qed.

End ShadowReportFacts.

Lemma the_two_rules_agree_on_two_bodies_witness :
  let atan := fun x : Q => x in
  let results :=
    [ Lumoria.mkResult "Mercuria" "Full" 0.4 4879 0 0 0;
      Lumoria.mkResult "Venusia" "Partial" 0.7 12104 0 0 1;
      Lumoria.mkResult "Earthia" "Partial" 1 12742 0 0 2;
      Lumoria.mkResult "Marsia" "None (Multiple Shadows)" 1.5 6779 2 2 1 ] in
  let earthia := Lumoria.mkResult "Earthia" "Partial" 1 12742 0 0 2 in
  Lumoria.calculateLightIntensity Lumoria.defaultLumoriaPlanets
  = Some results /\
  exists s,
    nth_error (ShadowReport.calculateShadows atan
                 Lumoria.defaultLumoriaPlanets) 2 = Some s /\
    ShadowReport.res_name s = Lumoria.res_name earthia /\
    ShadowReport.res_distance s = Lumoria.res_distance earthia /\
    ShadowReport.res_size s = Lumoria.res_size earthia /\
    (ShadowReport.shadowType s = Lumoria.res_light earthia
     <-> (2 <= 1)%nat \/ (2 <= Lumoria.res_shadowCount earthia)%nat) /\
    ((2 <= 2)%nat ->
     ShadowReport.shadowType s = "None (Multiple Shadows)" /\
     (Lumoria.res_shadowCount earthia = 0%nat ->
      Lumoria.res_light earthia = "Partial") /\
     (Lumoria.res_shadowCount earthia = 1%nat ->
      Lumoria.res_light earthia = "None")).
Proof.
  intros atan results earthia.
  assert (Hr : Lumoria.calculateLightIntensity Lumoria.defaultLumoriaPlanets
               = Some results) by (vm_compute; reflexivity).
  split; [exact Hr|].
  exact (the_two_rules_agree_on_two_bodies atan
           Lumoria.defaultLumoriaPlanets results 2 earthia Hr eq_refl).
Defined.

Lemma lt_false (a b : Q) : Js.lt a b = false <-> b <= a.
Proof. apply gt_false. Qed.

Lemma filter_exclusive_length {A : Type} (f g : A -> bool) (l : list A) :
  (forall x, f x = true -> g x = false) ->
  (List.length (filter f l) + List.length (filter g l)
   <= List.length l)%nat.
Proof.
  intros Hfg. induction l as [|x rest IH]; [apply le_n|].
  simpl. destruct (f x) eqn:Ef.
  - rewrite (Hfg x Ef). simpl. lia.
  - destruct (g x); simpl; lia.
Qed.

(** X15. [calculateLightIntensities] keeps the order of its argument and
    records for the body at position [i] that [i] bodies are closer, of
    which the larger and the smaller ones together are at most [i] (a body
    of the same diameter is neither).  Its labels name the shadow, not the
    light: the first body is None; the second is Full when the first has a
    larger diameter, Partial when it has a smaller one and None when the
    diameters are equal; every body from the third on is None (Multiple
    Shadows). *)
Theorem calculateLightIntensities_by_position
    (sortedPlanets : list CountAllCloser.Body) (i : nat)
    (b : CountAllCloser.Body) :
  nth_error sortedPlanets i = Some b ->
  List.length (CountAllCloser.calculateLightIntensities sortedPlanets)
  = List.length sortedPlanets /\
  exists r,
    nth_error (CountAllCloser.calculateLightIntensities sortedPlanets) i
    = Some r /\
    CountAllCloser.body r = b /\
    CountAllCloser.closerCount r = i /\
    (CountAllCloser.largerCloserCount r
     + CountAllCloser.smallerCloserCount r <= i)%nat /\
    (i = 0%nat -> CountAllCloser.shadow r = "None") /\
    (forall front,
        i = 1%nat -> nth_error sortedPlanets 0 = Some front ->
        (CountAllCloser.diameter b < CountAllCloser.diameter front ->
         CountAllCloser.shadow r = "Full") /\
        (CountAllCloser.diameter front < CountAllCloser.diameter b ->
         CountAllCloser.shadow r = "Partial") /\
        (CountAllCloser.diameter front == CountAllCloser.diameter b ->
         CountAllCloser.shadow r = "None")) /\
    ((2 <= i)%nat ->
     CountAllCloser.shadow r = "None (Multiple Shadows)").
Proof.
  intros Hi.
  assert (Hlt : (i < List.length sortedPlanets)%nat)
    by (apply nth_error_Some; congruence).
  assert (Hfirst : List.length (firstn i sortedPlanets) = i)
    by (rewrite length_firstn; lia).
  unfold CountAllCloser.calculateLightIntensities. split.
  { now rewrite length_map, length_combine, length_seq, Nat.min_id. }
  rewrite nth_error_map, nth_error_indexed, Hi. simpl.
  eexists. split; [reflexivity|]. simpl.
  split; [reflexivity|]. split; [exact Hfirst|]. split; [|split; [|split]].
  - rewrite <- Hfirst at 3. apply filter_exclusive_length.
    intros x Hx. apply gt_true in Hx. apply lt_false. lra.
  - intros ->. reflexivity.
  - intros front -> Hfront.
    destruct sortedPlanets as [|a rest]; [discriminate Hfront|].
    simpl in Hfront. inversion Hfront; subst a. simpl.
    destruct (Js.gt (CountAllCloser.diameter front)
                    (CountAllCloser.diameter b)) eqn:Eg;
      destruct (Js.lt (CountAllCloser.diameter front)
                      (CountAllCloser.diameter b)) eqn:El; simpl;
      try apply gt_true in Eg; try apply gt_false in Eg;
      try apply lt_true in El; try apply lt_false in El;
      repeat split; intros H; try reflexivity; exfalso; lra.
  - intros H2. rewrite Hfirst.
    destruct i as [|[|i]]; [lia | lia | reflexivity].
Qed.

Lemma calculateLightIntensities_by_position_witness :
  let mercuria := CountAllCloser.mkBody "Mercuria" 0.4 4879 in
  let venusia := CountAllCloser.mkBody "Venusia" 0.7 12104 in
  exists r,
    nth_error (CountAllCloser.calculateLightIntensities [mercuria; venusia]) 1
    = Some r /\
    CountAllCloser.body r = venusia /\
    CountAllCloser.closerCount r = 1%nat /\
    CountAllCloser.shadow r = "Partial".
Proof.
  intros mercuria venusia.
  destruct (calculateLightIntensities_by_position [mercuria; venusia] 1
              venusia eq_refl)
    as (_ & r & Hr & Hb & Hc & _ & _ & Hsecond & _).
  exists r. split; [exact Hr|]. split; [exact Hb|]. split; [exact Hc|].
  destruct (Hsecond mercuria eq_refl eq_refl) as (_ & Hpartial & _).
  apply Hpartial. reflexivity.
Defined.

(** ** Acceptance and rejection of a star system *)

Lemma filterFrom_nil {A : Type} (pred : A -> nat -> bool) (arr : list A) :
  forall i,
    (forall k x, nth_error arr k = Some x -> pred x (i + k)%nat = false) ->
    JsArray.filterFrom pred i arr = [].
Proof.
  induction arr as [|a rest IH]; intros i H; [reflexivity|].
  simpl. pose proof (H 0%nat a eq_refl) as H0.
  rewrite Nat.add_0_r in H0. rewrite H0. apply IH.
  intros k x Hk. rewrite Nat.add_succ_l, <- Nat.add_succ_r.
  now apply H.
Qed.

Lemma findFrom_none {A : Type} (pred : A -> nat -> bool) (arr : list A) :
  forall i,
    (forall k x, nth_error arr k = Some x -> pred x (i + k)%nat = false) ->
    JsArray.findFrom pred i arr = None.
Proof.
  induction arr as [|a rest IH]; intros i H; [reflexivity|].
  simpl. pose proof (H 0%nat a eq_refl) as H0.
  rewrite Nat.add_0_r in H0. rewrite H0. apply IH.
  intros k x Hk. rewrite Nat.add_succ_l, <- Nat.add_succ_r.
  now apply H.
Qed.

(** [indexOf] returns the first position of a string that occurs. *)
Lemma indexOfFrom_first (s : string) (arr : list string) :
  forall i k,
    nth_error arr k = Some s ->
    exists first,
      JsArray.indexOfFrom s i arr = Some first /\ (first <= i + k)%nat.
Proof.
  induction arr as [|x rest IH]; intros i k Hk.
  - destruct k; discriminate.
  - simpl. destruct (String.eqb x s) eqn:E.
    + exists i. split; [reflexivity | lia].
    + destruct k as [|k]; simpl in Hk.
      * inversion Hk; subst. rewrite String.eqb_refl in E. discriminate.
      * destruct (IH (S i) k Hk) as (first & Hf & Hle).
        exists first. split; [exact Hf | lia].
Qed.

Lemma indexOfFrom_found (s : string) (arr : list string) :
  forall i first,
    JsArray.indexOfFrom s i arr = Some first ->
    (i <= first)%nat /\ nth_error arr (first - i) = Some s.
Proof.
  induction arr as [|x rest IH]; intros i first H; [discriminate|].
  simpl in H. destruct (String.eqb x s) eqn:E.
  - inversion H; subst. apply String.eqb_eq in E. subst.
    rewrite Nat.sub_diag. split; [lia | reflexivity].
  - destruct (IH (S i) first H) as (Hle & Hn). split; [lia|].
    replace (first - i)%nat with (S (first - S i)) by lia. exact Hn.
Qed.

(** A name at two positions is among the [duplicateNames]. *)
Lemma duplicateNames_In (planetNames : list string) (i j : nat)
    (s : string) :
  (i < j)%nat ->
  nth_error planetNames i = Some s ->
  nth_error planetNames j = Some s ->
  In s (CustomStarSystem.duplicateNames planetNames).
Proof.
  intros Hij Hi Hj.
  unfold CustomStarSystem.duplicateNames, JsArray.filter.
  apply (filterFrom_In _ planetNames 0 j s Hj).
  cbv beta. change (0 + j)%nat with j. unfold JsArray.indexOf.
  destruct (indexOfFrom_first s planetNames 0 i Hi) as (first & -> & Hle).
  apply negb_true_iff, Nat.eqb_neq. lia.
Qed.

Lemma duplicateNames_nonempty (planetNames : list string) (i j : nat)
    (s : string) :
  (i < j)%nat ->
  nth_error planetNames i = Some s ->
  nth_error planetNames j = Some s ->
  (0 <? List.length (CustomStarSystem.duplicateNames planetNames))%nat
  = true.
Proof.
  intros Hij Hi Hj. apply Nat.ltb_lt.
  pose proof (duplicateNames_In planetNames i j s Hij Hi Hj) as Hin.
  destruct (CustomStarSystem.duplicateNames planetNames);
    [contradiction | simpl; lia].
Qed.

(** [[...new Set(arr)]] holds the strings of [arr], each once. *)
Lemma distinctFrom_spec (arr : list string) :
  forall seen,
    NoDup (JsArray.distinctFrom seen arr) /\
    forall x, In x (JsArray.distinctFrom seen arr)
              <-> In x arr /\ ~ In x seen.
Proof.
  induction arr as [|a rest IH]; intros seen; simpl.
  - split; [constructor|]. intros x. tauto.
  - destruct (existsb (String.eqb a) seen) eqn:E.
    + apply existsb_exists in E. destruct E as (y & Hy & Hay).
      apply String.eqb_eq in Hay. subst y.
      destruct (IH seen) as (Hnd & Hin). split; [exact Hnd|].
      intros x. rewrite Hin. split; [tauto|].
      intros [[->|Hx] Hseen]; [contradiction | tauto].
    + assert (Ha : ~ In a seen).
      { intros Hin. apply not_true_iff_false in E. apply E.
        apply existsb_exists. exists a. split; [exact Hin|].
        apply String.eqb_refl. }
      destruct (IH (a :: seen)) as (Hnd & Hin). split.
      * constructor; [|exact Hnd]. rewrite Hin. simpl. tauto.
      * intros x. simpl. rewrite Hin. simpl.
        destruct (string_dec a x) as [->|Hne]; tauto.
Qed.

Lemma StronglySorted_nth {A : Type} (R : A -> A -> Prop) (l : list A) :
  StronglySorted R l ->
  forall i j a b, (i < j)%nat ->
    nth_error l i = Some a -> nth_error l j = Some b -> R a b.
Proof.
  induction 1 as [|x rest Hs IH Hx]; intros i j a b Hij Ha Hb.
  - destruct i; discriminate.
  - destruct j as [|j]; [lia|]. simpl in Hb.
    destruct i as [|i]; simpl in Ha.
    + inversion Ha; subst. rewrite Forall_forall in Hx. apply Hx.
      eapply nth_error_In; eassumption.
    + apply (IH i j); [lia | assumption..].
Qed.

Lemma filter_all {A : Type} (f : A -> bool) (l : list A) :
  (forall x, In x l -> f x = true) -> filter f l = l.
Proof.
  induction l as [|x rest IH]; intros H; [reflexivity|].
  simpl. rewrite (H x (or_introl eq_refl)). f_equal.
  apply IH. intros y Hy. apply H. now right.
Qed.

Lemma duplicateNames_NoDup (planetNames : list string) :
  NoDup planetNames <-> CustomStarSystem.duplicateNames planetNames = [].
Proof.
  split.
  - intros Hnd. unfold CustomStarSystem.duplicateNames, JsArray.filter.
    apply filterFrom_nil. intros k x Hk. change (0 + k)%nat with k.
    unfold JsArray.indexOf.
    destruct (indexOfFrom_first x planetNames 0 k Hk) as (first & Hf & Hle).
    rewrite Hf. apply indexOfFrom_found in Hf. destruct Hf as (_ & Hn).
    rewrite Nat.sub_0_r in Hn.
    rewrite NoDup_nth_error in Hnd.
    assert (first = k).
    { apply Hnd; [apply nth_error_Some; congruence | congruence]. }
    subst. now rewrite Nat.eqb_refl.
  - intros Hnil. apply NoDup_nth_error. intros i j Hi Heq.
    destruct (nth_error planetNames i) as [s|] eqn:Es;
      [|apply nth_error_None in Es; lia].
    symmetry in Heq.
    destruct (Nat.lt_trichotomy i j) as [Hlt|[Hlt|Hlt]]; [|exact Hlt|].
    + pose proof (duplicateNames_nonempty planetNames i j s Hlt Es Heq) as H.
      rewrite Hnil in H. discriminate H.
    + pose proof (duplicateNames_nonempty planetNames j i s Hlt Heq Es) as H.
      rewrite Hnil in H. discriminate H.
Qed.

Lemma ForallOrdPairs_positions {A : Type} (R : A -> A -> Prop)
    (l : list A) :
  ForallOrdPairs R l <->
  (forall i j a b, (i < j)%nat ->
     nth_error l i = Some a -> nth_error l j = Some b -> R a b).
Proof.
  induction l as [|x rest IH].
  - split; [|constructor]. intros _ i j a b _ Ha. destruct i; discriminate.
  - split.
    + intros H. inversion H as [|? ? Hx Hrest]; subst.
      intros i j a b Hij Ha Hb. destruct j as [|j]; [lia|]. simpl in Hb.
      destruct i as [|i]; simpl in Ha.
      * inversion Ha; subst. rewrite Forall_forall in Hx. apply Hx.
        eapply nth_error_In; eassumption.
      * destruct IH as [IH _].
        apply (IH Hrest i j); [lia | assumption..].
    + intros H. constructor.
      * apply Forall_forall. intros y Hy.
        apply In_nth_error in Hy. destruct Hy as (k & Hk).
        apply (H 0%nat (S k)); [lia | reflexivity | exact Hk].
      * destruct IH as [_ IH]. apply IH. intros i j a b Hij Ha Hb.
        apply (H (S i) (S j)); [lia | assumption..].
Qed.

Lemma ForallOrdPairs_perm {A : Type} (R : A -> A -> Prop) (l l' : list A) :
  (forall a b, R a b -> R b a) ->
  Permutation l l' -> ForallOrdPairs R l -> ForallOrdPairs R l'.
Proof.
  intros Hsym Hp. induction Hp as [|x l l' Hp IH|x y l|l l' l'' _ IH1 _ IH2];
    intros H.
  - constructor.
  - inversion H as [|? ? Hx Hrest]; subst. constructor.
    + eapply Permutation_Forall; eassumption.
    + now apply IH.
  - inversion H as [|? ? Hy Hrest]; subst.
    inversion Hrest as [|? ? Hx Hrest']; subst.
    inversion Hy as [|? ? Hyx Hyl]; subst.
    constructor; [constructor; [now apply Hsym | exact Hx]|].
    now constructor.
  - auto.
Qed.

(** Sorting leaves a sorted array as it is. *)
Lemma sortByDistance_sorted_id (l : list Planet) :
  StronglySorted closerOrTied l -> sortByDistance l = l.
Proof.
  induction 1 as [|x rest Hs IH Hx]; [reflexivity|].
  simpl. rewrite IH. destruct rest as [|y rest']; [reflexivity|].
  simpl. inversion Hx as [|? ? Hxy _]; subst.
  apply le_true in Hxy. now rewrite Hxy.
Qed.

(** [toPlanets] returns the bodies of the sanitized planets when every
    number is finite, and nothing when one is [NaN]. *)
Lemma toPlanets_Some (validated : list CustomStarSystem.Sanitized) :
  forall bodies,
    CustomStarSystem.toPlanets validated = Some bodies <->
    validated = List.map sanitizedOf bodies.
Proof.
  induction validated as [|P rest IH]; intros bodies; simpl.
  - split.
    + intros H. inversion H. reflexivity.
    + intros H. destruct bodies; [reflexivity | discriminate H].
  - unfold CustomStarSystem.toPlanet.
    destruct P as [n [d|] [z|]]; simpl;
      try (split; [discriminate|];
           intros H; destruct bodies as [|B bodies']; discriminate H).
    destruct (CustomStarSystem.toPlanets rest) as [bs|] eqn:E; simpl.
    + split.
      * intros H. inversion H; subst. simpl. f_equal.
        now apply IH.
      * intros H. destruct bodies as [|B bodies']; [discriminate H|].
        simpl in H. inversion H; subst.
        assert (E' : Some bs = Some bodies') by (now apply IH).
        inversion E'; subst. now destruct B.
    + split; [discriminate|].
      intros H. destruct bodies as [|B bodies']; [discriminate H|].
      simpl in H. inversion H; subst.
      assert (E' : None = Some bodies') by (now apply IH).
      discriminate E'.
Qed.

Lemma toPlanets_None (validated : list CustomStarSystem.Sanitized) :
  CustomStarSystem.toPlanets validated = None <->
  exists P, In P validated /\
            (CustomStarSystem.s_distance P = CustomStarSystem.NotANumber \/
             CustomStarSystem.s_size P = CustomStarSystem.NotANumber).
Proof.
  induction validated as [|P rest IH]; simpl.
  - split; [discriminate | intros (P & [] & _)].
  - unfold CustomStarSystem.toPlanet.
    destruct P as [n [d|] [z|]]; simpl;
      try (split; [intros _; eexists; split; [left; reflexivity|]; simpl;
                   tauto | reflexivity]).
    destruct (CustomStarSystem.toPlanets rest) as [bs|] eqn:E; simpl.
    + split; [discriminate|].
      intros (P & [<-|Hin] & HP); [simpl in HP; destruct HP; discriminate|].
      assert (E' : Some bs = None).
      { apply IH. now exists P. }
      discriminate E'.
    + split; [|reflexivity]. intros _.
      destruct (proj1 IH eq_refl) as (P & Hin & HP).
      exists P. split; [now right | exact HP].
Qed.

Section StarSystemFacts.

Variable stringGreaterThan : string -> Q -> bool.
Variable trim : string -> string.
Variable toLowerCase : string -> string.
Variable minus : Q -> Q -> Q.

Abbreviation validatePlanet :=
  (CustomStarSystem.validatePlanet stringGreaterThan trim).
Abbreviation validateStarSystem :=
  (CustomStarSystem.validateStarSystem stringGreaterThan trim toLowerCase
     minus).
Abbreviation missingText := (CustomStarSystem.missingText trim).
Abbreviation kept := (keptPlanet stringGreaterThan trim).
Abbreviation keptAll := (keptPlanets stringGreaterThan trim).
Abbreviation closerThan := (CustomStarSystem.closerThan minus).
Abbreviation duplicateDistances :=
  (CustomStarSystem.duplicateDistances minus).
Abbreviation lowered := (lowerName toLowerCase).

(** The planets that the loop finds valid. *)
Abbreviation valid :=
  (fun p => exists v, validatePlanet p = Some v /\
                      CustomStarSystem.isValid v = true).

(** No entry of an array of distances is closer than 0.01 to another
    one. *)
Abbreviation spaced :=
  (fun distances : list CustomStarSystem.Parsed =>
     forall i j a b,
       i <> j ->
       nth_error distances i = Some a -> nth_error distances j = Some b ->
       closerThan a b = false).

(** When the finite distances are positive, [duplicateDistances] is
    empty exactly when no entry is closer than 0.01 to another one. *)
Lemma duplicateDistances_spaced (distances : list CustomStarSystem.Parsed) :
  Forall (withinBound 50) distances ->
  duplicateDistances distances = [] <-> spaced distances.
Proof.
  intros Hpos. split.
  - intros Hnil i j a b Hij Ha Hb.
    apply not_true_iff_false. intros Hclose.
    pose proof (duplicateDistances_nonempty minus distances j i b a Hpos
                  (not_eq_sym Hij) Hb Ha Hclose) as H.
    rewrite Hnil in H. discriminate H.
  - intros Hfar.
    unfold CustomStarSystem.duplicateDistances, JsArray.filter.
    apply filterFrom_nil. intros k dist Hk. change (0 + k)%nat with k.
    unfold JsArray.find. rewrite findFrom_none; [reflexivity|].
    intros i d Hi. change (0 + i)%nat with i.
    destruct (Nat.eqb_spec i k) as [->|Hne]; [reflexivity|]. simpl.
    exact (Hfar i k d dist Hne Hi Hk).
Qed.

(** X16. [validatePlanet] accepts a planet exactly when its name is a
    string that is not empty and that [trim] does not empty, its distance
    is [NaN] or a number in (0, 50], and its size is [NaN] or a number in
    (0, 150000].  The sanitized copy of an accepted planet carries the
    trimmed name and the two numbers, and its error list is empty.  [NaN]
    passes every check: a planet with a good name is accepted with [NaN]
    as its distance and as its size.  The coercion of strings to numbers
    plays no part. *)
Theorem validatePlanet_accepts_within_bounds
    (p : CustomStarSystem.RawPlanet) :
  ((exists v, validatePlanet p = Some v /\
              CustomStarSystem.isValid v = true)
   <-> acceptablePlanet trim p) /\
  (forall v,
      validatePlanet p = Some v /\ CustomStarSystem.isValid v = true ->
      CustomStarSystem.errors v = [] /\
      exists n d s,
        CustomStarSystem.rawName p = JsString n /\
        CustomStarSystem.parseFloatOf (CustomStarSystem.rawDistance p)
        = Some d /\
        CustomStarSystem.parseFloatOf (CustomStarSystem.rawSize p)
        = Some s /\
        CustomStarSystem.planet v
        = Some (CustomStarSystem.mkSanitized (trim n) d s)) /\
  (forall n,
      acceptableName trim (JsString n) ->
      exists v,
        validatePlanet (CustomStarSystem.mkRawPlanet (JsString n) JsNaN JsNaN)
        = Some v /\
        CustomStarSystem.isValid v = true).
Proof.
  split; [split|split].
  - intros (v & Hv & Hvalid).
    exact (proj1 (accepted_planet stringGreaterThan trim p v Hv Hvalid)).
  - exact (acceptable_planet_valid stringGreaterThan trim p).
  - intros v (Hv & Hvalid).
    destruct (accepted_planet stringGreaterThan trim p v Hv Hvalid)
      as (_ & He & n & d & s & Hn & Hd & Hs & _ & _ & _ & HP).
    split; [exact He|]. now exists n, d, s.
  - intros n Hn.
    apply (acceptable_planet_valid stringGreaterThan trim).
    split; [exact Hn|]. split; now left.
Qed.

(** The facts about a system that [validateStarSystem] finds valid. *)
Lemma accepted_system (system : CustomStarSystem.RawSystem)
    (result : CustomStarSystem.SystemValidation) :
  validateStarSystem system = Some result ->
  CustomStarSystem.sv_isValid result = true ->
  exists n planets,
    CustomStarSystem.sysName system = JsString n /\
    acceptableName trim (JsString n) /\
    trimmable (CustomStarSystem.sysDescription system) /\
    CustomStarSystem.sysPlanets system = Some planets /\
    planets <> [] /\
    Forall valid planets /\
    NoDup (List.map lowered (keptAll planets)) /\
    spaced (List.map CustomStarSystem.s_distance (keptAll planets)) /\
    CustomStarSystem.sv_errors result = [] /\
    CustomStarSystem.vs_name (CustomStarSystem.validatedSystem result)
    = Some (trim n) /\
    CustomStarSystem.vs_planets (CustomStarSystem.validatedSystem result)
    = option_map sortByDistance
        (CustomStarSystem.toPlanets (keptAll planets)).
Proof.
  intros H Hvalid.
  destruct (CustomStarSystem.sysPlanets system) as [planets|] eqn:Hplanets.
  2:{ unfold CustomStarSystem.validateStarSystem in H.
      rewrite Hplanets in H. simpl in H.
      destruct (CustomStarSystem.optionalTrim trim
                  (CustomStarSystem.sysName system)); simpl in H;
        [|discriminate].
      destruct (CustomStarSystem.optionalTrim trim
                  (CustomStarSystem.sysDescription system)); simpl in H;
        [|discriminate].
      inversion H; subst result. simpl in Hvalid.
      rewrite length_app in Hvalid. simpl in Hvalid.
      apply Nat.eqb_eq in Hvalid. lia. }
  destruct planets as [|p0 rest].
  { unfold CustomStarSystem.validateStarSystem in H.
    rewrite Hplanets in H. simpl in H.
    destruct (CustomStarSystem.optionalTrim trim
                (CustomStarSystem.sysName system)); simpl in H;
      [|discriminate].
    destruct (CustomStarSystem.optionalTrim trim
                (CustomStarSystem.sysDescription system)); simpl in H;
      [|discriminate].
    inversion H; subst result. simpl in Hvalid.
    rewrite length_app in Hvalid. simpl in Hvalid.
    apply Nat.eqb_eq in Hvalid. lia. }
  assert (Hne : p0 :: rest <> []) by discriminate.
  destruct (validateStarSystem_result stringGreaterThan trim toLowerCase
              minus system (p0 :: rest) result Hplanets Hne H)
    as (errs & Hloop & Herrors & Hflag & Hsorted & Hname & Hdesc).
  rewrite Hflag in Hvalid. apply Nat.eqb_eq in Hvalid.
  apply length_zero_iff_nil in Hvalid.
  rewrite Hvalid in Herrors. symmetry in Herrors.
  apply pushIf_nil in Herrors. destruct Herrors as (Hdist & Herrors).
  apply pushIf_nil in Herrors. destruct Herrors as (Hnames & Herrs).
  destruct (forEachFrom_errors stringGreaterThan trim (p0 :: rest) 0 _ _
              Hloop) as (extra & Hfst & Hiff & _).
  simpl fst in Hfst. rewrite Herrs in Hfst. symmetry in Hfst.
  apply app_eq_nil in Hfst. destruct Hfst as (Hsys & Hextra).
  apply pushIf_nil in Hsys. destruct Hsys as (Hmissing & _).
  apply Hiff in Hextra.
  apply (acceptableName_spec trim) in Hmissing as Aname.
  destruct Aname as (n & En & Hn0 & Hnt).
  rewrite En in Hname. simpl in Hname. inversion Hname as [Hvs].
  exists n, (p0 :: rest).
  split; [exact En|]. split; [now exists n|].
  split; [exact Hdesc|]. split; [reflexivity|]. split; [exact Hne|].
  split; [exact Hextra|]. split; [|split].
  - apply duplicateNames_NoDup. apply Nat.ltb_ge in Hnames.
    apply length_zero_iff_nil. lia.
  - apply duplicateDistances_spaced;
      [apply (keptAll_positive stringGreaterThan trim)|].
    apply Nat.ltb_ge in Hdist. apply length_zero_iff_nil. lia.
  - split; [exact Hvalid|]. split; [reflexivity | exact Hsorted].
Qed.


(** The planets of a validated system, when there are any: the bodies
    of the kept planets, sorted. *)
Lemma validated_planets (planets : list CustomStarSystem.RawPlanet)
    (validated : list Planet) :
  Forall valid planets ->
  NoDup (List.map lowered (keptAll planets)) ->
  spaced (List.map CustomStarSystem.s_distance (keptAll planets)) ->
  option_map sortByDistance (CustomStarSystem.toPlanets (keptAll planets))
  = Some validated ->
  exists bodies,
    keptAll planets = List.map sanitizedOf bodies /\
    List.length bodies = List.length planets /\
    validated = sortByDistance bodies /\
    Forall (fun B => name B <> ""%string /\
                     0 < distance B /\ distance B <= 50 /\
                     0 < size B /\ size B <= 150000) validated /\
    NoDup (List.map (fun B => toLowerCase (name B)) validated) /\
    StronglySorted closerOrTied validated /\
    ForallOrdPairs (apart minus) validated.
Proof.
  intros Hall Hnd Hfar Hv.
  destruct (CustomStarSystem.toPlanets (keptAll planets)) as [bodies|] eqn:E;
    [|discriminate Hv].
  simpl in Hv. inversion Hv; subst validated; clear Hv.
  apply toPlanets_Some in E.
  pose proof (sortByDistance_perm bodies) as Hperm.
  exists bodies. split; [exact E|]. split.
  { rewrite <- (keptAll_valid stringGreaterThan trim planets Hall), E.
    now rewrite length_map. }
  split; [reflexivity|]. split; [|split; [|split]].
  - eapply Permutation_Forall; [apply Permutation_sym, Hperm|].
    pose proof (keptAll_bounds stringGreaterThan trim planets) as Hb.
    rewrite E in Hb. rewrite Forall_map in Hb.
    eapply Forall_impl; [|exact Hb].
    intros B (Hn & (Hd0 & Hd50) & (Hs0 & Hs150)). now repeat split.
  - eapply Permutation_NoDup;
      [apply Permutation_map, Permutation_sym, Hperm|].
    rewrite E, map_map in Hnd. exact Hnd.
  - apply sortByDistance_sorted.
  - eapply ForallOrdPairs_perm; [|apply Permutation_sym, Hperm|].
    + intros a b (H1 & H2). now split.
    + apply ForallOrdPairs_positions. intros i j a b Hij Ha Hb.
      rewrite E, map_map in Hfar.
      assert (Hclose : forall x y u v, x <> y ->
                nth_error bodies x = Some u -> nth_error bodies y = Some v ->
                0.01 <= Qabs (minus (distance u) (distance v))).
      { intros x y u v Hxy Hu Hv.
        specialize (Hfar x y (CustomStarSystem.Finite (distance u))
                         (CustomStarSystem.Finite (distance v)) Hxy).
        rewrite !nth_error_map, Hu, Hv in Hfar.
        specialize (Hfar eq_refl eq_refl). simpl in Hfar.
        now apply lt_false in Hfar. }
      split; [apply (Hclose i j) | apply (Hclose j i)];
        try assumption; lia.
Qed.

(** X18. What an accepted system is turned into.  The validation has no
    error and carries the trimmed name; every planet of the input is kept,
    with a name that is not empty, a distance that is [NaN] or in (0, 50]
    and a size that is [NaN] or in (0, 150000], and the names of the
    planets differ once put in lower case.  The planets of the validated
    system are stated when no number is [NaN]: they are then the kept
    planets in ascending order of distance, and no two of them are at
    distances whose computed difference is below 0.01. *)
Theorem accepted_system_is_sorted_with_gaps
    (system : CustomStarSystem.RawSystem)
    (result : CustomStarSystem.SystemValidation) :
  validateStarSystem system = Some result ->
  CustomStarSystem.sv_isValid result = true ->
  CustomStarSystem.sv_errors result = [] /\
  (exists n,
      CustomStarSystem.sysName system = JsString n /\
      CustomStarSystem.vs_name (CustomStarSystem.validatedSystem result)
      = Some (trim n)) /\
  exists planets,
    CustomStarSystem.sysPlanets system = Some planets /\
    List.length (keptAll planets) = List.length planets /\
    Forall (fun P => CustomStarSystem.s_name P <> ""%string /\
                     withinBound 50 (CustomStarSystem.s_distance P) /\
                     withinBound 150000 (CustomStarSystem.s_size P))
           (keptAll planets) /\
    NoDup (List.map lowered (keptAll planets)) /\
    (CustomStarSystem.vs_planets (CustomStarSystem.validatedSystem result)
     = None <->
     exists P, In P (keptAll planets) /\
               (CustomStarSystem.s_distance P = CustomStarSystem.NotANumber \/
                CustomStarSystem.s_size P = CustomStarSystem.NotANumber)) /\
    forall validated,
      CustomStarSystem.vs_planets (CustomStarSystem.validatedSystem result)
      = Some validated ->
      Permutation (List.map sanitizedOf validated) (keptAll planets) /\
      StronglySorted closerOrTied validated /\
      ForallOrdPairs (apart minus) validated.
Proof.
  intros H Hvalid.
  destruct (accepted_system system result H Hvalid)
    as (n & planets & Hn & _ & _ & Hplanets & _ & Hall & Hnd & Hfar
        & Herrors & Hname & Hsorted).
  split; [exact Herrors|]. split; [now exists n|].
  exists planets. split; [exact Hplanets|].
  split; [now apply (keptAll_valid stringGreaterThan trim)|].
  split; [apply (keptAll_bounds stringGreaterThan trim)|].
  split; [exact Hnd|]. split.
  - rewrite Hsorted. rewrite <- toPlanets_None.
    destruct (CustomStarSystem.toPlanets (keptAll planets)); simpl;
      split; congruence.
  - intros validated Hv. rewrite Hsorted in Hv.
    destruct (validated_planets planets validated Hall Hnd Hfar Hv)
      as (bodies & E & _ & -> & _ & _ & Hs & Hap).
    split; [|split; [exact Hs | exact Hap]].
    rewrite E. apply Permutation_map, sortByDistance_perm.
Qed.



(** X21. The analysis of an accepted system whose numbers are finite.
    On the planets of the validated system
    [calculateScientificLightIntensity] returns, and its results are in
    the order of the validated system.  When the difference of two equal
    numbers is 0, no two planets are tied: the Full planet is then the
    one strictly closest to the star and no other, and every planet has
    one entry in [shadowDetails] for each shadow counted in
    [shadowCount]. *)
Theorem analysis_of_an_accepted_system
    (system : CustomStarSystem.RawSystem)
    (result : CustomStarSystem.SystemValidation)
    (validated : list Planet) :
  (forall a b, a == b -> minus a b == 0) ->
  validateStarSystem system = Some result ->
  CustomStarSystem.sv_isValid result = true ->
  CustomStarSystem.vs_planets (CustomStarSystem.validatedSystem result)
  = Some validated ->
  exists results,
    ScientificShadow.calculateScientificLightIntensity validated
    = Some results /\
    List.map bodyOfScientific results = validated /\
    forall i r,
      nth_error results i = Some r ->
      (ScientificShadow.res_light r = "Full" <->
       forall j r', j <> i -> nth_error results j = Some r' ->
                    ScientificShadow.res_distance r
                    < ScientificShadow.res_distance r') /\
      List.length (ScientificShadow.res_shadowDetails r)
      = ScientificShadow.res_shadowCount r.
Proof.
  intros Hminus H Hvalid Hv.
  assert (Hgaps : StronglySorted (fun p q => distance p < distance q)
                                 validated).
  { destruct (accepted_system system result H Hvalid)
      as (n & planets & _ & _ & _ & _ & _ & Hall & Hnd & Hfar & _ & _
          & Hsorted).
    rewrite Hsorted in Hv.
    destruct (validated_planets planets validated Hall Hnd Hfar Hv)
      as (bodies & _ & _ & _ & _ & _ & Hs & Hap).
    clear - Hminus Hs Hap. induction Hs as [|x rest Hs IH Hx].
    - constructor.
    - inversion Hap as [|? ? Hxa Hrest]; subst.
      constructor; [now apply IH|].
      rewrite Forall_forall in *. intros y Hy.
      specialize (Hx y Hy). destruct (Hxa y Hy) as (Hxy & _).
      unfold closerOrTied in Hx.
      destruct (Qlt_le_dec (distance x) (distance y)) as [Hlt|Hle];
        [exact Hlt|].
      assert (E : distance x == distance y) by lra.
      apply Hminus in E. rewrite E in Hxy. simpl in Hxy.
      exfalso. revert Hxy. apply Qlt_not_le. reflexivity. }
  assert (Hsorted : sortByDistance validated = validated).
  { apply sortByDistance_sorted_id.
    clear - Hgaps. induction Hgaps as [|x rest Hs IH Hx]; constructor.
    - exact IH.
    - eapply Forall_impl; [|exact Hx].
      intros b Hb. cbv beta in Hb. unfold closerOrTied. lra. }
  destruct (calculateScientificLightIntensity_at validated)
    as (results & Hr & Hbodies & _).
  rewrite Hsorted in Hbodies.
  exists results. split; [exact Hr|]. split; [exact Hbodies|].
  intros i r Hn.
  destruct (calculateScientificLightIntensity_fields validated results i r
              Hr Hn)
    as (body & total & Hi & Hb & _ & Hcount & Hrule & Hdetails & _).
  rewrite Hsorted in Hi, Hcount, Hdetails.
  assert (Hdist : forall j r', nth_error results j = Some r' ->
             exists b', nth_error validated j = Some b' /\
                        ScientificShadow.res_distance r' = distance b').
  { intros j r' Hj. exists (bodyOfScientific r'). split; [|reflexivity].
    rewrite <- Hbodies, nth_error_map, Hj. reflexivity. }
  split.
  - split.
    + intros Hfull j r' Hji Hj.
      assert (Hi0 : i = 0%nat).
      { destruct Hrule as (_ & H1 & H2 & H3).
        destruct (Nat.eq_dec i 0) as [E|E]; [exact E|].
        destruct (ScientificShadow.res_shadowCount r) as [|[|c]].
        - rewrite (H3 E eq_refl) in Hfull. discriminate.
        - rewrite (H1 E eq_refl) in Hfull. discriminate.
        - rewrite (H2 E ltac:(lia)) in Hfull. discriminate. }
      subst i. destruct (Hdist j r' Hj) as (b' & Hb' & ->).
      destruct (Hdist 0%nat r Hn) as (b0 & Hb0 & ->).
      exact (StronglySorted_nth _ validated Hgaps 0%nat j b0 b'
               ltac:(lia) Hb0 Hb').
    + intros Hclosest. destruct Hrule as (H0 & _).
      destruct (Nat.eq_dec i 0) as [E|E]; [now apply H0|].
      exfalso.
      assert (Hlen : (0 < List.length results)%nat).
      { assert (Hlt : (i < List.length results)%nat)
          by (apply nth_error_Some; congruence). lia. }
      destruct (nth_error results 0) as [r0|] eqn:E0;
        [|apply nth_error_None in E0; lia].
      specialize (Hclosest 0%nat r0 ltac:(lia) E0).
      destruct (Hdist 0%nat r0 E0) as (b0 & Hb0 & Hd0).
      destruct (Hdist i r Hn) as (bi & Hbi & Hdi).
      pose proof (StronglySorted_nth _ validated Hgaps 0%nat i b0 bi
                    ltac:(lia) Hb0 Hbi) as Hgap.
      simpl in Hgap. rewrite Hd0, Hdi in Hclosest. lra.
  - rewrite Hdetails, length_map, Hcount. unfold shadowCasters.
    f_equal. apply filter_all.
    intros c Hc. apply lt_true.
    unfold largerCloser in Hc. apply filter_In in Hc. destruct Hc as (Hc & _).
    apply In_nth_error in Hc. destruct Hc as (j & Hj).
    assert (Hlt : (j < i)%nat).
    { assert (Hl : (j < List.length (firstn i validated))%nat)
        by (apply nth_error_Some; congruence).
      rewrite length_firstn in Hl. lia. }
    rewrite nth_error_firstn in Hj.
    destruct (Nat.ltb_spec j i); [|lia].
    exact (StronglySorted_nth _ validated Hgaps j i c body Hlt Hj Hi).
Qed.

End StarSystemFacts.

Lemma accepted_system_is_sorted_with_gaps_witness :
  let coercion := fun (_ : string) (_ : Q) => false in
  let raw n d s :=
    CustomStarSystem.mkRawPlanet (JsString n) (JsNumber d) (JsNumber s) in
  let system :=
    CustomStarSystem.mkRawSystem
      (JsString "Lumoria")
      (JsString "The mystical Lumoria system with four diverse worlds")
      (Some [ raw "Mercuria" 0.4 4879; raw "Earthia" 1 12742;
              raw "Venusia" 0.7 12104; raw "Marsia" 1.5 6779 ]) in
  exists result,
    CustomStarSystem.validateStarSystem coercion JsString.trim
      JsString.toLowerCase Qminus system = Some result /\
    CustomStarSystem.sv_isValid result = true /\
    CustomStarSystem.sv_errors result = [] /\
    CustomStarSystem.vs_name (CustomStarSystem.validatedSystem result)
    = Some "Lumoria".
Proof.
  intros coercion raw system.
  assert (H : exists result,
             CustomStarSystem.validateStarSystem coercion JsString.trim
               JsString.toLowerCase Qminus system = Some result /\
             CustomStarSystem.sv_isValid result = true).
  { eexists. split; [vm_compute; reflexivity | reflexivity]. }
  destruct H as (result & H & Hvalid).
  exists result. split; [exact H|]. split; [exact Hvalid|].
  destruct (accepted_system_is_sorted_with_gaps coercion JsString.trim
              JsString.toLowerCase Qminus system result H Hvalid)
    as (Herrors & (n & Hn & Hname) & _).
  split; [exact Herrors|]. rewrite Hname.
  simpl in Hn. inversion Hn. reflexivity.
Defined.



Lemma analysis_of_an_accepted_system_witness :
  let coercion := fun (_ : string) (_ : Q) => false in
  let raw n d s :=
    CustomStarSystem.mkRawPlanet (JsString n) (JsNumber d) (JsNumber s) in
  let system :=
    CustomStarSystem.mkRawSystem
      (JsString "Solaris Minor")
      (JsString "A compact system resembling our solar system")
      (Some [ raw "Ignis" 0.3 4900; raw "Terra" 1.0 12800;
              raw "Glacies" 1.8 7200; raw "Ventus" 3.2 5100 ]) in
  exists result validated results,
    CustomStarSystem.validateStarSystem coercion JsString.trim
      JsString.toLowerCase Qminus system = Some result /\
    CustomStarSystem.sv_isValid result = true /\
    CustomStarSystem.vs_planets (CustomStarSystem.validatedSystem result)
    = Some validated /\
    ScientificShadow.calculateScientificLightIntensity validated
    = Some results /\
    List.map bodyOfScientific results = validated.
Proof.
  intros coercion raw system.
  assert (H : exists result validated,
             CustomStarSystem.validateStarSystem coercion JsString.trim
               JsString.toLowerCase Qminus system = Some result /\
             CustomStarSystem.sv_isValid result = true /\
             CustomStarSystem.vs_planets
               (CustomStarSystem.validatedSystem result) = Some validated).
  { do 2 eexists. split; [vm_compute; reflexivity|].
    split; reflexivity. }
  destruct H as (result & validated & H & Hvalid & Hv).
  assert (Hminus : forall a b : Q, a == b -> Qminus a b == 0).
  { intros a b E. unfold Qminus. rewrite E. apply Qplus_opp_r. }
  destruct (analysis_of_an_accepted_system coercion JsString.trim
              JsString.toLowerCase Qminus system result validated
              Hminus H Hvalid Hv)
    as (results & Hr & Hbodies & _).
  exists result, validated, results. repeat split; assumption.
Defined.

(** ** The shadow count at any index *)

(** X22. [getShadowCount] on any array and any index, sorted or not.  It
    throws exactly when the index is past the end of a non-empty array
    and is not 0; a count it returns is at most the index and less than
    the length of a non-empty array.  [getScientificShadowAnalysis]
    throws on the same arguments and returns the same count in
    [shadowCount]. *)
Theorem getShadowCount_at_any_index (planets : list Planet) (i : nat) :
  (Lumoria.getShadowCount planets i = None
   <-> i <> 0%nat /\ planets <> [] /\ (List.length planets <= i)%nat) /\
  (forall n, Lumoria.getShadowCount planets i = Some n ->
             (n <= Nat.min i (List.length planets - 1))%nat) /\
  option_map ScientificShadow.shadowCount
    (ScientificShadow.getScientificShadowAnalysis planets i)
  = Lumoria.getShadowCount planets i.
Proof.
  unfold Lumoria.getShadowCount, ScientificShadow.getScientificShadowAnalysis.
  destruct i as [|i]; cbn [Nat.eqb].
  { split; [split; [discriminate | intros (H & _); now contradiction H]|].
    split; [|reflexivity]. intros n Hn. inversion Hn. lia. }
  destruct planets as [|p rest].
  { simpl. split; [split; [discriminate | intros (_ & H & _); congruence]|].
    split; [|reflexivity]. intros n Hn. inversion Hn. lia. }
  cbn [firstn].
  destruct (nth_error (p :: rest) (S i)) as [current|] eqn:E.
  - assert (Hlt : (S i < List.length (p :: rest))%nat)
      by (apply nth_error_Some; congruence).
    split; [split; [discriminate | intros (_ & _ & H); lia]|].
    split; [|reflexivity].
    intros n Hn. inversion Hn; subst n; clear Hn.
    pose proof (filter_length_le
                  (fun planet => Js.gt (size planet) (size current))
                  (p :: firstn i rest)) as Hle.
    cbn [List.length] in Hle, Hlt |- *. rewrite length_firstn in Hle.
    cbn [filter] in Hle |- *. lia.
  - apply nth_error_None in E.
    split; [split; [intros _ | reflexivity]|].
    + split; [discriminate|]. split; [discriminate | exact E].
    + split; [discriminate | reflexivity].
Qed.
